(** * AI-Calculator: the client-side solve / save / session orchestration

    A shallow embedding of the browser scripts of the calculator front end
    (text-mode converter, solution display, save orchestration, cookie and
    session helpers, dashboard sorting) together with the properties the
    specification states about them, and further properties of the same
    scripts: the session from sign-in to sign-out, the checks of the sign-in
    page, the listeners of the two modes, and the PDF helpers of the
    dashboard.

    Conventions.
    - A JavaScript string is a Rocq [string]; one [ascii] stands for one code
      unit, so the model speaks about the code units U+0000..U+00FF.
    - [null] / [undefined] are [None]; a JavaScript truthiness test on a
      string-or-null value is [truthy], on a value read from JSON
      [JSON.truthy].
    - Built-ins of the host that the scripts call but do not define (the date
      functions, [localeCompare], [katex.render], [JSON.parse], the browser's
      reading of a cookie's attributes and what it does where browsers
      differ) are the fields of the class [Host]. *)

From Stdlib Require Import ZArith Ascii String List Bool Lia DecimalString.
From Stdlib Require Import Sorting.Sorted Sorting.Permutation.
From stdpp Require Import base list strings gmap.

Local Open Scope Z_scope.

(** ** JavaScript strings *)

Module JS.

Abbreviation chars := (list ascii).

Definition code (c : ascii) : N := N_of_ascii c.

Definition in_range (lo hi : N) (c : ascii) : bool :=
  ((lo <=? code c) && (code c <=? hi))%N.

Definition isChar (x : ascii) (c : ascii) : bool := Ascii.eqb x c.

(** [[0-9]], [[a-z]], [[A-Z]] *)
Definition isDigit : ascii -> bool := in_range 48 57.
Definition isLower : ascii -> bool := in_range 97 122.
Definition isUpper : ascii -> bool := in_range 65 90.
Definition isAlpha (c : ascii) : bool := isLower c || isUpper c.
Definition isAlnum (c : ascii) : bool := isAlpha c || isDigit c.

(** [\s] and the characters [String.prototype.trim] strips: TAB, LF, VT, FF,
    CR, SPACE and NBSP are the white space and line terminators below U+0100. *)
Definition isSpace (c : ascii) : bool :=
  in_range 9 13 c || isChar " " c || (code c =? 160)%N.

(** Line terminators: the characters [.] does not match. *)
Definition isLineTerminator (c : ascii) : bool :=
  (code c =? 10)%N || (code c =? 13)%N.
Definition dot (c : ascii) : bool := negb (isLineTerminator c).

Definition of_string : string -> chars := list_ascii_of_string.
Definition to_string : chars -> string := string_of_list_ascii.

(** A value used as a condition: [null], [undefined] and [""] are falsy. *)
Definition truthy (v : option string) : bool :=
  match v with
  | Some s => negb (String.eqb s "")
  | None => false
  end.

(** [a || b] on string-or-null values. *)
Definition or_else (a b : option string) : option string :=
  if truthy a then a else b.

(** [s.trim()]: white space is dropped at both ends. *)
Fixpoint drop_while (p : ascii -> bool) (s : chars) : chars :=
  match s with
  | [] => []
  | c :: s' => if p c then drop_while p s' else s
  end.
Definition trim_chars (s : chars) : chars :=
  rev (drop_while isSpace (rev (drop_while isSpace s))).
Definition trim (s : string) : string := to_string (trim_chars (of_string s)).

(** [pre] is a prefix of [s]: [s.indexOf(pre) === 0]. *)
Fixpoint starts_with (pre s : chars) : bool :=
  match pre, s with
  | [], _ => true
  | p :: pre', c :: s' => Ascii.eqb p c && starts_with pre' s'
  | _ :: _, [] => false
  end.

(** [s.includes(sub)] *)
Fixpoint includes_chars (sub s : chars) : bool :=
  starts_with sub s ||
  match s with
  | [] => false
  | _ :: s' => includes_chars sub s'
  end.
Definition includes (sub s : string) : bool :=
  includes_chars (of_string sub) (of_string s).

(** [s.split(sep)] for a one-character separator: never the empty list. *)
Fixpoint split_chars (sep : ascii) (s : chars) : list chars :=
  match s with
  | [] => [[]]
  | c :: s' =>
      if Ascii.eqb c sep then [] :: split_chars sep s'
      else match split_chars sep s' with
           | p :: ps => (c :: p) :: ps
           | [] => [[c]]
           end
  end.

(** The characters a Rocq string literal cannot hold. *)
Definition dquote : string := String (ascii_of_N 34) EmptyString.
Definition newline : string := String (ascii_of_N 10) EmptyString.

(** [parts.join(sep)] *)
Definition join (sep : string) (parts : list string) : string :=
  String.concat sep parts.

(** *** Regular expressions

    The fragment of the regular-expression language the scripts use: character
    classes, sequence, alternation, greedy and lazy repetition of a class,
    numbered capturing groups and the end-of-input assertion [$] (no [m] flag).
    Matching is the backtracking search of the language: the alternatives are
    tried in order and the first complete match wins. *)

Inductive regex : Type :=
| Eps : regex
| Chr (p : ascii -> bool) : regex
| Seq (r1 r2 : regex) : regex
| Alt (r1 r2 : regex) : regex
| Star (p : ascii -> bool) : regex
| LazyStar (p : ascii -> bool) : regex
| Group (n : nat) (r : regex) : regex
| Eoi : regex.

Infix "+>" := Seq (at level 60, right associativity).

(** [r?] and [c+] *)
Definition Opt (r : regex) : regex := Alt r Eps.
Definition Plus (p : ascii -> bool) : regex := Chr p +> Star p.

Definition captures := list (nat * chars).

(** [$n]: the text of group [n], empty when the group took no part. *)
Fixpoint group (n : nat) (caps : captures) : chars :=
  match caps with
  | [] => []
  | (m, txt) :: rest => if Nat.eqb n m then txt else group n rest
  end.

Definition orelse {R} (a b : option R) : option R :=
  match a with
  | Some x => Some x
  | None => b
  end.

(** [rmatch r s caps k]: match [r] at the head of [s], then continue with
    [k] on what is left; [None] makes the matcher backtrack. *)
Fixpoint rmatch {R} (r : regex) (s : chars) (caps : captures)
    (k : chars -> captures -> option R) {struct r} : option R :=
  match r with
  | Eps => k s caps
  | Chr p =>
      match s with
      | c :: s' => if p c then k s' caps else None
      | [] => None
      end
  | Seq r1 r2 => rmatch r1 s caps (fun s1 caps1 => rmatch r2 s1 caps1 k)
  | Alt r1 r2 => orelse (rmatch r1 s caps k) (rmatch r2 s caps k)
  | Star p =>
      (fix star (s : chars) : option R :=
         match s with
         | c :: s' => if p c then orelse (star s') (k s caps) else k s caps
         | [] => k s caps
         end) s
  | LazyStar p =>
      (fix star (s : chars) : option R :=
         orelse (k s caps)
           match s with
           | c :: s' => if p c then star s' else None
           | [] => None
           end) s
  | Group n r' =>
      rmatch r' s caps
        (fun s' caps' => k s' ((n, take (length s - length s') s) :: caps'))
  | Eoi =>
      match s with
      | [] => k s caps
      | _ :: _ => None
      end
  end.

(** A match anchored at the head of [s]: the matched text and the groups. *)
Definition exec (r : regex) (s : chars) : option (chars * captures) :=
  rmatch r s [] (fun s' caps => Some (take (length s - length s') s, caps)).

(** [s.replace(/r/g, f)]: scan from the left; where [r] matches, emit the
    replacement and resume after the match ([skip] counts the matched
    characters still to pass over); elsewhere copy the character. *)
Fixpoint replace_from (r : regex) (f : chars -> captures -> chars)
    (skip : nat) (s : chars) : chars :=
  match s with
  | [] =>
      match skip, exec r [] with
      | O, Some (m, caps) => f m caps
      | _, _ => []
      end
  | c :: rest =>
      match skip with
      | S n => replace_from r f n rest
      | O =>
          match exec r s with
          | Some ([], caps) => f [] caps ++ c :: replace_from r f 0 rest
          | Some (_ :: m, caps) =>
              f (c :: m) caps ++ replace_from r f (length m) rest
          | None => c :: replace_from r f 0 rest
          end
      end
  end.

Definition replace_all (r : regex) (f : chars -> captures -> chars)
    (s : chars) : chars :=
  replace_from r f 0 s.

(** [s.match(/r/)] without the [g] flag: the leftmost match. *)
Fixpoint search (r : regex) (s : chars) : option (chars * captures) :=
  match exec r s with
  | Some found => Some found
  | None =>
      match s with
      | [] => None
      | _ :: s' => search r s'
      end
  end.

(** [s.substring(from, to)] with [from <= to] *)
Definition substring (from to : nat) (s : chars) : chars :=
  take (to - from) (drop from s).

End JS.

(** ** JSON values *)

Module JSON.

(** A value other than [null]; [null], like [undefined], is [None]. Of a
    number the scripts ask nothing but whether it is zero. *)
#[warnings="-register-all"]
Inductive Value : Type :=
| Boolean (b : bool)
| Number (zero : bool)
| Text (s : string)
| Array (elements : list (option Value))
| Object (members : gmap string (option Value)).

(** A value used as a condition: [null], [false], [0] and [""] are falsy. *)
Definition truthy (v : option Value) : bool :=
  match v with
  | None => false
  | Some (Boolean b) => b
  | Some (Number zero) => negb zero
  | Some (Text s) => negb (String.eqb s "")
  | Some (Array _) | Some (Object _) => true
  end.

(** [v.key] for a value that is not [null]: the member of an object,
    [undefined] on anything else. *)
Definition get (key : string) (v : Value) : option Value :=
  match v with
  | Object members => mjoin (members !! key)
  | _ => None
  end.

End JSON.

(** ** The host: built-ins the scripts call *)

Class Host := {
  (** [new Date(s).getTime()]; [None] is NaN, the time of an invalid date *)
  Date_getTime : string -> option Z;
  (** [date.toUTCString()] and [date.toLocaleString()] of a time value *)
  toUTCString : Z -> string;
  toLocaleString : Z -> string;
  (** [a.localeCompare(b)] in the collation of the host *)
  localeCompare : string -> string -> Z;
  (** [s.toUpperCase()] *)
  toUpperCase : string -> string;
  (** [katex.render(expr, element)] throws on [expr] *)
  katex_throws : string -> bool;
  (** [JSON.parse(text)]: [None] when it throws, the value otherwise,
      [Some None] for [null] *)
  JSON_parse : string -> option (option JSON.Value);
  (** the expiry time the browser reads from the attributes that follow the
      first [;] of a string assigned to [document.cookie]; [None] when they
      give none (a session cookie) *)
  cookie_expires : string -> option Z;
  (** what the browser does with a text assigned to [document.cookie] that
      holds a control character (U+0000..U+001F, U+007F): [None] when it
      ignores the assignment, [Some n] when it goes on with the first [n]
      characters of the text. Browsers differ here: some ignore a text with
      any control character but the tab, some cut it at the first NUL, CR or
      LF *)
  cookie_control : string -> option nat;
  (** whether the browser takes a cookie of the name given whose attributes
      hold more than an expiry and the path [/], and shows it to the page:
      [Secure] on a page that was not loaded securely, [HttpOnly] in a text
      that a script assigns, a [Domain] that is not the one of the page and a
      [Path] the page is not under make it ignore the cookie or hide it *)
  cookie_taken : string -> string -> bool;
}.

(** [JSON.parse(text)] returns (it throws otherwise). *)
Definition JSON_valid `{Host} (text : string) : bool :=
  match JSON_parse text with
  | Some _ => true
  | None => false
  end.

(** ** The browser: storage, cookies, location *)

Module Browser.
Import JS.

(** The cookies visible to the pages, in the order [document.cookie] lists
    them. The scripts write every cookie with [path=/], and the store is
    keyed by the cookie name. *)
Abbreviation cookieJar := (list (string * string)).

Record t := {
  localStorage : gmap string string;
  cookies : cookieJar;
  href : string;
}.

Definition set_localStorage (f : gmap string string -> gmap string string)
    (b : t) : t :=
  {| localStorage := f (localStorage b); cookies := cookies b; href := href b |}.
Definition set_cookies (f : cookieJar -> cookieJar) (b : t) : t :=
  {| localStorage := localStorage b; cookies := f (cookies b); href := href b |}.
Definition set_href (url : string) (b : t) : t :=
  {| localStorage := localStorage b; cookies := cookies b; href := url |}.

(** [localStorage.getItem], [setItem], [removeItem] *)
Definition getItem (key : string) (b : t) : option string :=
  localStorage b !! key.
Definition setItem (key value : string) : t -> t :=
  set_localStorage (insert key value).
Definition removeItem (key : string) : t -> t :=
  set_localStorage (delete key).

(** Reading [document.cookie]: the pairs [name=value] joined by ["; "]. *)
Definition cookie_pair (c : string * string) : string :=
  fst c +:+ "=" +:+ snd c.
Definition document_cookie (jar : cookieJar) : string :=
  join "; " (map cookie_pair jar).

(** Assigning to [document.cookie], after RFC 6265, section 5.2: the text up
    to the first [;] is the name-value pair, cut at its first [=]; a pair
    without [=] or with an empty name is ignored; spaces and tabs around the
    name and the value are dropped. A cookie whose expiry time is not in the
    future is removed, any other is stored in place of the one of its name,
    or after the others.

    Before that come the checks of the browsers of today (RFC 6265bis,
    sections 5.6 and 5.7). A text with a control character is ignored or
    cut, as the host has it. A cookie is ignored when its name and value
    take more than 4096 bytes, and when its name begins with [__Secure-],
    [__Host-] or [__Http-] (in any case) and its attributes are an expiry and
    the path [/] at most: such a name asks for the attribute [Secure]. With
    any further attribute the host says whether the cookie is taken. *)
Fixpoint cut_at (sep : ascii) (s : chars) : option (chars * chars) :=
  match s with
  | [] => None
  | c :: s' =>
      if Ascii.eqb c sep then Some ([], s')
      else match cut_at sep s' with
           | Some (before, after) => Some (c :: before, after)
           | None => None
           end
  end.

Definition isWsp (c : ascii) : bool := isChar " " c || (code c =? 9)%N.
Definition trim_wsp (s : chars) : chars :=
  rev (drop_while isWsp (rev (drop_while isWsp s))).

Fixpoint store (name value : string) (jar : cookieJar) : cookieJar :=
  match jar with
  | [] => [(name, value)]
  | (n, v) :: rest =>
      if String.eqb n name then (name, value) :: rest
      else (n, v) :: store name value rest
  end.

Definition remove (name : string) (jar : cookieJar) : cookieJar :=
  filter (fun c => fst c <> name) jar.

Definition lookup (name : string) (jar : cookieJar) : option string :=
  snd <$> find (fun c => String.eqb (fst c) name) jar.

(** Control characters, and a text without any. *)
Definition isControl (c : ascii) : bool :=
  (code c <? 32)%N || (code c =? 127)%N.
Definition printable (s : chars) : bool :=
  forallb (fun c => negb (isControl c)) s.

Definition screened `{Host} (text : string) : option string :=
  if printable (of_string text) then Some text
  else (fun n => to_string (take n (of_string text))) <$> cookie_control text.

(** The bytes a text takes (in UTF-8): one for a code unit below U+0080, two
    for one from U+0080 to U+00FF. *)
Definition octets (s : chars) : N :=
  foldr (fun c n => ((if code c <? 128 then 1 else 2) + n)%N) 0%N s.

(** The names kept for cookies with the attribute [Secure]. *)
Definition lowerAscii (c : ascii) : ascii :=
  if isUpper c then ascii_of_N (code c + 32) else c.
Definition reserved (name : string) : bool :=
  let name := map lowerAscii (of_string name) in
  starts_with (of_string "__secure-") name ||
  starts_with (of_string "__host-") name ||
  starts_with (of_string "__http-") name.

(** The attributes are an expiry ([Expires], [Max-Age]) and the path [/] at
    most; an attribute without a name counts for nothing. *)
Definition plain_attribute (piece : chars) : bool :=
  let (name, value) :=
    match cut_at "=" piece with
    | Some (name, value) => (name, value)
    | None => (piece, [])
    end in
  let name := to_string (map lowerAscii (trim_wsp name)) in
  let value := to_string (trim_wsp value) in
  String.eqb name "" || String.eqb name "expires" ||
  String.eqb name "max-age" ||
  (String.eqb name "path" && String.eqb value "/").
Definition plain_attributes (attributes : chars) : bool :=
  forallb plain_attribute (split_chars ";" attributes).

Definition refused `{Host} (name value : string) (attributes : chars)
    : bool :=
  (4096 <? octets (of_string name) + octets (of_string value))%N ||
  (if plain_attributes attributes then reserved name
   else negb (cookie_taken name (to_string attributes))).

(** The cookie read from a text, with the attributes that follow it. *)
Definition assign_pair `{Host} (now : Z) (name value : string)
    (attributes : chars) (jar : cookieJar) : cookieJar :=
  if String.eqb name "" then jar
  else if refused name value attributes then jar
  else
    match cookie_expires (to_string attributes) with
    | Some expiry =>
        if expiry <=? now then remove name jar else store name value jar
    | None => store name value jar
    end.

(** The assignment of a text that passed the check for control
    characters. *)
Definition assign_text `{Host} (now : Z) (text : string)
    (jar : cookieJar) : cookieJar :=
  let (name_value, attributes) :=
    match cut_at ";" (of_string text) with
    | Some (name_value, attributes) => (name_value, attributes)
    | None => (of_string text, [])
    end in
  match cut_at "=" name_value with
  | None => jar
  | Some (name, value) =>
      assign_pair now (to_string (trim_wsp name)) (to_string (trim_wsp value))
        attributes jar
  end.

Definition assign_cookie `{Host} (now : Z) (text : string)
    (jar : cookieJar) : cookieJar :=
  match screened text with
  | Some text => assign_text now text jar
  | None => jar
  end.

Definition set_document_cookie `{Host} (now : Z) (text : string) : t -> t :=
  set_cookies (assign_cookie now text).

End Browser.

(** ** The session script of the calculator pages (user-auth.js) *)

Module UserAuth.
Import JS.

(** [getCookie(name)] applied to the text of [document.cookie] *)
Fixpoint getCookie_loop (nameEQ : chars) (ca : list chars) : option string :=
  match ca with
  | [] => None
  | c :: rest =>
      let c := drop_while (isChar " ") c in
      if starts_with nameEQ c then Some (to_string (drop (length nameEQ) c))
      else getCookie_loop nameEQ rest
  end.

Definition getCookie (name : string) (document_cookie : string)
    : option string :=
  let nameEQ := of_string (name +:+ "=") in
  let ca := split_chars ";" (of_string document_cookie) in
  getCookie_loop nameEQ ca.

(** [setCookie(name, value, days)]: the text assigned to [document.cookie] *)
Definition setCookie_text `{Host} (now : Z) (name : string)
    (value : option string) (days : Z) : string :=
  let expires :=
    if days =? 0 then ""
    else "; expires=" +:+ toUTCString (now + days * 24 * 60 * 60 * 1000) in
  let value := match or_else value (Some "") with Some v => v | None => "" end in
  name +:+ "=" +:+ value +:+ expires +:+ "; path=/".

Definition setCookie `{Host} (now : Z) (name : string) (value : option string)
    (days : Z) : Browser.t -> Browser.t :=
  Browser.set_document_cookie now (setCookie_text now name value days).

(** The module-level variables and the two [window] properties. *)
Record Session := {
  isAuthenticated : bool;
  currentUser : option JSON.Value;
  authToken : option string;
  window_isAuthenticated : bool;
  window_authToken : option string;
}.

Definition loggedOut (s : Session) : Session :=
  {| isAuthenticated := false; currentUser := None; authToken := None;
     window_isAuthenticated := window_isAuthenticated s;
     window_authToken := window_authToken s |}.

(** [logout(event)] *)
Definition logout `{Host} (now : Z) (s : Session) (b : Browser.t)
    : Session * Browser.t :=
  let s := loggedOut s in
  let b := Browser.removeItem "authToken" b in
  let b := Browser.removeItem "currentUser" b in
  let b := Browser.set_document_cookie now
             "authToken=; expires=Thu, 01 Jan 1970 00:00:00 UTC; path=/;" b in
  let b := Browser.set_href "/auth" b in
  (s, b).

(** [updateAuthUI()]: a page that shows the user ([#user-display]) sends a
    visitor without a session to the sign-in view. No page has an element
    [#username-display], so the name of the user is written nowhere. *)
Definition updateAuthUI (userDisplay : bool) (s : Session) (b : Browser.t)
    : Browser.t :=
  if userDisplay && negb (isAuthenticated s && JSON.truthy (currentUser s))
  then Browser.set_href "/auth" b
  else b.

(** [initAuth()]: the session is read back from the browser. *)
Definition initAuth `{Host} (now : Z) (userDisplay : bool) (s : Session)
    (b : Browser.t) : Session * Browser.t :=
  let token :=
    or_else (Browser.getItem "authToken" b)
            (getCookie "authToken" (Browser.document_cookie (Browser.cookies b))) in
  let userJson := Browser.getItem "currentUser" b in
  let s := {| isAuthenticated := isAuthenticated s;
              currentUser := currentUser s;
              authToken := token;
              window_isAuthenticated := window_isAuthenticated s;
              window_authToken := window_authToken s |} in
  if truthy token && truthy userJson then
    match userJson ≫= JSON_parse with
    | Some user =>
        let s := {| isAuthenticated := true; currentUser := user;
                    authToken := token; window_isAuthenticated := true;
                    window_authToken := token |} in
        let b := setCookie now "authToken" token 7 b in
        (s, updateAuthUI userDisplay s b)
    | None => logout now s b
    end
  else
    let s := {| isAuthenticated := isAuthenticated s;
                currentUser := currentUser s; authToken := token;
                window_isAuthenticated := false; window_authToken := None |} in
    (s, updateAuthUI userDisplay s b).

(** *** Saving a calculation *)

(** What [saveCurrentCalculation] reads from the page. An element the page
    does not have is [None]. *)
Record Page := {
  window_currentMode : option string;
  latex_input : option string;            (* #latex-input, its value *)
  drawing_latex_result : option string;   (* #drawing-latex-result, its text *)
  result_latex : option string;           (* #result, its dataset.latex *)
  solution_container : option string;     (* .solution-container, its text *)
  operation_type : option string;         (* #operation-type, its value *)
  explanation_container : option string;  (* .explanation-container, its text *)
}.

(** The five optional parameters, [null] by default. *)
Record Args := {
  manualLatexInput : option string;
  manualSolution : option string;
  manualOperationType : option string;
  manualExplanation : option string;
  manualTitle : option string;
}.

Definition noArgs : Args :=
  {| manualLatexInput := None; manualSolution := None;
     manualOperationType := None; manualExplanation := None;
     manualTitle := None |}.

(** The body of [POST /api/calculations]. *)
Record Request := {
  req_latex_input : string;
  req_operation_type : string;
  req_solution : string;
  req_ai_explanation : string;
  req_title : option string;
}.

Inductive Outcome : Type :=
| LoginRequired                                (* alert, no request *)
| Thrown                                       (* a TypeError, no request *)
| NothingToSave (alerted : bool)               (* no request *)
| Posted (request : Request) (prompted : bool).

(** [a || b] where [b] is a string. *)
Definition or_string (a : option string) (b : string) : string :=
  match or_else a (Some b) with
  | Some s => s
  | None => b
  end.

(** [saveCurrentCalculation(manualLatexInput, ..., manualTitle)] up to the
    request it sends; [promptAnswer] is what the user answers if asked for a
    title ([None] when the prompt is dismissed). *)
Definition saveCurrentCalculation (s : Session) (page : Page)
    (promptAnswer : option string) (a : Args) : Outcome :=
  if negb (isAuthenticated s) || negb (truthy (authToken s)) then LoginRequired
  else
    let latexInput : option string :=
      if truthy (manualLatexInput a) then manualLatexInput a
      else if bool_decide (window_currentMode page = Some "text")
      then latex_input page
      else match drawing_latex_result page with
           | Some text => Some text
           | None => Some (or_string (result_latex page) "")
           end in
    match latexInput with
    | None => Thrown
    | Some latexInput =>
        let solution :=
          or_string (manualSolution a)
            match solution_container page with
            | Some text => trim text
            | None => ""
            end in
        if negb (truthy (Some latexInput)) || negb (truthy (Some solution))
        then NothingToSave
               (negb (truthy (manualLatexInput a)) &&
                negb (truthy (manualSolution a)))
        else
          let operationType :=
            or_string (manualOperationType a)
              match operation_type page with
              | Some value => value
              | None => "solve"
              end in
          let explanation :=
            or_string (manualExplanation a)
              match explanation_container page with
              | Some text => trim text
              | None => ""
              end in
          let prompted :=
            negb (truthy (manualTitle a)) && negb (truthy (manualLatexInput a)) in
          let title := if prompted then promptAnswer else manualTitle a in
          Posted {| req_latex_input := latexInput;
                    req_operation_type := operationType;
                    req_solution := solution;
                    req_ai_explanation := explanation;
                    req_title := title |} prompted
    end.

(** The click handler of [#save-calculation]: [() => saveCurrentCalculation()] *)
Definition saveButtonClicked (s : Session) (page : Page)
    (promptAnswer : option string) : Outcome :=
  saveCurrentCalculation s page promptAnswer noArgs.

End UserAuth.

(** ** Solving: the response of [POST /api/solve] and its display *)

Module Solve.
Import JS.

(** The [solution] field: a string or a list of strings. *)
Inductive Solution : Type :=
| One (text : string)
| Many (texts : list string).

Record Response := {
  solution : option Solution;
  ai_steps : option (list string);
  error : option string;
}.

(** [solution.error] as a condition *)
Definition hasError (r : Response) : bool := truthy (error r).

(** [solution.solution] as a condition: an array is truthy, also when empty. *)
Definition hasSolution (r : Response) : bool :=
  match solution r with
  | Some (One text) => truthy (Some text)
  | Some (Many _) => true
  | None => false
  end.

(** What ends up in the element [.solution-result]. *)
Inductive Content : Type :=
| Rendered (expr : string)          (* katex.render(expr, result) returned *)
| InnerHTML (html : string)         (* result.innerHTML = html *)
| TextContent (text : option string). (* result.textContent = text *)

(** Exceptions: a computation returns or throws. *)
Inductive result (A : Type) : Type :=
| Ok (a : A)
| Throw (what : string).
Arguments Ok {A} a.
Arguments Throw {A} what.

Definition bind {A B} (m : result A) (f : A -> result B) : result B :=
  match m with
  | Ok a => f a
  | Throw what => Throw what
  end.

#[export] Instance result_fmap : FMap result := fun A B f m =>
  match m with
  | Ok a => Ok (f a)
  | Throw what => Throw what
  end.

(** [try { body } catch (e) { handler }] *)
Definition try_catch {A} (body : result A) (handler : string -> result A)
    : result A :=
  match body with
  | Ok a => Ok a
  | Throw what => handler what
  end.

(** [katex.render(expr, result)]; [undefined] is not an expression. *)
Definition katex_render `{Host} (expr : option string) : result Content :=
  match expr with
  | Some expr =>
      if katex_throws expr then Throw "ParseError" else Ok (Rendered expr)
  | None => Throw "ParseError"
  end.

(** The markup shown for several solutions. *)
Definition solutionsHtml (texts : list string) : string :=
  if forallb (includes "=") texts
  then join ", \; " texts
  else "x = " +:+ join ", \; x = " texts.

(** The part of [displaySolution] that fills the element [.solution-result];
    the two input modes share it word for word. *)
Definition showResult `{Host} (r : Response) : result Content :=
  if hasError r then
    Ok (InnerHTML ("<div class=" +:+ dquote +:+ "error" +:+ dquote +:+ ">" +:+
                   default "" (error r) +:+ "</div>"))
  else
    match solution r with
    | Some (Many texts) =>
        if (1 <? length texts)%nat then
          let html := solutionsHtml texts in
          try_catch (katex_render (Some html))
            (fun _ => Ok (InnerHTML ("<div>" +:+ html +:+ "</div>")))
        else
          let solutionText := head texts in
          try_catch (katex_render solutionText)
            (fun _ => Ok (TextContent solutionText))
    | Some (One text) =>
        try_catch (katex_render (Some text))
          (fun _ => Ok (TextContent (Some text)))
    | None =>
        try_catch (katex_render None) (fun _ => Ok (TextContent None))
    end.

(** The page after [displaySolution]: the result element, whether the steps
    section is shown, and whether the auto-save timer was set. The markup of
    the single steps is not part of the model. *)
Record Display := {
  shown : Content;
  steps_shown : bool;
  autoSave_scheduled : bool;
}.

Definition hasSteps (r : Response) : bool :=
  match ai_steps r with
  | Some steps => (0 <? length steps)%nat
  | None => false
  end.

End Solve.

(** ** Text mode: the converter from typed text to markup *)

Module TextMode.
Import JS Solve.

(** The classes "[0-9a-zA-Z\)}]" and "[0-9a-zA-Z\({]" *)
Definition leftOperand (c : ascii) : bool :=
  isAlnum c || isChar ")" c || isChar "}" c.
Definition rightOperand (c : ascii) : bool :=
  isAlnum c || isChar "(" c || isChar "{" c.

(** "/([0-9a-zA-Z\)}])(\s*)\*(\s*)([0-9a-zA-Z\({])/g" *)
Definition explicitTimes : regex :=
  Group 1 (Chr leftOperand) +> Group 2 (Star isSpace) +> Chr (isChar "*") +>
  Group 3 (Star isSpace) +> Group 4 (Chr rightOperand).

(** "/([0-9])([a-zA-Z])/g" *)
Definition digitLetter : regex :=
  Group 1 (Chr isDigit) +> Group 2 (Chr isAlpha).

(** "/([a-zA-Z0-9\}])([a-zA-Z]+\^)/g" *)
Definition termPower : regex :=
  Group 1 (Chr (fun c => isAlnum c || isChar "}" c)) +>
  Group 2 (Plus isAlpha +> Chr (isChar "^")).

(** "/\^(-?\(.*?\)|\([^)]*\))/g" *)
Definition parenExponent : regex :=
  Chr (isChar "^") +>
  Group 1 (Alt (Opt (Chr (isChar "-")) +> Chr (isChar "(") +> LazyStar dot +>
                Chr (isChar ")"))
               (Chr (isChar "(") +> Star (fun c => negb (isChar ")" c)) +>
                Chr (isChar ")"))).

(** "/\^-([a-zA-Z0-9]+)/g" *)
Definition negExponent : regex :=
  Chr (isChar "^") +> Chr (isChar "-") +> Group 1 (Plus isAlnum).

(** "/\^([a-zA-Z0-9]+)/g" *)
Definition bareExponent : regex :=
  Chr (isChar "^") +> Group 1 (Plus isAlnum).

(** "/(.*)\[(.*),(.*)\]$/" *)
Definition domainSuffix : regex :=
  Group 1 (Star dot) +> Chr (isChar "[") +> Group 2 (Star dot) +>
  Chr (isChar ",") +> Group 3 (Star dot) +> Chr (isChar "]") +> Eoi.

(** The six rewriting steps applied before the operation type is looked at. *)
Definition rewriteSteps (input : chars) : chars :=
  let latex := input in
  (* '$1$2$3$4' *)
  let latex := replace_all explicitTimes
    (fun _ g => group 1 g ++ group 2 g ++ group 3 g ++ group 4 g) latex in
  (* '$1 $2' *)
  let latex := replace_all digitLetter
    (fun _ g => group 1 g ++ of_string " " ++ group 2 g) latex in
  (* '$1 $2' *)
  let latex := replace_all termPower
    (fun _ g => group 1 g ++ of_string " " ++ group 2 g) latex in
  (* exponent = match.substring(2, match.length - 1); `^{${exponent}}` *)
  let latex := replace_all parenExponent
    (fun m _ =>
       let exponent := substring 2 (length m - 1) m in
       of_string "^{" ++ exponent ++ of_string "}") latex in
  (* '^{-$1}' *)
  let latex := replace_all negExponent
    (fun _ g => of_string "^{-" ++ group 1 g ++ of_string "}") latex in
  (* '^{$1}' *)
  let latex := replace_all bareExponent
    (fun _ g => of_string "^{" ++ group 1 g ++ of_string "}") latex in
  latex.

(** The Fourier branch: [`${expr} \\text{ on } [${lowerBound},${upperBound}]`]
    when the markup matches [domainSuffix], the markup itself otherwise. *)
Definition domainClause (latex : chars) : chars :=
  match search domainSuffix latex with
  | Some (_, domainMatch) =>
      let expr := group 1 domainMatch in
      let lowerBound := group 2 domainMatch in
      let upperBound := group 3 domainMatch in
      expr ++ of_string " \text{ on } [" ++ lowerBound ++ of_string "," ++
      upperBound ++ of_string "]"
  | None => latex
  end.

(** [processInputToLatex(input)]; [operationTypeSelect] is the value of the
    element [#operation-type], [None] when the page has no such element. *)
Definition processInputToLatex (operationTypeSelect : option string)
    (input : string) : string :=
  let operationType :=
    match operationTypeSelect with
    | Some value => value
    | None => "solve"
    end in
  let latex := rewriteSteps (of_string input) in
  let latex :=
    if String.eqb operationType "fourier" then domainClause latex else latex in
  to_string latex.

(** The state of the mode: [this.currentLatex]. *)
Record t := { currentLatex : string }.

(** [renderPreview(inputText)]: the markup kept for the solve request. *)
Definition renderPreview (operationTypeSelect : option string)
    (inputText : string) : t :=
  if negb (truthy (Some (trim inputText))) then {| currentLatex := "" |}
  else {| currentLatex := processInputToLatex operationTypeSelect inputText |}.

(** [s.charAt(0).toUpperCase() + s.slice(1)] *)
Definition capitalize `{Host} (s : string) : string :=
  match s with
  | EmptyString => toUpperCase "" +:+ ""
  | String c rest => toUpperCase (String c "") +:+ rest
  end.

(** The text and the explanation [autoSaveCalculation] saves:
    [Array.isArray(solution.solution) ? solution.solution.join(', ') :
    solution.solution] and [solution.ai_steps ? solution.ai_steps.join('\n') :
    '']. *)
Definition solutionText (r : Response) : string :=
  match solution r with
  | Some (Many texts) => join ", " texts
  | Some (One text) => text
  | None => ""
  end.
Definition explanation (r : Response) : string :=
  match ai_steps r with
  | Some steps => join newline steps
  | None => ""
  end.

(** [displaySolution(solution)]; [saveAvailable] says that
    [window.saveCurrentCalculation] is a function. *)
Definition displaySolution `{Host} (s : UserAuth.Session) (saveAvailable : bool)
    (r : Response) : result Display :=
  bind (showResult r) (fun content =>
  Ok {| shown := content;
        steps_shown := hasSteps r;
        autoSave_scheduled :=
          UserAuth.window_isAuthenticated s && saveAvailable &&
          negb (hasError r) |}).

(** [autoSaveCalculation(solution)], run by the timer; [None] when it
    returns without calling [saveCurrentCalculation]. *)
Definition autoSaveCalculation `{Host} (now : Z) (tm : t)
    (s : UserAuth.Session) (saveAvailable : bool) (page : UserAuth.Page)
    (promptAnswer : option string) (r : Response) : option UserAuth.Outcome :=
  let latexInput := currentLatex tm in
  let operationType :=
    match UserAuth.operation_type page with
    | Some value => value
    | None => "solve"
    end in
  if negb (truthy (Some latexInput)) || negb (hasSolution r) then None
  else
    let solutionText := solutionText r in
    let explanation := explanation r in
    let title := capitalize operationType +:+ " - " +:+ toLocaleString now in
    if saveAvailable then
      Some (UserAuth.saveCurrentCalculation s page promptAnswer
              {| UserAuth.manualLatexInput := Some latexInput;
                 UserAuth.manualSolution := Some solutionText;
                 UserAuth.manualOperationType := Some operationType;
                 UserAuth.manualExplanation := Some explanation;
                 UserAuth.manualTitle := Some title |})
    else None.

End TextMode.

(** ** Draw mode *)

Module DrawMode.
Import JS Solve.

(** [displaySolution(solution)]: the same display, and no timer. *)
Definition displaySolution `{Host} (r : Response) : result Display :=
  bind (showResult r) (fun content =>
  Ok {| shown := content;
        steps_shown := hasSteps r;
        autoSave_scheduled := false |}).

End DrawMode.

(** ** The calculator: one input mode at a time *)

Module Calculator.
Import JS Solve.

Inductive Mode : Type := Draw | Text.

(** [this.currentMode], ['draw'] at first *)
Definition initialMode : Mode := Draw.

(** [switchMode(mode)] *)
Definition switchMode (mode current : Mode) : Mode := mode.

(** What happens with an answer of the solver in the active mode: it is
    displayed, and the save that the auto-save timer of the display runs, if
    the display set one. *)
Definition solved `{Host} (now : Z) (mode : Mode) (tm : TextMode.t)
    (s : UserAuth.Session) (saveAvailable : bool) (page : UserAuth.Page)
    (promptAnswer : option string) (r : Response)
    : result (Display * option UserAuth.Outcome) :=
  let display :=
    match mode with
    | Draw => DrawMode.displaySolution r
    | Text => TextMode.displaySolution s saveAvailable r
    end in
  bind display (fun d =>
  Ok (d, if autoSave_scheduled d
         then TextMode.autoSaveCalculation now tm s saveAvailable page
                promptAnswer r
         else None)).

End Calculator.

(** ** The sign-in page (auth.js) *)

Module AuthForm.
Import JS.

Record Form := {
  name : string;
  email : string;
  username : string;
  password : string;
}.

(** The page: which form is shown, and the message under each input. *)
Record Page := {
  isLogin : bool;
  messages : gmap string string;
}.

(** The parsed body of the response. [user] is the text
    [JSON.stringify(data.user)]. *)
Record Data := {
  token : option string;
  user : option string;
  error : option string;
}.

(** What [await fetch(...)] and [await response.json()] give: the request
    fails, or a response arrives with its [ok] flag and its body, [None]
    when the body is not JSON. *)
Inductive Reply : Type :=
| NetworkError
| Response (ok : bool) (body : option Data).

Record Request := {
  endpoint : string;
  payload_username : string;
  payload_email : option string;
  payload_password : string;
}.

(** "/^[^\s@]+@[^\s@]+\.[^\s@]+$/" *)
Definition emailChar (c : ascii) : bool := negb (isSpace c || isChar "@" c).
Definition emailRegex : regex :=
  Plus emailChar +> Chr (isChar "@") +> Plus emailChar +> Chr (isChar ".") +>
  Plus emailChar +> Eoi.
Definition validateEmail (email : string) : bool :=
  bool_decide (is_Some (exec emailRegex (of_string email))).

(** The class of special characters of [validatePassword]. *)
Definition specialChars : string :=
  "!@#$%^&*(),.?" +:+ dquote +:+ ":{}|<>".
Definition isSpecial (c : ascii) : bool :=
  existsb (Ascii.eqb c) (of_string specialChars).

Definition validatePassword (isLogin : bool) (password : string)
    : list string :=
  if isLogin then []
  else
    let p := of_string password in
    (if (length p <? 8)%nat then ["at least 8 characters"] else []) ++
    (if existsb isUpper p then [] else ["an uppercase letter"]) ++
    (if existsb isLower p then [] else ["a lowercase letter"]) ++
    (if existsb isDigit p then [] else ["a number"]) ++
    (if existsb isSpecial p then [] else ["a special character"]).

Definition showError (input message : string) (p : Page) : Page :=
  {| isLogin := isLogin p; messages := <[input := message]> (messages p) |}.

Definition clearErrors (p : Page) : Page :=
  {| isLogin := isLogin p; messages := ∅ |}.

(** The click on the first toggle, the one of the sign-in form. *)
Definition showLoginForm (p : Page) : Page :=
  clearErrors {| isLogin := true; messages := messages p |}.

Definition blank (s : string) : bool := negb (truthy (Some (trim s))).

(** The checks made before anything is sent: the page with the messages, and
    whether one of them failed. *)
Definition validate (p : Page) (f : Form) : Page * bool :=
  let p := clearErrors p in
  let login := isLogin p in
  let c1 := negb login && blank (name f) in
  let p := if c1 then showError "name" "Name is required" p else p in
  let c2 := negb login && negb (validateEmail (email f)) in
  let p := if c2 then showError "email" "Please enter a valid email address" p
           else p in
  let c3 := login && blank (username f) in
  let p := if c3 then showError "username" "Username is required" p else p in
  let passwordErrors := validatePassword login (password f) in
  let c4 := (0 <? length passwordErrors)%nat && negb login in
  let p := if c4 then showError "password"
                        ("Password must contain " +:+ join ", " passwordErrors) p
           else p in
  (p, c1 || c2 || c3 || c4).

Definition request (login : bool) (f : Form) : Request :=
  {| endpoint := if login then "/api/auth/login" else "/api/auth/register";
     payload_username := if login then username f else name f;
     payload_email := if login then None else Some (email f);
     payload_password := password f |}.

(** [String(v)] for a value that may be [undefined] *)
Definition String_of (v : option string) : string := default "undefined" v.

(** What the handler does with the answer of the server. *)
Definition answered `{Host} (now : Z) (p : Page) (reply : Reply)
    (b : Browser.t) : Page * Browser.t :=
  let login := isLogin p in
  let where_ := if login then "username" else "email" in
  match reply with
  | Response ok (Some data) =>
      if ok then
        if login then
          let b := Browser.setItem "authToken" (String_of (token data)) b in
          let b := Browser.setItem "currentUser" (String_of (user data)) b in
          let b := UserAuth.setCookie now "authToken" (token data) 7 b in
          (p, Browser.set_href "/" b)
        else
          (showError "username"
             "Registration successful! Please login with your username."
             (showLoginForm p), b)
      else
        let errorMessage :=
          UserAuth.or_string (error data)
            (if login then "Login failed" else "Registration failed") in
        (showError where_ errorMessage p, b)
  | Response _ None | NetworkError =>
      (showError where_ "An error occurred. Please try again." p, b)
  end.

(** The submit handler: [server] is what the server answers to a request. *)
Definition submit `{Host} (now : Z) (server : Request -> Reply) (p : Page)
    (f : Form) (b : Browser.t) : Page * Browser.t * option Request :=
  let '(p, hasError) := validate p f in
  if hasError then (p, b, None)
  else
    let req := request (isLogin p) f in
    let '(p, b) := answered now p (server req) b in
    (p, b, Some req).

End AuthForm.

(** ** The dashboard *)

Record Calculation := {
  id : string;
  title : option string;
  operation_type : string;
  latex_input : string;
  solution : string;
  ai_explanation : option string;
  created_at : string;
}.

(** [Array.prototype.sort(comparefn)]. The language leaves the algorithm
    open and asks for a stable result; this is the stable insertion sort. A
    comparator that answers NaN is read as answering 0. *)
Module ArraySort.

Definition SortCompare (v : option Z) : Z := default 0 v.

Fixpoint insert {A} (comparefn : A -> A -> option Z) (x : A) (l : list A)
    : list A :=
  match l with
  | [] => [x]
  | y :: rest =>
      if SortCompare (comparefn x y) <=? 0 then x :: y :: rest
      else y :: insert comparefn x rest
  end.

Definition sort {A} (comparefn : A -> A -> option Z) (l : list A) : list A :=
  foldr (insert comparefn) [] l.

(** [a - b] on numbers that may be NaN *)
Definition minus (a b : option Z) : option Z :=
  match a, b with
  | Some x, Some y => Some (x - y)
  | _, _ => None
  end.

End ArraySort.

(** The dashboard script of the front end (frontend/scripts/dashboard.js). *)
Module Dashboard.

(** [logout(event)] *)
Definition logout (b : Browser.t) : Browser.t :=
  let b := Browser.removeItem "authToken" b in
  let b := Browser.removeItem "currentUser" b in
  Browser.set_href "/login" b.

(** [initAuth()]: [true] when the calculations are loaded, otherwise the
    visitor is sent to the sign-in view. The [try] block ends in its [catch]
    when [JSON.parse] throws, when the user is [null] (reading
    [currentUser.username] throws) and when the user has a [username] that is
    truthy and no string ([charAt] is no function then); the page of the
    dashboard has the elements [#user-name] and [#user-initial]. *)
Definition initAuth `{Host} (b : Browser.t) : bool * Browser.t :=
  let authToken := Browser.getItem "authToken" b in
  let userJson := Browser.getItem "currentUser" b in
  if JS.truthy authToken && JS.truthy userJson then
    match userJson ≫= JSON_parse with
    | Some (Some currentUser) =>
        match JSON.get "username" currentUser with
        | Some (JSON.Text _) => (true, b)
        | username =>
            if JSON.truthy username
            then (false, Browser.set_href "/login" b)
            else (true, b)
        end
    | Some None | None => (false, Browser.set_href "/login" b)
    end
  else (false, Browser.set_href "/login" b).

End Dashboard.

(** The dashboard script with sorting and PDF export. *)
Module DashboardSorted.
Import ArraySort.

(** [logout(event)] *)
Definition logout `{Host} (now : Z) (b : Browser.t) : Browser.t :=
  let b := Browser.removeItem "authToken" b in
  let b := Browser.removeItem "currentUser" b in
  let b := Browser.set_document_cookie now
             "authToken=; expires=Thu, 01 Jan 1970 00:00:00 UTC; path=/;" b in
  Browser.set_href "/login" b.

(** The three comparators of [sortCalculations]. *)
Definition newestFirst `{Host} (a b : Calculation) : option Z :=
  minus (Date_getTime (created_at b)) (Date_getTime (created_at a)).
Definition oldestFirst `{Host} (a b : Calculation) : option Z :=
  minus (Date_getTime (created_at a)) (Date_getTime (created_at b)).
Definition byType `{Host} (a b : Calculation) : option Z :=
  Some (localeCompare (operation_type a) (operation_type b)).

(** [sortCalculations(calculations, sortOption)] *)
Definition sortCalculations `{Host} (calculations : list Calculation)
    (sortOption : string) : list Calculation :=
  let sorted := calculations in
  if String.eqb sortOption "date-desc" then sort newestFirst sorted
  else if String.eqb sortOption "date-asc" then sort oldestFirst sorted
  else if String.eqb sortOption "type" then sort byType sorted
  else sorted.

End DashboardSorted.

(** ** More of the string library *)

Module JSString.
Import JS.

(** A literal text as a pattern. *)
Fixpoint literal (s : chars) : regex :=
  match s with
  | [] => Eps
  | c :: s' => Chr (isChar c) +> literal s'
  end.

(** [s.replace(pattern, replacement)] for a string pattern and a replacement
    without [$]: the first occurrence is replaced. *)
Fixpoint replace_first (pattern replacement s : chars) : chars :=
  if starts_with pattern s then replacement ++ drop (length pattern) s
  else match s with
       | [] => []
       | c :: s' => c :: replace_first pattern replacement s'
       end.

(** [s.toLowerCase()]: below U+0100 the letters A..Z and the letters
    U+00C0..U+00DE other than the multiplication sign have a lower-case form,
    32 code points further on. *)
Definition lower (c : ascii) : ascii :=
  if isUpper c || (in_range 192 222 c && negb (code c =? 215)%N)
  then ascii_of_N (code c + 32)
  else c.
Definition toLowerCase (s : string) : string :=
  to_string (map lower (of_string s)).

(** [String(n)] for a natural number *)
Definition Number_toString (n : N) : string :=
  NilEmpty.string_of_uint (N.to_uint n).

End JSString.

(** ** The session script before the automatic save (its first version) *)

Module UserAuthV1.
Import JS UserAuth.

(** [saveCurrentCalculation()]: the elements are read without a test, so a
    missing one ends the call with a TypeError. *)
Definition saveCurrentCalculation (s : Session) (page : Page)
    (promptAnswer : option string) : Outcome :=
  if negb (isAuthenticated s) || negb (truthy (authToken s)) then LoginRequired
  else
    let latexInput :=
      if bool_decide (window_currentMode page = Some "text")
      then latex_input page
      else drawing_latex_result page in
    match latexInput, solution_container page with
    | Some latexInput, Some text =>
        let solution := trim text in
        if negb (truthy (Some latexInput)) || negb (truthy (Some solution))
        then NothingToSave true
        else
          match operation_type page with
          | Some operationType =>
              let explanation :=
                match explanation_container page with
                | Some text => trim text
                | None => ""
                end in
              Posted {| req_latex_input := latexInput;
                        req_operation_type := operationType;
                        req_solution := solution;
                        req_ai_explanation := explanation;
                        req_title := promptAnswer |} true
          | None => Thrown
          end
    | _, _ => Thrown
    end.

End UserAuthV1.

(** ** The calculator page as the save routine finds it *)

Module CalculatorPage.
Import JS.

(** The elements of the page (index.html) and of the template of the active
    mode that [saveCurrentCalculation] looks for. No script assigns
    [window.currentMode] and no element has the id [latex-input] or
    [drawing-latex-result]; [#result], whose [dataset.latex] holds the
    recognized markup, belongs to the template of draw mode; the page has
    the elements [.solution-container] and [#operation-type] and none of
    the class [explanation-container]. *)
Definition elements (mode : Calculator.Mode) (dataset_latex : option string)
    (solutionText operationType : string) : UserAuth.Page :=
  {| UserAuth.window_currentMode := None;
     UserAuth.latex_input := None;
     UserAuth.drawing_latex_result := None;
     UserAuth.result_latex :=
       match mode with
       | Calculator.Draw => dataset_latex
       | Calculator.Text => None
       end;
     UserAuth.solution_container := Some solutionText;
     UserAuth.operation_type := Some operationType;
     UserAuth.explanation_container := None |}.

End CalculatorPage.

(** ** Solving: the request and what comes back *)

Module SolveRequest.
Import JS Solve JSString.

(** The body of [POST /api/solve]. *)
Record t := {
  latex : string;
  operation_type : string;
}.

(** What [await fetch(...)] and [await response.json()] give: the request
    fails with a message, or a response arrives with its [ok] flag, its
    status and its body, which is parsed or fails to parse with a message. *)
Inductive Reply : Type :=
| Rejected (message : string)
| Answered (ok : bool) (status : N) (body : result Response).

(** What the solution container shows in the end. *)
Inductive Shown : Type :=
| Solution (d : Display)
| Error (errorMessage : string).

(** [displayError(errorMessage)], the same in both modes *)
Definition displayError (errorMessage : string) : Shown := Error errorMessage.

(** The [try] block of the two solve routines up to the parsed body:
    [if (!response.ok) throw new Error(...)] and [await response.json()]. *)
Definition received (reply : Reply) : result Response :=
  match reply with
  | Rejected message => Throw message
  | Answered ok status body =>
      if ok then body
      else Throw ("Server responded with status: " +:+ Number_toString status)
  end.

(** [try { ... this.displaySolution(data) } catch (error)
    { this.displayError(`Error: ${error.message}`) }] *)
Definition displayed (reply : Reply)
    (displaySolution : Response -> result Display) : Shown :=
  match bind (received reply) displaySolution with
  | Ok d => Solution d
  | Throw message => displayError ("Error: " +:+ message)
  end.

End SolveRequest.

(** ** Text mode: the page and its listeners *)

Module TextModeView.
Import JS Solve SolveRequest.

(** The page while text mode is shown: the text area and the solve button
    that [createUI] made, the select of the page, the state of the mode, the
    texts of the text areas of earlier [init()] calls, whose [change]
    listeners are still on the select, and the number of requests of this
    page that wait for their answer. The user alone changes the text area
    and the select: [loadSavedCalculation], which would assign the select,
    ends before that at its call of [toggleMode], which no script defines. *)
Record t := {
  text_input : string;        (* #text-input, its value *)
  solve_disabled : bool;      (* #text-solve-btn, its disabled flag *)
  operation_type : string;    (* #operation-type, its value *)
  mode : TextMode.t;
  stale : list string;
  pending : nat;
}.

(** [init()]: an empty text area and a disabled button; [this.currentLatex]
    is left as it is. The requests of an earlier [init()] end on the button
    of their own page, which is no longer shown. *)
Definition init (operationType : string) (tm : TextMode.t)
    (stale : list string) : t :=
  {| text_input := ""; solve_disabled := true;
     operation_type := operationType; mode := tm; stale := stale;
     pending := 0 |}.

(** The listener of [input] on the text area. *)
Definition input (inputValue : string) (v : t) : t :=
  {| text_input := inputValue;
     solve_disabled := negb (truthy (Some (trim inputValue)));
     operation_type := operation_type v;
     mode := TextMode.renderPreview (Some (operation_type v)) inputValue;
     stale := stale v;
     pending := pending v |}.

(** One listener of [change] on the select, with the text area it was made
    for: [if (textInput.value.trim()) this.renderPreview(textInput.value)]. *)
Definition changed (value : string) (tm : TextMode.t) (text : string)
    : TextMode.t :=
  if truthy (Some (trim text)) then TextMode.renderPreview (Some value) text
  else tm.

(** The select takes the value [value]: the listeners run in the order they
    were added, the one of the text area on the page last. *)
Definition change (value : string) (v : t) : t :=
  {| text_input := text_input v;
     solve_disabled := solve_disabled v;
     operation_type := value;
     mode := foldl (changed value) (mode v) (stale v ++ [text_input v]);
     stale := stale v;
     pending := pending v |}.

(** [solveExpression()] up to [await fetch(...)]: [inputElement] says that
    the text area exists, [operationTypeSelect] is the value of the select,
    [None] without one. The button is disabled and the request is sent; the
    result is the page then and the request, if one was sent. *)
Definition solveExpression (inputElement : bool)
    (operationTypeSelect : option string) (v : t)
    : t * option SolveRequest.t :=
  match operationTypeSelect with
  | Some operationType =>
      if negb inputElement ||
         negb (truthy (Some (TextMode.currentLatex (mode v))))
      then (v, None)
      else
        ({| text_input := text_input v; solve_disabled := true;
            operation_type := operation_type v; mode := mode v;
            stale := stale v; pending := S (pending v) |},
         Some {| latex := TextMode.currentLatex (mode v);
                 SolveRequest.operation_type := operationType |})
  | None => (v, None)
  end.

(** [solveExpression()] from the answer on: the rest of the [try] block or
    the [catch] block shows something, and [finally] enables the button. *)
Definition resumed `{Host} (s : UserAuth.Session) (saveAvailable : bool)
    (reply : Reply) (v : t) : t * Shown :=
  ({| text_input := text_input v; solve_disabled := false;
      operation_type := operation_type v; mode := mode v;
      stale := stale v; pending := pred (pending v) |},
   displayed reply (TextMode.displaySolution s saveAvailable)).

(** What happens on the page: the user types, selects, clicks the button or
    presses Ctrl+Enter, and the answer to a request arrives. A click reaches
    the button only while it is enabled, and the listener of [keydown] asks
    the same of Ctrl+Enter. An answer arrives only while a request waits
    for one. *)
Inductive Event : Type :=
| Input (value : string)
| Change (value : string)
| Click
| CtrlEnter
| Answer (reply : Reply).

(** What an event sends or shows. *)
Inductive Effect : Type :=
| Nothing
| Sent (request : SolveRequest.t)
| Showed (shown : Shown).

Definition handle `{Host} (s : UserAuth.Session) (saveAvailable : bool)
    (e : Event) (v : t) : t * Effect :=
  match e with
  | Input value => (input value v, Nothing)
  | Change value => (change value v, Nothing)
  | Click | CtrlEnter =>
      if solve_disabled v then (v, Nothing)
      else
        match solveExpression true (Some (operation_type v)) v with
        | (v, Some request) => (v, Sent request)
        | (v, None) => (v, Nothing)
        end
  | Answer reply =>
      match pending v with
      | O => (v, Nothing)
      | S _ =>
          let (v, shown) := resumed s saveAvailable reply v in
          (v, Showed shown)
      end
  end.

(** The page after a list of events. *)
Definition run `{Host} (s : UserAuth.Session) (saveAvailable : bool)
    (events : list Event) (v : t) : t :=
  foldl (fun v e => fst (handle s saveAvailable e v)) v events.

End TextModeView.

(** ** Draw mode: the recognized markup and the solve button *)

Module DrawModeView.
Import JS Solve SolveRequest JSString.

(** [new RegExp("(align.{1})", "g")] *)
Definition alignAny : regex :=
  Group 1 (literal (of_string "align") +> Chr dot).

(** [cleanLatex(latexExport)] *)
Definition cleanLatex (latexExport : string) : string :=
  let aligned := replace_all alignAny (fun _ _ => of_string "aligned") in
  if includes "\\" latexExport then
    let steps := "\begin{align*}" +:+ latexExport +:+ "\end{align*}" in
    to_string
      (aligned
         (replace_first (of_string "\end{aligned}") []
            (replace_first (of_string "\begin{aligned}") []
               (of_string steps))))
  else to_string (aligned (of_string latexExport)).

(** The element [#result] and the solve button. *)
Record t := {
  dataset_latex : option string;   (* #result, its dataset.latex *)
  result : Content;                (* #result, what it shows *)
  solve_disabled : bool;           (* #solve-btn, its disabled flag *)
}.

(** [createUI()] *)
Definition init : t :=
  {| dataset_latex := None;
     result := InnerHTML "Your expression will appear here";
     solve_disabled := true |}.

(** The two listeners of [exported] on the editor; [latexExport] is the
    entry [application/x-latex] of the event, [None] when there is none. *)
Definition exported `{Host} (latexExport : option string) (v : t) : t :=
  let v :=
    if truthy latexExport then
      let latexContent := cleanLatex (default "" latexExport) in
      {| dataset_latex := Some latexContent;
         result :=
           if katex_throws latexContent
           then InnerHTML ("<span>" +:+ latexContent +:+ "</span>")
           else Rendered latexContent;
         solve_disabled := solve_disabled v |}
    else
      {| dataset_latex := dataset_latex v;
         result := InnerHTML "Your expression will appear here";
         solve_disabled := solve_disabled v |} in
  let hasExpression :=
    truthy (dataset_latex v) &&
    negb (String.eqb (trim (default "" (dataset_latex v))) "") in
  {| dataset_latex := dataset_latex v; result := result v;
     solve_disabled := negb hasExpression |}.

(** The operation type of the request: the value of [#topic] when the page
    has such an element, a guess from the markup otherwise. *)
Definition operationType (topicSelect : option string) (latex : string)
    : string :=
  match topicSelect with
  | Some value => value
  | None =>
      if includes "\mathcal{L}" latex || includes "laplace" latex
      then "laplace"
      else if includes "\sum" latex || includes "fourier" latex
      then "fourier"
      else if includes "\sin" latex || includes "\cos" latex ||
              includes "sin" latex || includes "cos" latex ||
              includes "t)" latex
      then "laplace"
      else "solve"
  end.

(** The listener of [click] on the solve button. *)
Definition solveClicked `{Host} (topicSelect : option string)
    (reply : Reply) (v : t) : t * option (SolveRequest.t * Shown) :=
  if negb (truthy (dataset_latex v)) then (v, None)
  else
    let latex := default "" (dataset_latex v) in
    let request :=
      {| SolveRequest.latex := latex;
         SolveRequest.operation_type := operationType topicSelect latex |} in
    ({| dataset_latex := dataset_latex v; result := result v;
        solve_disabled := false |},
     Some (request, displayed reply DrawMode.displaySolution)).

(** The markup on the page after a list of exports. *)
Definition run `{Host} (exports : list (option string)) (v : t) : t :=
  foldl (fun v e => exported e v) v exports.

End DrawModeView.

(** ** The sign-in page, the script inside the page (auth.html) *)

Module AuthPage.
Import JS.

(** [validatePassword(password)]: the checks are made for both forms. *)
Definition validatePassword (password : string) : list string :=
  AuthForm.validatePassword false password.

(** The messages are kept by the id of their element. *)
Definition showText (id message : string) (p : AuthForm.Page)
    : AuthForm.Page :=
  AuthForm.showError id message p.

(** [toggleAuthMode(mode)] *)
Definition toggleAuthMode (mode : string) (p : AuthForm.Page)
    : AuthForm.Page :=
  AuthForm.clearErrors
    {| AuthForm.isLogin := String.eqb mode "login";
       AuthForm.messages := AuthForm.messages p |}.

(** The checks of the submit listener. *)
Definition validate (p : AuthForm.Page) (f : AuthForm.Form)
    : AuthForm.Page * bool :=
  let p := AuthForm.clearErrors p in
  let login := AuthForm.isLogin p in
  let c1 := negb login && AuthForm.blank (AuthForm.name f) in
  let p := if c1 then showText "name-error" "Username is required" p else p in
  let c2 := negb login && negb (AuthForm.validateEmail (AuthForm.email f)) in
  let p := if c2
           then showText "email-error" "Please enter a valid email address" p
           else p in
  let c3 := login && AuthForm.blank (AuthForm.username f) in
  let p := if c3 then showText "username-error" "Username is required" p
           else p in
  let passwordErrors := validatePassword (AuthForm.password f) in
  let c4 := negb login && (0 <? length passwordErrors)%nat in
  let c5 := login && AuthForm.blank (AuthForm.password f) in
  let p := if c4
           then showText "password-error"
                  ("Password must contain " +:+ join ", " passwordErrors) p
           else if c5
           then showText "password-error" "Password is required" p
           else p in
  (p, c1 || c2 || c3 || (if c4 then true else c5)).

(** What the listener does with the answer of the server. *)
Definition answered `{Host} (now : Z) (p : AuthForm.Page)
    (reply : AuthForm.Reply) (b : Browser.t) : AuthForm.Page * Browser.t :=
  let login := AuthForm.isLogin p in
  match reply with
  | AuthForm.Response ok (Some data) =>
      if ok then
        if login then
          let b := Browser.setItem "authToken"
                     (AuthForm.String_of (AuthForm.token data)) b in
          let b := Browser.setItem "currentUser"
                     (AuthForm.String_of (AuthForm.user data)) b in
          let b := UserAuth.setCookie now "authToken" (AuthForm.token data) 7 b in
          (p, Browser.set_href "/" b)
        else
          (showText "general-error" "Registration successful! Please login."
             (toggleAuthMode "login" p), b)
      else
        (showText "general-error"
           (UserAuth.or_string (AuthForm.error data)
              (if login then "Login failed. Please check your credentials."
               else "Registration failed.")) p, b)
  | AuthForm.Response _ None | AuthForm.NetworkError =>
      (showText "general-error" "An error occurred. Please try again." p, b)
  end.

(** The submit listener. *)
Definition submit `{Host} (now : Z)
    (server : AuthForm.Request -> AuthForm.Reply) (p : AuthForm.Page)
    (f : AuthForm.Form) (b : Browser.t)
    : AuthForm.Page * Browser.t * option AuthForm.Request :=
  let '(p, hasError) := validate p f in
  if hasError then (p, b, None)
  else
    let req := AuthForm.request (AuthForm.isLogin p) f in
    let '(p, b) := answered now p (server req) b in
    (p, b, Some req).

End AuthPage.

(** ** The dashboard: the PDF of a calculation *)

Module Pdf.
Import JS JSString.

(** The patterns of [convertToPDF]. *)
Definition bold : regex :=
  literal (of_string "**") +> Group 1 (LazyStar dot) +>
  literal (of_string "**").
Definition italic : regex :=
  literal (of_string "*") +> Group 1 (LazyStar dot) +>
  literal (of_string "*").
Definition lineFeed : regex := Chr (isChar "010").

(** [processedExplanation] of [convertToPDF] *)
Definition processedExplanation (ai_explanation : option string) : string :=
  if truthy ai_explanation then
    let s := of_string (default "" ai_explanation) in
    (* '<strong>$1</strong>' *)
    let s := replace_all bold
      (fun _ g => of_string "<strong>" ++ group 1 g ++ of_string "</strong>")
      s in
    (* '<em>$1</em>' *)
    let s := replace_all italic
      (fun _ g => of_string "<em>" ++ group 1 g ++ of_string "</em>") s in
    (* '<br>' *)
    let s := replace_all lineFeed (fun _ _ => of_string "<br>") s in
    to_string s
  else "".

(** The class of the pattern "/[^a-z0-9]/gi" *)
Definition unsafe (c : ascii) : bool := negb (isAlnum c).

(** The name of the file [downloadServerGeneratedPDF] offers:
    [title.replace(/[^a-z0-9]/gi, '_').toLowerCase() + '.pdf'] *)
Definition downloadName (title : string) : string :=
  toLowerCase
    (to_string
       (replace_all (Chr unsafe) (fun _ _ => of_string "_") (of_string title)))
  +:+ ".pdf".

End Pdf.

(** ** The session script when a page is loaded *)

(** The variables of the session script as a page load leaves them before
    [initAuth] runs: [isAuthenticated = false], [currentUser = null],
    [authToken = null], and nothing assigned to [window.isAuthenticated] and
    [window.authToken] yet. *)
Definition pageLoad : UserAuth.Session :=
  {| UserAuth.isAuthenticated := false;
     UserAuth.currentUser := None;
     UserAuth.authToken := None;
     UserAuth.window_isAuthenticated := false;
     UserAuth.window_authToken := None |}.

(** ** A host for the examples

    Times are written and read as decimal numbers of milliseconds, strings
    are compared code unit by code unit, the letters a..z have upper-case
    forms, KaTeX rejects an expression whose braces do not balance, and a
    JSON text is [null] or one in braces, read as the object without
    members. The browser ignores a text for [document.cookie] that holds a
    control character other than the tab, and a cookie with any attribute
    beyond an expiry and the path [/]. *)

Module SampleHost.
Import JS.

Fixpoint digits (acc : Z) (s : chars) : option Z :=
  match s with
  | [] => Some acc
  | c :: s' =>
      if isDigit c then digits (10 * acc + (Z.of_N (code c) - 48)) s'
      else None
  end.

Definition readNumber (s : chars) : option Z :=
  match s with
  | [] => None
  | _ :: _ => digits 0 s
  end.

Definition writeNumber (t : Z) : string :=
  NilEmpty.string_of_uint (N.to_uint (Z.to_N t)).

Fixpoint lit (s : chars) : regex :=
  match s with
  | [] => Eps
  | c :: s' => Chr (isChar c) +> lit s'
  end.

Definition epoch : string := "expires=Thu, 01 Jan 1970 00:00:00 UTC".

Definition expires (attributes : string) : option Z :=
  if includes epoch attributes then Some 0
  else
    match search (lit (of_string "expires=") +> Group 1 (Plus isDigit))
            (of_string attributes) with
    | Some (_, found) => readNumber (group 1 found)
    | None => None
    end.

Definition count (x : ascii) (s : chars) : nat :=
  length (filter (fun c => c = x) s).

Definition unbalanced (expr : string) : bool :=
  negb (count "{" (of_string expr) =? count "}" (of_string expr))%nat.

Definition upper (c : ascii) : ascii :=
  if isLower c then ascii_of_N (code c - 32) else c.
Definition upperCase (s : string) : string :=
  to_string (map upper (of_string s)).

Definition compare (a b : string) : Z :=
  match String.compare a b with
  | Lt => -1
  | Eq => 0
  | Gt => 1
  end.

Definition braced (text : string) : bool :=
  match of_string text with
  | c :: rest => isChar "{" c && bool_decide (last rest = Some "}"%char)
  | [] => false
  end.

Definition parse (text : string) : option (option JSON.Value) :=
  if String.eqb text "null" then Some None
  else if braced text then Some (Some (JSON.Object ∅))
  else None.

Definition control (text : string) : option nat :=
  if forallb (fun c => negb (Browser.isControl c) || (code c =? 9)%N)
       (of_string text)
  then Some (length (of_string text))
  else None.

#[export] Instance host : Host := {|
  Date_getTime := fun s => readNumber (of_string s);
  toUTCString := writeNumber;
  toLocaleString := writeNumber;
  localeCompare := compare;
  toUpperCase := upperCase;
  katex_throws := unbalanced;
  JSON_parse := parse;
  cookie_expires := expires;
  cookie_control := control;
  cookie_taken := fun _ _ => false;
|}.

End SampleHost.

(** ** Sample pages and responses for the examples *)

Module Samples.
Import JS.

Definition now : Z := 5000.

(** A signed-in session, as [initAuth] leaves it. *)
Definition session : UserAuth.Session :=
  {| UserAuth.isAuthenticated := true;
     UserAuth.currentUser := Some (JSON.Object ∅);
     UserAuth.authToken := Some "tok";
     UserAuth.window_isAuthenticated := true;
     UserAuth.window_authToken := Some "tok" |}.

(** The calculator page showing a solution. *)
Definition page : UserAuth.Page :=
  {| UserAuth.window_currentMode := None;
     UserAuth.latex_input := None;
     UserAuth.drawing_latex_result := None;
     UserAuth.result_latex := Some "x^{2}=1";
     UserAuth.solution_container := Some "Solution x=1, x=-1";
     UserAuth.operation_type := Some "solve";
     UserAuth.explanation_container := None |}.

Definition textMode : TextMode.t := {| TextMode.currentLatex := "x^{2}=1" |}.

Definition roots : Solve.Response :=
  {| Solve.solution := Some (Solve.Many ["x=1"; "x=-1"]);
     Solve.ai_steps := None;
     Solve.error := None |}.

Definition noText : Solve.Response :=
  {| Solve.solution := Some (Solve.One "");
     Solve.ai_steps := None;
     Solve.error := None |}.

Definition unbalanced : Solve.Response :=
  {| Solve.solution := Some (Solve.One "\frac{1");
     Solve.ai_steps := None;
     Solve.error := None |}.

Definition emptyBrowser : Browser.t :=
  {| Browser.localStorage := ∅; Browser.cookies := []; Browser.href := "/auth" |}.

(** The sign-in page with one of its two forms, and an answer of the server
    that carries a token and a user. *)
Definition signInForm : AuthForm.Page :=
  {| AuthForm.isLogin := true; AuthForm.messages := ∅ |}.
Definition registerForm : AuthForm.Page :=
  {| AuthForm.isLogin := false; AuthForm.messages := ∅ |}.
Definition accepted : AuthForm.Reply :=
  AuthForm.Response true
    (Some {| AuthForm.token := Some "tok"; AuthForm.user := Some "{}";
             AuthForm.error := None |}).

(** The browser after a sign-in on the sample host. *)
Definition signedIn : Browser.t :=
  snd (AuthForm.answered (H := SampleHost.host) now signInForm accepted
         emptyBrowser).

(** Three saved calculations, as [GET /api/calculations] lists them. *)
Definition calculation (id type created : string) : Calculation :=
  {| id := id; title := None; operation_type := type;
     latex_input := "x"; solution := "1"; ai_explanation := None;
     created_at := created |}.
Definition calculations : list Calculation :=
  [ calculation "a" "solve" "200";
    calculation "b" "fourier" "100";
    calculation "c" "laplace" "300" ].

End Samples.

(** ** More sample pages *)

Module MoreSamples.
Import JS.

(** The browser after a sign-in, with a stored user that is no JSON text. *)
Definition corrupted : Browser.t :=
  Browser.setItem "currentUser" "oops" Samples.signedIn.

(** The browser after a sign-in, with the token gone from the storage. *)
Definition cookieOnly : Browser.t :=
  Browser.removeItem "authToken" Samples.signedIn.

(** An answer to the sign-in form whose user is [null], and the browser
    after it. *)
Definition noUser : AuthForm.Data :=
  {| AuthForm.token := Some "tok"; AuthForm.user := Some "null";
     AuthForm.error := None |}.
Definition signedInNoUser : Browser.t :=
  snd (AuthForm.answered (H := SampleHost.host) Samples.now
         Samples.signInForm (AuthForm.Response true (Some noUser))
         Samples.emptyBrowser).

(** A page that has the elements the first version of the session script
    reads. *)
Definition drawn : UserAuth.Page :=
  {| UserAuth.window_currentMode := None;
     UserAuth.latex_input := None;
     UserAuth.drawing_latex_result := Some "x^{2}=1";
     UserAuth.result_latex := None;
     UserAuth.solution_container := Some "Solution x=1, x=-1";
     UserAuth.operation_type := Some "solve";
     UserAuth.explanation_container := None |}.

End MoreSamples.

(** * Properties *)

(** ** Strings *)

Section StringFacts.
Import JS.

Lemma append_cons (x : ascii) (a b : string) :
  String x a +:+ b = String x (a +:+ b).
Proof. reflexivity. Qed.

Lemma append_empty_l (a : string) : "" +:+ a = a.
Proof. reflexivity. Qed.

Lemma append_assoc (a b c : string) : (a +:+ b) +:+ c = a +:+ (b +:+ c).
Proof.
  induction a as [|x a IH]; [reflexivity|].
  rewrite !append_cons. now rewrite IH.
Qed.

Lemma append_empty_r (a : string) : a +:+ "" = a.
Proof.
  induction a as [|x a IH]; [reflexivity|].
  rewrite append_cons. now rewrite IH.
Qed.

Lemma of_string_app (a b : string) :
  of_string (a +:+ b) = of_string a ++ of_string b.
Proof.
  induction a as [|x a IH]; [reflexivity|].
  rewrite append_cons. simpl. now rewrite <- IH.
Qed.

Lemma to_string_app (a b : chars) :
  to_string (a ++ b) = to_string a +:+ to_string b.
Proof.
  induction a as [|x a IH]; [reflexivity|].
  simpl. rewrite append_cons. now rewrite <- IH.
Qed.

Lemma to_of_string (s : string) : to_string (of_string s) = s.
Proof. apply string_of_list_ascii_of_string. Qed.

Lemma of_to_string (s : chars) : of_string (to_string s) = s.
Proof. apply list_ascii_of_string_of_list_ascii. Qed.

Lemma of_string_inj (a b : string) : of_string a = of_string b -> a = b.
Proof.
  intros E. rewrite <- (to_of_string a), <- (to_of_string b). now rewrite E.
Qed.

Lemma truthy_Some (s : string) : truthy (Some s) = true <-> s <> "".
Proof.
  unfold truthy. destruct (String.eqb_spec s ""); simpl; split; congruence.
Qed.

Lemma truthy_Some_false (s : string) : truthy (Some s) = false <-> s = "".
Proof.
  unfold truthy. destruct (String.eqb_spec s ""); simpl; split; congruence.
Qed.

(** Joining with a separator that ends in a prefix puts the prefix before
    every element but the first. *)
Lemma join_prefixed (sep pre : string) (parts : list string) :
  parts <> [] ->
  pre +:+ join (sep +:+ pre) parts = join sep (map (String.append pre) parts).
Proof.
  induction parts as [|x [|y rest] IH]; intros NE.
  - congruence.
  - reflexivity.
  - change (join (sep +:+ pre) (x :: y :: rest))
      with (x +:+ (sep +:+ pre) +:+ join (sep +:+ pre) (y :: rest)).
    change (join sep (map (String.append pre) (x :: y :: rest)))
      with ((pre +:+ x) +:+ sep +:+ join sep (map (String.append pre) (y :: rest))).
    rewrite <- IH by discriminate.
    now rewrite !append_assoc.
Qed.

End StringFacts.

(** ** Displaying the solution *)

Section Display.
Context `{Host}.
Import JS Solve.

(** What the result element holds for the markup [expr] of several
    solutions: the KaTeX rendering, or the markup in a [div] when KaTeX
    throws. *)
Definition several (expr : string) : Content :=
  if katex_throws expr then InnerHTML ("<div>" +:+ expr +:+ "</div>")
  else Rendered expr.

Lemma showResult_several (r : Response) (texts : list string) :
  hasError r = false ->
  solution r = Some (Many texts) ->
  (1 < length texts)%nat ->
  showResult r = Ok (several (solutionsHtml texts)).
Proof.
  intros E S L. unfold showResult. rewrite E, S.
  destruct (Nat.ltb_spec 1 (length texts)) as [_|]; [|lia].
  unfold several, katex_render, try_catch.
  now destruct (katex_throws (solutionsHtml texts)).
Qed.

Lemma solutionsHtml_every (texts : list string) :
  forallb (includes "=") texts = true ->
  solutionsHtml texts = join ", \; " texts.
Proof. intros E. unfold solutionsHtml. now rewrite E. Qed.

Lemma solutionsHtml_not_every (texts : list string) :
  texts <> [] ->
  forallb (includes "=") texts = false ->
  solutionsHtml texts = join ", \; " (map (String.append "x = ") texts).
Proof.
  intros NE E. unfold solutionsHtml. rewrite E.
  now rewrite <- join_prefixed.
Qed.

Lemma none_not_every (texts : list string) :
  texts <> [] ->
  forallb (fun t => negb (includes "=" t)) texts = true ->
  forallb (includes "=") texts = false.
Proof.
  destruct texts as [|t rest]; [congruence|]. simpl. intros _ E.
  apply andb_true_iff in E as [E _]. now destruct (includes "=" t).
Qed.

(** C2. For an error-free solve response whose solution is a list of more
    than one string, both display routines hand KaTeX the elements joined by
    [", \; "] with no prefix when every element contains [=], and with
    ["x = "] put before each element when not every element does (so also
    when none does); the result element holds the rendering of that markup,
    or the markup itself when KaTeX throws. *)
Theorem several_solutions_joined (s : UserAuth.Session) (saveAvailable : bool)
    (r : Response) (texts : list string) :
  hasError r = false ->
  solution r = Some (Many texts) ->
  (1 < length texts)%nat ->
  let markup :=
    if forallb (includes "=") texts then join ", \; " texts
    else join ", \; " (map (String.append "x = ") texts) in
  (forallb (fun t => negb (includes "=" t)) texts = true ->
   markup = join ", \; " (map (String.append "x = ") texts)) /\
  shown <$> TextMode.displaySolution s saveAvailable r = Ok (several markup) /\
  shown <$> DrawMode.displaySolution r = Ok (several markup).
Proof.
  intros E S L markup.
  assert (NE : texts <> []) by (destruct texts; simpl in L; [lia | discriminate]).
  assert (M : solutionsHtml texts = markup).
  { unfold markup. destruct (forallb (includes "=") texts) eqn:A.
    - now apply solutionsHtml_every.
    - now apply solutionsHtml_not_every. }
  split; [|split].
  - intros N. unfold markup. now rewrite (none_not_every texts NE N).
  - unfold TextMode.displaySolution.
    rewrite (showResult_several r texts E S L), M. reflexivity.
  - unfold DrawMode.displaySolution.
    rewrite (showResult_several r texts E S L), M. reflexivity.
Qed.

End Display.

Section DisplayFailure.
Context `{Host}.
Import JS Solve.

Lemma showResult_returns (r : Response) : exists c, showResult r = Ok c.
Proof.
  unfold showResult, katex_render, try_catch.
  destruct (hasError r); [eauto|].
  destruct (solution r) as [[text|texts]|]; [| |eauto].
  - destruct (katex_throws text); eauto.
  - destruct (1 <? length texts)%nat.
    + destruct (katex_throws (solutionsHtml texts)); eauto.
    + destruct (head texts) as [t|]; [destruct (katex_throws t)|]; eauto.
Qed.

Lemma showResult_single_raw (r : Response) (text : string) :
  hasError r = false ->
  solution r = Some (One text) \/ solution r = Some (Many [text]) ->
  katex_throws text = true ->
  showResult r = Ok (TextContent (Some text)).
Proof.
  intros E [S|S] K; unfold showResult; rewrite E, S; simpl;
    unfold katex_render, try_catch; now rewrite K.
Qed.

(** C9. When [katex.render] throws on the solution string, the string is
    still written into the result element (as its text for a single
    solution, inside a [div] for the joined markup of several), and neither
    display routine lets an exception out: each returns a display for every
    response. *)
Theorem katex_failure_shows_raw_text (s : UserAuth.Session)
    (saveAvailable : bool) (r : Response) :
  hasError r = false ->
  (forall text : string,
     solution r = Some (One text) \/ solution r = Some (Many [text]) ->
     katex_throws text = true ->
     shown <$> TextMode.displaySolution s saveAvailable r
       = Ok (TextContent (Some text)) /\
     shown <$> DrawMode.displaySolution r = Ok (TextContent (Some text))) /\
  (forall texts : list string,
     solution r = Some (Many texts) -> (1 < length texts)%nat ->
     katex_throws (solutionsHtml texts) = true ->
     shown <$> TextMode.displaySolution s saveAvailable r
       = Ok (InnerHTML ("<div>" +:+ solutionsHtml texts +:+ "</div>")) /\
     shown <$> DrawMode.displaySolution r
       = Ok (InnerHTML ("<div>" +:+ solutionsHtml texts +:+ "</div>"))) /\
  (exists d, TextMode.displaySolution s saveAvailable r = Ok d) /\
  (exists d, DrawMode.displaySolution r = Ok d).
Proof.
  intros E. split; [|split; [|split]].
  - intros text S K. split.
    + unfold TextMode.displaySolution.
      now rewrite (showResult_single_raw r text E S K).
    + unfold DrawMode.displaySolution.
      now rewrite (showResult_single_raw r text E S K).
  - intros texts S L K. split.
    + unfold TextMode.displaySolution.
      rewrite (showResult_several r texts E S L).
      unfold several. now rewrite K.
    + unfold DrawMode.displaySolution.
      rewrite (showResult_several r texts E S L).
      unfold several. now rewrite K.
  - destruct (showResult_returns r) as [c C].
    unfold TextMode.displaySolution. rewrite C. simpl. eauto.
  - destruct (showResult_returns r) as [c C].
    unfold DrawMode.displaySolution. rewrite C. simpl. eauto.
Qed.

End DisplayFailure.

(** ** Saving *)

Section Saving.
Context `{Host}.
Import JS Solve UserAuth.

Lemma or_string_truthy (x b : string) : x <> "" -> or_string (Some x) b = x.
Proof.
  intros T. unfold or_string, or_else.
  now rewrite (proj2 (truthy_Some x) T).
Qed.

Lemma or_string_falsy (a : option string) (b : string) :
  truthy a = false -> or_string a b = b.
Proof. intros T. unfold or_string, or_else. now rewrite T. Qed.

(** A request is sent only past the guard on the two texts. *)
Lemma posted_nonempty (s : Session) (page : Page) (answer : option string)
    (a : Args) (req : Request) (prompted : bool) :
  saveCurrentCalculation s page answer a = Posted req prompted ->
  req_latex_input req <> "" /\ req_solution req <> "".
Proof.
  unfold saveCurrentCalculation.
  destruct (negb (isAuthenticated s) || negb (truthy (authToken s)));
    [discriminate|].
  match goal with
  | |- context [match ?x with Some _ => _ | None => Thrown end] =>
      destruct x as [latexInput|]; [|discriminate]
  end.
  match goal with
  | |- context [if ?c then NothingToSave _ else _] => destruct c eqn:G
  end; [discriminate|].
  intros [= <- _]. simpl.
  apply orb_false_iff in G as [G1 G2].
  apply negb_false_iff in G1, G2.
  now rewrite <- !truthy_Some.
Qed.

Lemma auto_save_only_without_error (s : Session) (saveAvailable : bool)
    (r : Response) (d : Display) :
  TextMode.displaySolution s saveAvailable r = Ok d ->
  autoSave_scheduled d = true ->
  hasError r = false.
Proof.
  unfold TextMode.displaySolution.
  destruct (showResult r) as [c|]; simpl; [|discriminate].
  intros [= <-]. simpl. intros A.
  apply andb_true_iff in A as [_ A]. now apply negb_true_iff in A.
Qed.

Lemma draw_mode_sets_no_timer (r : Response) (d : Display) :
  DrawMode.displaySolution r = Ok d -> autoSave_scheduled d = false.
Proof.
  unfold DrawMode.displaySolution.
  destruct (showResult r) as [c|]; simpl; [|discriminate].
  now intros [= <-].
Qed.

(** The save started by the timer passes the markup of the mode and the
    solution of the response on, and only when both are there. *)
Lemma auto_save_request (now : Z) (tm : TextMode.t) (s : Session)
    (saveAvailable : bool) (page : Page) (answer : option string)
    (r : Response) (req : Request) (prompted : bool) :
  TextMode.autoSaveCalculation now tm s saveAvailable page answer r
    = Some (Posted req prompted) ->
  hasSolution r = true /\
  TextMode.currentLatex tm <> "" /\
  req_latex_input req = TextMode.currentLatex tm /\
  prompted = false.
Proof.
  unfold TextMode.autoSaveCalculation.
  destruct (negb (truthy (Some (TextMode.currentLatex tm)))) eqn:L;
    [discriminate|].
  destruct (hasSolution r) eqn:S; [|discriminate]. simpl.
  destruct saveAvailable; [|discriminate].
  apply negb_false_iff in L.
  unfold saveCurrentCalculation.
  cbn [manualLatexInput manualSolution manualOperationType manualExplanation
       manualTitle].
  destruct (negb (isAuthenticated s) || negb (truthy (authToken s)));
    [discriminate|].
  rewrite L.
  match goal with
  | |- context [if ?c then NothingToSave _ else _] => destruct c
  end; [discriminate|].
  intros [= <- <-]. cbn [req_latex_input].
  repeat split; try reflexivity.
  - now apply truthy_Some.
  - now rewrite andb_false_r.
Qed.

(** C1. A request [POST /api/calculations] leaves [saveCurrentCalculation]
    only with a non-empty markup and a non-empty solution text, and the
    display sets the auto-save timer only for a response whose [error] is
    absent or empty, the test the script makes of it (draw mode sets none at
    all). *)
Theorem saved_only_after_successful_solve :
  (forall (s : Session) (page : Page) (answer : option string) (a : Args)
          (req : Request) (prompted : bool),
     saveCurrentCalculation s page answer a = Posted req prompted ->
     req_latex_input req <> "" /\ req_solution req <> "") /\
  (forall (s : Session) (saveAvailable : bool) (r : Response) (d : Display),
     TextMode.displaySolution s saveAvailable r = Ok d ->
     autoSave_scheduled d = true ->
     hasError r = false) /\
  (forall (r : Response) (d : Display),
     DrawMode.displaySolution r = Ok d -> autoSave_scheduled d = false).
Proof.
  split; [|split].
  - apply posted_nonempty.
  - apply auto_save_only_without_error.
  - apply draw_mode_sets_no_timer.
Qed.

End Saving.

Section AutoSave.
Context `{Host}.
Import JS Solve UserAuth.

Lemma or_string_same (x : string) : or_string (Some x) x = x.
Proof.
  unfold or_string, or_else. now destruct (truthy (Some x)).
Qed.

Lemma solutionText_hasSolution (r : Response) :
  TextMode.solutionText r <> "" -> hasSolution r = true.
Proof.
  unfold TextMode.solutionText, hasSolution.
  destruct (solution r) as [[text|texts]|]; [|reflexivity|congruence].
  now rewrite truthy_Some.
Qed.

Lemma truthy_app_r (a b : string) : b <> "" -> truthy (Some (a +:+ b)) = true.
Proof.
  intros NE. apply truthy_Some. intros E. apply NE.
  destruct a; [exact E | discriminate].
Qed.

(** The manual path: the button calls the function with no argument, and a
    request it sends was preceded by the prompt. *)
Lemma manual_save_prompts (s : Session) (page : Page)
    (answer : option string) (req : Request) (prompted : bool) :
  saveButtonClicked s page answer = Posted req prompted ->
  prompted = true /\ req_title req = answer.
Proof.
  unfold saveButtonClicked, saveCurrentCalculation. cbn [noArgs manualLatexInput
    manualSolution manualOperationType manualExplanation manualTitle].
  destruct (negb (isAuthenticated s) || negb (truthy (authToken s)));
    [discriminate|].
  cbn [truthy].
  match goal with
  | |- context [match ?x with Some _ => _ | None => Thrown end] =>
      destruct x; [|discriminate]
  end.
  match goal with
  | |- context [if ?c then NothingToSave _ else _] => destruct c
  end; [discriminate|].
  intros [= <- <-]. now split.
Qed.

(** C5, as the code has it. In text mode an error-free answer with a
    non-empty solution, received in a signed-in session while the markup of
    the mode is non-empty, is sent to [POST /api/calculations] by the timer
    without a prompt, under the title made of the capitalized operation type,
    [" - "] and the local time; whatever the timer saves it saves without a
    prompt; and a request sent from the save button was preceded by the
    prompt, whose answer is the title. *)
Theorem text_mode_result_saved_without_prompt (now : Z) (tm : TextMode.t)
    (s : Session) (page : Page) (answer : option string) (r : Response) :
  isAuthenticated s = true ->
  truthy (authToken s) = true ->
  window_isAuthenticated s = true ->
  hasError r = false ->
  TextMode.currentLatex tm <> "" ->
  TextMode.solutionText r <> "" ->
  let operationType := default "solve" (operation_type page) in
  (exists d,
     Calculator.solved now Calculator.Text tm s true page answer r =
     Ok (d, Some (Posted
       {| req_latex_input := TextMode.currentLatex tm;
          req_operation_type := operationType;
          req_solution := TextMode.solutionText r;
          req_ai_explanation :=
            or_string (Some (TextMode.explanation r))
              (match explanation_container page with
               | Some text => trim text
               | None => ""
               end);
          req_title := Some (TextMode.capitalize operationType +:+ " - " +:+
                             toLocaleString now) |} false))) /\
  (forall saveAvailable r' req prompted,
     TextMode.autoSaveCalculation now tm s saveAvailable page answer r'
       = Some (Posted req prompted) -> prompted = false) /\
  (forall req prompted,
     saveButtonClicked s page answer = Posted req prompted ->
     prompted = true /\ req_title req = answer).
Proof.
  intros A T W E L S operationType. split; [|split].
  - unfold Calculator.solved, TextMode.displaySolution.
    destruct (showResult_returns r) as [c C]. rewrite C.
    cbn [bind autoSave_scheduled]. rewrite W, E. cbn [andb negb].
    eexists. do 3 f_equal.
    unfold TextMode.autoSaveCalculation.
    rewrite (proj2 (truthy_Some _) L), (solutionText_hasSolution r S).
    cbn [negb orb]. f_equal.
    unfold saveCurrentCalculation.
    cbn [manualLatexInput manualSolution manualOperationType manualExplanation
         manualTitle].
    rewrite A, T. cbn [negb orb].
    rewrite (proj2 (truthy_Some _) L).
    rewrite (or_string_truthy (TextMode.solutionText r)) by exact S.
    rewrite (proj2 (truthy_Some _) S). cbn [negb orb andb].
    rewrite andb_false_r.
    replace (match operation_type page with
             | Some value => value
             | None => "solve"
             end) with operationType by (unfold operationType; now destruct (operation_type page)).
    rewrite or_string_same, (proj2 (truthy_Some _) L). reflexivity.
  - intros saveAvailable r' req prompted P.
    now destruct (auto_save_request _ _ _ _ _ _ _ _ _ P) as (_ & _ & _ & ->).
  - apply manual_save_prompts.
Qed.

End AutoSave.

(** ** Examples on the sample host *)

Section SolveExamples.
Import JS Solve UserAuth.
Local Existing Instance SampleHost.host.

(** The response [{solution: ["x=1", "x=-1"]}] is shown as
    ["x=1, \; x=-1"] in both modes. *)
Lemma several_solutions_joined_example :
  shown <$> TextMode.displaySolution Samples.session true Samples.roots
    = Ok (Rendered "x=1, \; x=-1") /\
  shown <$> DrawMode.displaySolution Samples.roots
    = Ok (Rendered "x=1, \; x=-1").
Proof.
  destruct (several_solutions_joined Samples.session true Samples.roots
              ["x=1"; "x=-1"] eq_refl eq_refl) as (_ & T & D).
  - simpl. lia.
  - split; [exact T | exact D].
Defined.

(** The sample KaTeX throws on ["\frac{1"], which is then shown as text. *)
Lemma katex_failure_shows_raw_text_example :
  hasError Samples.unbalanced = false /\
  katex_throws "\frac{1" = true /\
  shown <$> TextMode.displaySolution Samples.session true Samples.unbalanced
    = Ok (TextContent (Some "\frac{1")) /\
  shown <$> DrawMode.displaySolution Samples.unbalanced
    = Ok (TextContent (Some "\frac{1")).
Proof.
  split; [reflexivity|]. split; [reflexivity|].
  destruct (katex_failure_shows_raw_text Samples.session true
              Samples.unbalanced eq_refl) as (S & _).
  apply (S "\frac{1"); [left|]; reflexivity.
Defined.

(** The request the timer sends for the sample answer. *)
Definition sampleRequest : Request :=
  {| req_latex_input := "x^{2}=1";
     req_operation_type := "solve";
     req_solution := "x=1, x=-1";
     req_ai_explanation := "";
     req_title := Some "Solve - 5000" |}.

Lemma saved_only_after_successful_solve_example :
  req_latex_input sampleRequest <> "" /\
  req_solution sampleRequest <> "" /\
  hasError Samples.roots = false.
Proof.
  destruct saved_only_after_successful_solve as (P & A & _).
  destruct (P Samples.session Samples.page None
              {| manualLatexInput := Some "x^{2}=1";
                 manualSolution := Some "x=1, x=-1";
                 manualOperationType := Some "solve";
                 manualExplanation := Some "";
                 manualTitle := Some "Solve - 5000" |}
              sampleRequest false eq_refl) as (L & S).
  split; [exact L|]. split; [exact S|].
  apply (A Samples.session true Samples.roots
           {| shown := Rendered "x=1, \; x=-1"; steps_shown := false;
              autoSave_scheduled := true |}); reflexivity.
Defined.

Lemma text_mode_result_saved_without_prompt_example :
  exists d,
    Calculator.solved Samples.now Calculator.Text Samples.textMode
      Samples.session true Samples.page None Samples.roots
    = Ok (d, Some (Posted sampleRequest false)).
Proof.
  destruct (text_mode_result_saved_without_prompt Samples.now Samples.textMode
              Samples.session Samples.page None Samples.roots)
    as ((d & D) & _); try reflexivity; try discriminate.
  exists d. exact D.
Defined.

(** An error-free answer received in the signed-in session and not saved:
    in text mode the answer whose solution is the empty string sets the
    timer, and the timer gives up at its guard on the two texts; in draw
    mode, the mode the calculator starts in, the sample answer sets no
    timer at all. *)
Lemma error_free_result_not_saved :
  isAuthenticated Samples.session = true /\
  window_isAuthenticated Samples.session = true /\
  hasError Samples.noText = false /\
  Calculator.solved Samples.now Calculator.Text Samples.textMode
    Samples.session true Samples.page None Samples.noText
  = Ok ({| shown := Rendered ""; steps_shown := false;
           autoSave_scheduled := true |}, None) /\
  hasError Samples.roots = false /\
  Calculator.initialMode = Calculator.Draw /\
  Calculator.solved Samples.now Calculator.Draw Samples.textMode
    Samples.session true Samples.page None Samples.roots
  = Ok ({| shown := Rendered "x=1, \; x=-1"; steps_shown := false;
           autoSave_scheduled := false |}, None).
Proof. repeat split. Qed.

End SolveExamples.

(** ** Signing in and out *)

Section Session.
Context `{Host}.
Import JS.

Lemma setCookie_text_days (now : Z) (name value : string) (days : Z) :
  days <> 0 ->
  UserAuth.setCookie_text now name (Some value) days =
  name +:+ "=" +:+ value +:+ "; expires=" +:+
  toUTCString (now + days * 86400000) +:+ "; path=/".
Proof.
  intros D. unfold UserAuth.setCookie_text.
  destruct (Z.eqb_spec days 0) as [|_]; [contradiction|].
  replace (now + days * 24 * 60 * 60 * 1000) with (now + days * 86400000)
    by lia.
  replace (or_else (Some value) (Some "")) with (Some value).
  - now rewrite !append_assoc.
  - unfold or_else. destruct (truthy (Some value)) eqn:T; [reflexivity|].
    apply truthy_Some_false in T. now subst.
Qed.

(** C6, as the code has it. A successful answer to the sign-in form stores
    the token under [authToken] and the user under [currentUser], assigns
    the cookie [authToken] with an expiry seven days ahead and [path=/], and
    opens the calculator. A successful answer to the registration form
    stores nothing: the page turns to the sign-in form with a notice. A
    failed answer to either form stores nothing and shows the [error] of the
    body, or ["Login failed"] / ["Registration failed"] when it has none;
    nothing is stored either when the body cannot be read or the request
    fails. *)
Theorem session_stored_on_sign_in_only (now : Z) (p : AuthForm.Page)
    (data : AuthForm.Data) (b : Browser.t) :
  (AuthForm.isLogin p = true ->
   forall tok, AuthForm.token data = Some tok ->
   let b' := snd (AuthForm.answered now p (AuthForm.Response true (Some data)) b) in
   Browser.getItem "authToken" b' = Some tok /\
   Browser.getItem "currentUser" b'
     = Some (AuthForm.String_of (AuthForm.user data)) /\
   Browser.cookies b' =
     Browser.assign_cookie now
       ("authToken=" +:+ tok +:+ "; expires=" +:+
        toUTCString (now + 7 * 86400000) +:+ "; path=/") (Browser.cookies b) /\
   Browser.href b' = "/") /\
  (AuthForm.isLogin p = false ->
   let '(p', b') :=
     AuthForm.answered now p (AuthForm.Response true (Some data)) b in
   b' = b /\ AuthForm.isLogin p' = true /\
   AuthForm.messages p' !! "username"
     = Some "Registration successful! Please login with your username.") /\
  (let '(p', b') :=
     AuthForm.answered now p (AuthForm.Response false (Some data)) b in
   b' = b /\
   AuthForm.messages p' !! (if AuthForm.isLogin p then "username" else "email")
     = Some (UserAuth.or_string (AuthForm.error data)
               (if AuthForm.isLogin p then "Login failed"
                else "Registration failed"))) /\
  (forall ok,
     snd (AuthForm.answered now p (AuthForm.Response ok None) b) = b /\
     snd (AuthForm.answered now p AuthForm.NetworkError b) = b).
Proof.
  split; [|split; [|split]]; [| | |now split].
  - intros L tok T. unfold AuthForm.answered. rewrite L, T. cbn [snd].
    split; [|split; [|split]].
    + unfold Browser.getItem, Browser.setItem, UserAuth.setCookie.
      cbn. rewrite lookup_insert_ne by discriminate.
      now rewrite lookup_insert_eq.
    + unfold Browser.getItem, Browser.setItem, UserAuth.setCookie.
      cbn. now rewrite lookup_insert_eq.
    + unfold UserAuth.setCookie. cbn.
      rewrite setCookie_text_days by discriminate. reflexivity.
    + reflexivity.
  - intros L. unfold AuthForm.answered. rewrite L.
    split; [reflexivity|]. split; [reflexivity|].
    cbn. now rewrite lookup_insert_eq.
  - unfold AuthForm.answered. split; [reflexivity|].
    cbn. now rewrite lookup_insert_eq.
Qed.

(** The dashboard script of the front end leaves the cookies as they are. *)
Lemma dashboard_logout_cookies (b : Browser.t) :
  Browser.cookies (Dashboard.logout b) = Browser.cookies b.
Proof. reflexivity. Qed.

Lemma lookup_remove (name : string) (jar : Browser.cookieJar) :
  Browser.lookup name (Browser.remove name jar) = None.
Proof.
  unfold Browser.lookup, Browser.remove.
  induction jar as [|[n v] jar IH]; [reflexivity|].
  rewrite filter_cons. cbn [fst]. destruct (decide (n <> name)) as [N|N].
  - cbn. destruct (String.eqb_spec n name); [contradiction | exact IH].
  - exact IH.
Qed.

Definition epochAttributes : string :=
  " expires=Thu, 01 Jan 1970 00:00:00 UTC; path=/;".

Lemma assign_epoch_cookie (now expiry : Z) (jar : Browser.cookieJar) :
  cookie_expires epochAttributes = Some expiry ->
  expiry <= now ->
  Browser.assign_cookie now
    "authToken=; expires=Thu, 01 Jan 1970 00:00:00 UTC; path=/;" jar
  = Browser.remove "authToken" jar.
Proof.
  intros E L. unfold Browser.assign_cookie.
  change (Browser.screened _)
    with (Some "authToken=; expires=Thu, 01 Jan 1970 00:00:00 UTC; path=/;").
  unfold Browser.assign_text, Browser.assign_pair. cbn.
  change (cookie_expires _) with (cookie_expires epochAttributes).
  rewrite E. now destruct (Z.leb_spec expiry now); [|lia].
Qed.

(** The session script and the dashboard script with sorting clear the
    session in full, given that the browser reads the date in 1970 as
    past. *)
Lemma logout_clears_session (now expiry : Z) (s : UserAuth.Session)
    (b : Browser.t) :
  cookie_expires epochAttributes = Some expiry ->
  expiry <= now ->
  forall b',
    b' = snd (UserAuth.logout now s b) \/
    b' = Browser.set_href "/auth" (DashboardSorted.logout now b) ->
  Browser.getItem "authToken" b' = None /\
  Browser.getItem "currentUser" b' = None /\
  Browser.lookup "authToken" (Browser.cookies b') = None /\
  Browser.href b' = "/auth".
Proof.
  intros E L b' [-> | ->];
    unfold UserAuth.logout, DashboardSorted.logout, Browser.getItem,
      Browser.set_href, Browser.set_document_cookie, Browser.set_cookies,
      Browser.removeItem, Browser.set_localStorage;
    cbn [snd Browser.localStorage Browser.cookies Browser.href];
    rewrite (assign_epoch_cookie now expiry _ E L), lookup_remove;
    (split; [|split; [|split]]); try reflexivity.
  all: try (rewrite lookup_delete_ne by discriminate).
  all: apply lookup_delete_eq.
Qed.

End Session.

Section SessionExamples.
Import JS.
Local Existing Instance SampleHost.host.

Lemma session_stored_on_sign_in_only_example :
  Browser.getItem "authToken" Samples.signedIn = Some "tok" /\
  Browser.getItem "currentUser" Samples.signedIn = Some "{}" /\
  Browser.cookies Samples.signedIn = [("authToken", "tok")] /\
  Browser.href Samples.signedIn = "/".
Proof.
  destruct (session_stored_on_sign_in_only Samples.now Samples.signInForm
              {| AuthForm.token := Some "tok"; AuthForm.user := Some "{}";
                 AuthForm.error := None |} Samples.emptyBrowser)
    as (S & _ & _ & _).
  destruct (S eq_refl "tok" eq_refl) as (A & B & C & D).
  split; [exact A|]. split; [exact B|]. split; [exact C | exact D].
Defined.

(** A successful answer to the registration form, even one that carries a
    token and a user, leaves the storage and the cookies empty. *)
Lemma registration_stores_no_session :
  let b' := snd (AuthForm.answered Samples.now Samples.registerForm
                   Samples.accepted Samples.emptyBrowser) in
  Browser.getItem "authToken" b' = None /\
  Browser.getItem "currentUser" b' = None /\
  UserAuth.getCookie "authToken" (Browser.document_cookie (Browser.cookies b'))
    = None.
Proof. cbv zeta. split; [|split]; reflexivity. Qed.

(** C7 fails on the dashboard script of the front end: after a sign-in,
    its [logout] empties the storage and opens the sign-in view, and the
    cookie [authToken] is still there. *)
Theorem dashboard_logout_keeps_cookie :
  let b' := Dashboard.logout Samples.signedIn in
  Browser.getItem "authToken" b' = None /\
  Browser.getItem "currentUser" b' = None /\
  Browser.href b' = "/login" /\
  UserAuth.getCookie "authToken" (Browser.document_cookie (Browser.cookies b'))
    = Some "tok".
Proof. cbv zeta. repeat split; reflexivity. Qed.

End SessionExamples.

(** ** Sorting the calculations *)

Section InsertionSort.
Import ArraySort.
Context {A : Type} (comparefn : A -> A -> option Z).

(** [a] may stand before [b]. *)
Definition before (a b : A) : Prop := SortCompare (comparefn a b) <= 0.

Lemma insert_Permutation (x : A) (l : list A) :
  insert comparefn x l ≡ₚ x :: l.
Proof.
  induction l as [|y l IH]; [reflexivity|]. simpl.
  destruct (SortCompare (comparefn x y) <=? 0); [reflexivity|].
  rewrite IH. apply perm_swap.
Qed.

Lemma sort_Permutation (l : list A) : sort comparefn l ≡ₚ l.
Proof.
  induction l as [|x l IH]; [reflexivity|].
  unfold sort in *. simpl. rewrite insert_Permutation. now rewrite IH.
Qed.

(** The comparator never puts each of two elements after the other. *)
Hypothesis total : forall a b, ~ before a b -> before b a.

Lemma insert_HdRel (a x : A) (l : list A) :
  before a x -> HdRel before a l -> HdRel before a (insert comparefn x l).
Proof.
  intros AX HL. destruct l as [|y l]; simpl.
  - now constructor.
  - destruct (SortCompare (comparefn x y) <=? 0); constructor;
      [assumption | now inversion HL].
Qed.

Lemma insert_Sorted (x : A) (l : list A) :
  Sorted before l -> Sorted before (insert comparefn x l).
Proof.
  induction 1 as [|y l S IH Hd]; simpl.
  - repeat constructor.
  - destruct (Z.leb_spec (SortCompare (comparefn x y)) 0) as [L|L].
    + repeat constructor; assumption.
    + constructor; [assumption|].
      apply insert_HdRel; [|assumption].
      apply total. unfold before. lia.
Qed.

Lemma sort_Sorted (l : list A) : Sorted before (sort comparefn l).
Proof.
  induction l as [|x l IH]; [constructor|].
  unfold sort in *. simpl. now apply insert_Sorted.
Qed.

End InsertionSort.

Lemma Sorted_among {A} (P : A -> Prop) (R R' : A -> A -> Prop) (l : list A) :
  (forall a b, P a -> P b -> R a b -> R' a b) ->
  Forall P l -> Sorted R l -> Sorted R' l.
Proof.
  intros Imp F S. induction S as [|x l S IH Hd]; [constructor|].
  apply Forall_cons in F as [Px F]. constructor; [now apply IH|].
  destruct Hd as [|y l' Rxy]; constructor.
  apply Forall_cons in F as [Py _]. now apply Imp.
Qed.

Section SortCalculations.
Context `{Host}.
Import ArraySort DashboardSorted.

(** A calculation whose [created_at] is a date, and the time of that date. *)
Definition dated (c : Calculation) : Prop :=
  is_Some (Date_getTime (created_at c)).
Definition timeOf (c : Calculation) : Z :=
  default 0 (Date_getTime (created_at c)).

(** The collation is a consistent comparator: of two strings one may stand
    before the other, and standing before is transitive. *)
Definition consistent (compare : string -> string -> Z) : Prop :=
  (forall x y, 0 < compare x y -> compare y x <= 0) /\
  (forall x y z, compare x y <= 0 -> compare y z <= 0 -> compare x z <= 0).

Lemma minus_dated (a b : Calculation) :
  dated a -> dated b ->
  SortCompare (minus (Date_getTime (created_at a)) (Date_getTime (created_at b)))
  = timeOf a - timeOf b.
Proof.
  unfold dated, timeOf. intros [ta ->] [tb ->]. reflexivity.
Qed.

Lemma date_order_total (c : Calculation -> Calculation -> option Z)
    (a b : Calculation) :
  (forall x y, c x y = minus (Date_getTime (created_at x))
                             (Date_getTime (created_at y))) ->
  ~ before c a b -> before c b a.
Proof.
  intros E. unfold before. rewrite !E.
  destruct (Date_getTime (created_at a)), (Date_getTime (created_at b));
    simpl; lia.
Qed.

Lemma sort_newestFirst (l : list Calculation) :
  Forall dated l ->
  StronglySorted (fun a b => timeOf b <= timeOf a) (sort newestFirst l).
Proof.
  intros F. apply Sorted_StronglySorted; [intros a b c; lia|].
  apply (Sorted_among dated (before newestFirst)).
  - intros a b Da Db. unfold before, newestFirst.
    rewrite (minus_dated b a Db Da). lia.
  - now rewrite sort_Permutation.
  - apply sort_Sorted. intros a b.
    apply (date_order_total (fun x y => newestFirst y x) b a); reflexivity.
Qed.

Lemma sort_oldestFirst (l : list Calculation) :
  Forall dated l ->
  StronglySorted (fun a b => timeOf a <= timeOf b) (sort oldestFirst l).
Proof.
  intros F. apply Sorted_StronglySorted; [intros a b c; lia|].
  apply (Sorted_among dated (before oldestFirst)).
  - intros a b Da Db. unfold before, oldestFirst.
    rewrite (minus_dated a b Da Db). lia.
  - now rewrite sort_Permutation.
  - apply sort_Sorted. intros a b.
    apply (date_order_total oldestFirst a b); reflexivity.
Qed.

Lemma sort_byType (l : list Calculation) :
  consistent localeCompare ->
  StronglySorted
    (fun a b => localeCompare (operation_type a) (operation_type b) <= 0)
    (sort byType l).
Proof.
  intros [T Tr]. apply Sorted_StronglySorted.
  - intros a b c. apply Tr.
  - apply (sort_Sorted byType). intros a b. unfold before, byType. simpl.
    intros N. apply T. lia.
Qed.

(** C8. [sortCalculations] returns a permutation of its input. For the
    option [date-desc] it is ordered from the newest to the oldest
    [created_at] and for [date-asc] from the oldest to the newest, the
    [created_at] of the calculations being dates; for [type] it is ordered
    by [operation_type] in the collation of the host, a consistent
    comparator; for any other option it is the input, in its order. *)
Theorem sortCalculations_sorted (calculations : list Calculation)
    (sortOption : string) :
  sortCalculations calculations sortOption ≡ₚ calculations /\
  (sortOption = "date-desc" -> Forall dated calculations ->
   StronglySorted (fun a b => timeOf b <= timeOf a)
     (sortCalculations calculations sortOption)) /\
  (sortOption = "date-asc" -> Forall dated calculations ->
   StronglySorted (fun a b => timeOf a <= timeOf b)
     (sortCalculations calculations sortOption)) /\
  (sortOption = "type" -> consistent localeCompare ->
   StronglySorted
     (fun a b => localeCompare (operation_type a) (operation_type b) <= 0)
     (sortCalculations calculations sortOption)) /\
  (sortOption <> "date-desc" -> sortOption <> "date-asc" ->
   sortOption <> "type" ->
   sortCalculations calculations sortOption = calculations).
Proof.
  unfold sortCalculations.
  split; [|split; [|split; [|split]]].
  - repeat match goal with
           | |- context [String.eqb ?a ?b] => destruct (String.eqb a b)
           end; try apply sort_Permutation; reflexivity.
  - intros -> F. now apply sort_newestFirst.
  - intros -> F. now apply sort_oldestFirst.
  - intros -> C. now apply sort_byType.
  - intros N1 N2 N3.
    apply String.eqb_neq in N1, N2, N3. now rewrite N1, N2, N3.
Qed.

End SortCalculations.

Section SortExamples.
Import DashboardSorted.
Local Existing Instance SampleHost.host.

Lemma sample_compare_consistent : consistent SampleHost.compare.
Proof.
  assert (L : forall x y, SampleHost.compare x y <= 0 <-> String.le x y).
  { intros x y. unfold SampleHost.compare, String.le, String.leb.
    destruct (String.compare x y); simpl; split; intros; try lia; tauto. }
  split.
  - intros x y. unfold SampleHost.compare.
    rewrite (String.compare_antisym y x).
    destruct (String.compare x y); simpl; lia.
  - intros x y z. rewrite !L. intros XY YZ. now transitivity y.
Qed.

Lemma sample_calculations_dated : Forall dated Samples.calculations.
Proof. repeat constructor; eexists; reflexivity. Qed.

(** The sample calculations, newest first, oldest first and by type. *)
Lemma sortCalculations_sorted_example :
  id <$> sortCalculations Samples.calculations "date-desc" = ["c"; "a"; "b"] /\
  id <$> sortCalculations Samples.calculations "date-asc" = ["b"; "a"; "c"] /\
  id <$> sortCalculations Samples.calculations "type" = ["b"; "c"; "a"] /\
  StronglySorted (fun a b => timeOf b <= timeOf a)
    (sortCalculations Samples.calculations "date-desc") /\
  StronglySorted (fun a b => timeOf a <= timeOf b)
    (sortCalculations Samples.calculations "date-asc") /\
  StronglySorted
    (fun a b => localeCompare (operation_type a) (operation_type b) <= 0)
    (sortCalculations Samples.calculations "type").
Proof.
  split; [reflexivity|]. split; [reflexivity|]. split; [reflexivity|].
  split; [|split].
  - apply (sortCalculations_sorted Samples.calculations "date-desc");
      [reflexivity | exact sample_calculations_dated].
  - apply (sortCalculations_sorted Samples.calculations "date-asc");
      [reflexivity | exact sample_calculations_dated].
  - apply (sortCalculations_sorted Samples.calculations "type");
      [reflexivity | exact sample_compare_consistent].
Defined.

End SortExamples.

(** ** Cookies *)

Section CookieText.
Import JS.

(** [c] does not occur in [s]. *)
Definition without (c : ascii) (s : chars) : bool :=
  forallb (fun x => negb (Ascii.eqb x c)) s.

Lemma without_app (c : ascii) (a b : chars) :
  without c (a ++ b) = without c a && without c b.
Proof. apply forallb_app. Qed.

Lemma split_chars_without (sep : ascii) (s : chars) :
  without sep s = true -> split_chars sep s = [s].
Proof.
  induction s as [|c s IH]; [reflexivity|]. simpl.
  intros W. apply andb_true_iff in W as [C W].
  apply negb_true_iff in C. rewrite C, (IH W). reflexivity.
Qed.

Lemma split_chars_app (sep : ascii) (a b : chars) :
  without sep a = true ->
  split_chars sep (a ++ sep :: b) = a :: split_chars sep b.
Proof.
  induction a as [|c a IH]; simpl.
  - intros _. now rewrite Ascii.eqb_refl.
  - intros W. apply andb_true_iff in W as [C W].
    apply negb_true_iff in C. rewrite C, (IH W). reflexivity.
Qed.

Lemma cut_at_app (sep : ascii) (a b : chars) :
  without sep a = true ->
  Browser.cut_at sep (a ++ sep :: b) = Some (a, b).
Proof.
  induction a as [|c a IH]; simpl.
  - intros _. now rewrite Ascii.eqb_refl.
  - intros W. apply andb_true_iff in W as [C W].
    apply negb_true_iff in C. rewrite C, (IH W). reflexivity.
Qed.

Lemma starts_with_app (a b : chars) : starts_with a (a ++ b) = true.
Proof.
  induction a as [|c a IH]; [reflexivity|]. simpl.
  now rewrite Ascii.eqb_refl.
Qed.

(** Among texts [n=v] the one that starts with [name=] is the one of
    [name], when neither name holds a [=]. *)
Lemma starts_with_name (name n v : chars) :
  without "=" name = true -> without "=" n = true ->
  starts_with (name ++ ["="%char]) (n ++ "="%char :: v) = true -> n = name.
Proof.
  unfold without.
  revert n. induction name as [|a name IH]; intros [|c n];
    cbn [starts_with app forallb].
  - reflexivity.
  - intros _ W. apply andb_true_iff in W as [C _].
    apply negb_true_iff in C. rewrite Ascii.eqb_sym, C. discriminate.
  - intros W _. apply andb_true_iff in W as [C _].
    apply negb_true_iff in C. rewrite C. discriminate.
  - intros Wa Wc S.
    apply andb_true_iff in Wa as [_ Wa]. apply andb_true_iff in Wc as [_ Wc].
    apply andb_true_iff in S as [E S]. apply Ascii.eqb_eq in E. subst c.
    f_equal. now apply IH.
Qed.

Lemma drop_while_spaces (lead s : chars) :
  forallb (isChar " ") lead = true ->
  drop_while (isChar " ") (lead ++ s) = drop_while (isChar " ") s.
Proof.
  induction lead as [|c lead IH]; [reflexivity|]. simpl.
  intros L. apply andb_true_iff in L as [C L]. now rewrite C, IH.
Qed.

Lemma drop_while_head (p : ascii -> bool) (c : ascii) (s : chars) :
  p c = false -> drop_while p (c :: s) = c :: s.
Proof. intros P. simpl. now rewrite P. Qed.

Lemma drop_while_id (p : ascii -> bool) (s : chars) :
  drop_while p s = s <-> match s with [] => True | c :: _ => p c = false end.
Proof.
  destruct s as [|c s]; simpl; [tauto|].
  destruct (p c) eqn:P; split; try congruence.
  intros E. exfalso.
  assert (L : forall t, (length (drop_while p t) <= length t)%nat).
  { induction t as [|x t IHt]; simpl; [lia|]. destruct (p x); simpl; lia. }
  specialize (L s). rewrite E in L. simpl in L. lia.
Qed.

End CookieText.

Section CookieJar.
Import JS.
#[local] Arguments Ascii.eqb : simpl never.
#[local] Arguments isChar : simpl never.
#[local] Arguments String.eqb : simpl never.

(** Spaces and tabs around [s] are none: trimming changes nothing. *)
Definition trimmed (s : chars) : bool :=
  bool_decide (Browser.trim_wsp s = s).

(** A cookie name the pair [name=value] can be read back from: not empty,
    free of [;] and [=], with no space or tab around it. A value: free of
    [;], with no space or tab around it. *)
Definition cookie_name (name : string) : bool :=
  truthy (Some name) && without ";" (of_string name) &&
  without "=" (of_string name) && trimmed (of_string name).
Definition cookie_value (value : string) : bool :=
  without ";" (of_string value) && trimmed (of_string value).

(** The cookies a store holds after any assignments. *)
Definition well_formed (jar : Browser.cookieJar) : bool :=
  forallb (fun c => cookie_name (fst c) && without ";" (of_string (snd c))) jar.

Lemma drop_while_length (p : ascii -> bool) (s : chars) :
  (length (drop_while p s) <= length s)%nat.
Proof.
  induction s as [|c s IH]; simpl; [lia|]. destruct (p c); simpl; lia.
Qed.

Lemma drop_while_same_length (p : ascii -> bool) (s : chars) :
  length (drop_while p s) = length s -> drop_while p s = s.
Proof.
  destruct s as [|c s]; [reflexivity|]. simpl.
  destruct (p c); [|reflexivity].
  intros E. pose proof (drop_while_length p s). simpl in E. lia.
Qed.

Lemma trimmed_head (s : chars) :
  trimmed s = true -> drop_while Browser.isWsp s = s.
Proof.
  unfold trimmed, Browser.trim_wsp. intros T.
  apply bool_decide_eq_true in T.
  apply drop_while_same_length.
  apply (f_equal length) in T. rewrite length_rev in T.
  pose proof (drop_while_length Browser.isWsp
                (rev (drop_while Browser.isWsp s))) as L1.
  rewrite length_rev in L1.
  pose proof (drop_while_length Browser.isWsp s). lia.
Qed.

Lemma trimmed_trim_wsp (s : chars) :
  trimmed s = true -> Browser.trim_wsp s = s.
Proof. unfold trimmed. apply bool_decide_eq_true. Qed.

Lemma cookie_name_parts (name : string) :
  cookie_name name = true ->
  name <> "" /\ without ";" (of_string name) = true /\
  without "=" (of_string name) = true /\ trimmed (of_string name) = true.
Proof.
  unfold cookie_name. rewrite !andb_true_iff, truthy_Some. tauto.
Qed.

(** A cookie name begins with a character that is not a space. *)
Lemma cookie_name_head (name : string) (rest : chars) :
  cookie_name name = true ->
  drop_while (isChar " ") (of_string name ++ rest) = of_string name ++ rest.
Proof.
  intros N. apply cookie_name_parts in N as (NE & _ & _ & T).
  apply trimmed_head, drop_while_id in T.
  destruct (of_string name) as [|c cs] eqn:E.
  - exfalso. apply NE, of_string_inj. now rewrite E.
  - cbn [app drop_while]. unfold Browser.isWsp in T.
    apply orb_false_iff in T as [T _]. now rewrite T.
Qed.

Definition pair_chars (c : string * string) : chars :=
  of_string (fst c) ++ "="%char :: of_string (snd c).

Lemma of_string_cookie_pair (c : string * string) :
  of_string (Browser.cookie_pair c) = pair_chars c.
Proof.
  unfold Browser.cookie_pair, pair_chars. now rewrite !of_string_app.
Qed.

Lemma of_string_nameEQ (name : string) :
  of_string (name +:+ "=") = of_string name ++ ["="%char].
Proof. now rewrite of_string_app. Qed.

Lemma document_cookie_cons (c c' : string * string)
    (rest : Browser.cookieJar) :
  of_string (Browser.document_cookie (c :: c' :: rest)) =
  pair_chars c ++ ";"%char :: " "%char ::
  of_string (Browser.document_cookie (c' :: rest)).
Proof.
  change (Browser.document_cookie (c :: c' :: rest))
    with (Browser.cookie_pair c +:+ "; " +:+
          Browser.document_cookie (c' :: rest)).
  now rewrite !of_string_app, of_string_cookie_pair.
Qed.

Lemma spaces_without (lead : chars) :
  forallb (isChar " ") lead = true -> without ";" lead = true.
Proof.
  unfold without. induction lead as [|c lead IH]; [reflexivity|]. simpl.
  intros L. apply andb_true_iff in L as [C L]. rewrite (IH L), andb_true_r.
  unfold isChar in C. apply Ascii.eqb_eq in C. now subst c.
Qed.

Lemma without_cons (sep c : ascii) (s : chars) :
  c <> sep -> without sep (c :: s) = without sep s.
Proof.
  intros NE. unfold without. cbn [forallb].
  apply Ascii.eqb_neq in NE. now rewrite NE.
Qed.

Lemma pair_without (c : string * string) (lead : chars) :
  cookie_name (fst c) = true ->
  without ";" (of_string (snd c)) = true ->
  forallb (isChar " ") lead = true ->
  without ";" (lead ++ pair_chars c) = true.
Proof.
  intros N V L. unfold pair_chars.
  apply cookie_name_parts in N as (_ & N & _ & _).
  rewrite !without_app, (spaces_without lead L), N.
  now rewrite without_cons, V by discriminate.
Qed.

(** What the loop of [getCookie] does with one piece [n=v] of the text. *)
Lemma getCookie_loop_pair (name : string) (c : string * string)
    (lead : chars) (pieces : list chars) :
  cookie_name name = true ->
  cookie_name (fst c) = true ->
  forallb (isChar " ") lead = true ->
  UserAuth.getCookie_loop (of_string (name +:+ "="))
    ((lead ++ pair_chars c) :: pieces) =
  if String.eqb (fst c) name then Some (snd c)
  else UserAuth.getCookie_loop (of_string (name +:+ "=")) pieces.
Proof.
  intros N C L. cbn [UserAuth.getCookie_loop].
  rewrite (drop_while_spaces lead _ L).
  unfold pair_chars. rewrite (cookie_name_head (fst c) _ C).
  rewrite of_string_nameEQ.
  destruct (String.eqb_spec (fst c) name) as [->|NE].
  - replace (of_string name ++ "="%char :: of_string (snd c))
      with ((of_string name ++ ["="%char]) ++ of_string (snd c))
      by now rewrite <- app_assoc.
    rewrite starts_with_app, drop_app_length.
    now rewrite to_of_string.
  - destruct (starts_with _ _) eqn:S; [|reflexivity].
    exfalso. apply NE, of_string_inj.
    apply cookie_name_parts in N as (_ & _ & N & _).
    apply cookie_name_parts in C as (_ & _ & C & _).
    exact (starts_with_name _ _ _ N C S).
Qed.

Lemma getCookie_loop_text (name : string) (jar : Browser.cookieJar)
    (lead : chars) :
  cookie_name name = true ->
  well_formed jar = true ->
  forallb (isChar " ") lead = true ->
  UserAuth.getCookie_loop (of_string (name +:+ "="))
    (split_chars ";" (lead ++ of_string (Browser.document_cookie jar)))
  = Browser.lookup name jar.
Proof.
  intros N. revert lead.
  induction jar as [|c [|c' rest] IH]; intros lead W L.
  - cbn [Browser.document_cookie map join String.concat of_string
         list_ascii_of_string].
    rewrite app_nil_r, (split_chars_without _ _ (spaces_without lead L)).
    cbn [UserAuth.getCookie_loop].
    rewrite <- (app_nil_r lead), (drop_while_spaces lead [] L).
    rewrite of_string_nameEQ. cbn [drop_while].
    now destruct (of_string name).
  - change (Browser.document_cookie [c]) with (Browser.cookie_pair c).
    rewrite of_string_cookie_pair.
    apply andb_true_iff in W as [W _]. apply andb_true_iff in W as [Wn Wv].
    rewrite split_chars_without.
    + rewrite (getCookie_loop_pair name c lead [] N Wn L).
      unfold Browser.lookup. cbn [find fst].
      now destruct (String.eqb (fst c) name).
    + now apply pair_without.
  - rewrite document_cookie_cons.
    pose proof W as W'.
    apply andb_true_iff in W as [W Wrest].
    apply andb_true_iff in W as [Wn Wv].
    rewrite app_assoc, split_chars_app.
    + rewrite (getCookie_loop_pair name c lead _ N Wn L).
      unfold Browser.lookup. cbn [find fst].
      destruct (String.eqb (fst c) name); [reflexivity|].
      apply (IH [" "%char] Wrest eq_refl).
    + now apply pair_without.
Qed.

(** Reading a cookie with [getCookie] is looking its name up in the store. *)
Lemma getCookie_lookup (name : string) (jar : Browser.cookieJar) :
  cookie_name name = true ->
  well_formed jar = true ->
  UserAuth.getCookie name (Browser.document_cookie jar)
  = Browser.lookup name jar.
Proof.
  intros N W. unfold UserAuth.getCookie.
  exact (getCookie_loop_text name jar [] N W eq_refl).
Qed.

End CookieJar.

Section CookieStore.
Context `{Host}.
Import JS.
#[local] Arguments Ascii.eqb : simpl never.
#[local] Arguments isChar : simpl never.
#[local] Arguments String.eqb : simpl never.

Lemma lookup_store (name value : string) (jar : Browser.cookieJar) :
  Browser.lookup name (Browser.store name value jar) = Some value.
Proof.
  unfold Browser.lookup.
  induction jar as [|[n v] jar IH]; cbn [Browser.store find fst].
  - now rewrite String.eqb_refl.
  - destruct (String.eqb n name) eqn:E; cbn [find fst].
    + now rewrite String.eqb_refl.
    + now rewrite E.
Qed.

Lemma store_well_formed (name value : string) (jar : Browser.cookieJar) :
  cookie_name name = true -> without ";" (of_string value) = true ->
  well_formed jar = true -> well_formed (Browser.store name value jar) = true.
Proof.
  intros N V. unfold well_formed.
  induction jar as [|[n v] jar IH]; cbn [Browser.store forallb fst snd].
  - intros _. now rewrite N, V.
  - intros W. apply andb_true_iff in W as [W1 W2].
    destruct (String.eqb n name); cbn [forallb fst snd].
    + now rewrite N, V, W2.
    + now rewrite W1, (IH W2).
Qed.

Lemma remove_well_formed (name : string) (jar : Browser.cookieJar) :
  well_formed jar = true -> well_formed (Browser.remove name jar) = true.
Proof.
  unfold well_formed, Browser.remove.
  induction jar as [|c jar IH]; [reflexivity|]. cbn [forallb].
  intros W. apply andb_true_iff in W as [W1 W2].
  rewrite filter_cons. destruct (decide (fst c <> name)); cbn [forallb].
  - now rewrite W1, (IH W2).
  - exact (IH W2).
Qed.

(** The attributes [setCookie] writes after the pair, and whether the
    browser keeps a cookie written with some attributes at time [now]. *)
Definition setCookie_attributes (now days : Z) : string :=
  if days =? 0 then " path=/"
  else " expires=" +:+ toUTCString (now + days * 24 * 60 * 60 * 1000) +:+
       "; path=/".
Definition kept (now : Z) (attributes : string) : bool :=
  match cookie_expires attributes with
  | Some expiry => negb (expiry <=? now)
  | None => true
  end.

Lemma setCookie_text_shape (now : Z) (name value : string) (days : Z) :
  of_string (UserAuth.setCookie_text now name (Some value) days) =
  (of_string name ++ "="%char :: of_string value) ++
  ";"%char :: of_string (setCookie_attributes now days).
Proof.
  unfold UserAuth.setCookie_text, setCookie_attributes.
  replace (or_else (Some value) (Some "")) with (Some value).
  - destruct (days =? 0); rewrite !of_string_app, <- !app_assoc; reflexivity.
  - unfold or_else. destruct (truthy (Some value)) eqn:T; [reflexivity|].
    apply truthy_Some_false in T. now subst.
Qed.

(** The text [setCookie] writes is one every browser takes as it stands:
    neither the name nor the value begins or ends with white space (some
    stores drop more than spaces and tabs there), the text holds no control
    character and no more than 4096 bytes, and the date in it holds no
    [;]. *)
Definition writable (now : Z) (name value : string) (days : Z) : bool :=
  let text := of_string (UserAuth.setCookie_text now name (Some value) days) in
  String.eqb (trim name) name && String.eqb (trim value) value &&
  Browser.printable text && (Browser.octets text <=? 4096)%N &&
  without ";" (of_string (toUTCString (now + days * 24 * 60 * 60 * 1000))).

Lemma octets_app (a b : chars) :
  Browser.octets (a ++ b) = (Browser.octets a + Browser.octets b)%N.
Proof.
  induction a as [|c a IH]; [reflexivity|].
  cbn [app Browser.octets foldr]. fold (Browser.octets (a ++ b)).
  fold (Browser.octets a). rewrite IH. lia.
Qed.

Lemma plain_attribute_expires (date : chars) :
  Browser.plain_attribute (of_string " expires=" ++ date) = true.
Proof.
  unfold Browser.plain_attribute.
  change (of_string " expires=" ++ date)
    with (of_string " expires" ++ "="%char :: date).
  rewrite (cut_at_app "=" (of_string " expires") date eq_refl). reflexivity.
Qed.

(** The attributes [setCookie] writes are an expiry and the path [/]. *)
Lemma setCookie_attributes_plain (now days : Z) :
  without ";" (of_string (toUTCString (now + days * 24 * 60 * 60 * 1000)))
  = true ->
  Browser.plain_attributes (of_string (setCookie_attributes now days)) = true.
Proof.
  intros D. unfold setCookie_attributes.
  destruct (days =? 0); [reflexivity|].
  rewrite !of_string_app. unfold Browser.plain_attributes.
  change (of_string "; path=/") with (";"%char :: of_string " path=/").
  rewrite app_assoc, split_chars_app.
  2:{ now rewrite without_app, D. }
  change (split_chars ";" (of_string " path=/")) with [of_string " path=/"].
  cbn [forallb]. now rewrite plain_attribute_expires.
Qed.

Lemma assign_setCookie (now : Z) (name value : string) (days : Z)
    (jar : Browser.cookieJar) :
  cookie_name name = true -> cookie_value value = true ->
  Browser.reserved name = false ->
  writable now name value days = true ->
  kept now (setCookie_attributes now days) = true ->
  Browser.assign_cookie now (UserAuth.setCookie_text now name (Some value) days)
    jar
  = Browser.store name value jar.
Proof.
  intros N V R Wr K. unfold writable in Wr. cbv zeta in Wr.
  apply andb_true_iff in Wr as [Wr D]. apply andb_true_iff in Wr as [Wr S].
  apply andb_true_iff in Wr as [_ P].
  unfold Browser.assign_cookie, Browser.screened. rewrite P.
  unfold Browser.assign_text, Browser.assign_pair.
  rewrite setCookie_text_shape in S |- *.
  apply cookie_name_parts in N as (NE & N1 & N2 & N3).
  apply andb_true_iff in V as [V1 V2].
  rewrite cut_at_app.
  2:{ rewrite without_app, N1. now rewrite without_cons, V1 by discriminate. }
  rewrite (cut_at_app "=" _ _ N2).
  rewrite (trimmed_trim_wsp _ N3), (trimmed_trim_wsp _ V2), !to_of_string.
  apply String.eqb_neq in NE. rewrite NE.
  assert (F : Browser.refused name value
                (of_string (setCookie_attributes now days)) = false).
  { unfold Browser.refused.
    rewrite (setCookie_attributes_plain now days D), R, orb_false_r.
    apply N.ltb_ge. apply N.leb_le in S.
    rewrite !octets_app in S.
    change (Browser.octets ("="%char :: of_string value))
      with (1 + Browser.octets (of_string value))%N in S.
    lia. }
  rewrite F.
  unfold kept in K. destruct (cookie_expires _) as [expiry|]; [|reflexivity].
  apply negb_true_iff in K. now rewrite K.
Qed.

(** A name that holds a [;] is never found, whatever the text of
    [document.cookie]: no piece of the text holds one. *)
Lemma split_chars_pieces (sep : ascii) (s : chars) :
  Forall (fun p => without sep p = true) (split_chars sep s).
Proof.
  induction s as [|c s IH]; [repeat constructor|]. cbn [split_chars].
  destruct (Ascii.eqb c sep) eqn:E.
  - constructor; [reflexivity | exact IH].
  - destruct (split_chars sep s) as [|p ps]; [repeat constructor|].
    + unfold without. cbn [forallb]. now rewrite E.
    + apply Forall_cons in IH as [P IH]. constructor; [|exact IH].
      unfold without in *. cbn [forallb]. now rewrite E, P.
Qed.

Lemma drop_while_without (p : ascii -> bool) (sep : ascii) (s : chars) :
  without sep s = true -> without sep (drop_while p s) = true.
Proof.
  unfold without. induction s as [|c s IH]; [reflexivity|].
  cbn [forallb drop_while]. intros W. destruct (p c); [|exact W].
  apply andb_true_iff in W as [_ W]. now apply IH.
Qed.

Lemma starts_with_without (sep : ascii) (pre s : chars) :
  starts_with pre s = true -> without sep s = true -> without sep pre = true.
Proof.
  unfold without. revert s. induction pre as [|a pre IH]; [reflexivity|].
  intros [|c s]; cbn [starts_with forallb]; [discriminate|].
  intros S W. apply andb_true_iff in S as [E S].
  apply andb_true_iff in W as [W1 W2].
  apply Ascii.eqb_eq in E. subst c. now rewrite W1, (IH s S W2).
Qed.

Lemma getCookie_semicolon (name text : string) :
  without ";" (of_string name) = false ->
  UserAuth.getCookie name text = None.
Proof.
  intros N. unfold UserAuth.getCookie.
  pose proof (split_chars_pieces ";" (of_string text)) as P.
  induction P as [|p ps W _ IH]; [reflexivity|].
  cbn [UserAuth.getCookie_loop].
  destruct (starts_with _ _) eqn:S; [|exact IH].
  exfalso.
  apply (starts_with_without ";") in S; [|now apply drop_while_without].
  rewrite of_string_nameEQ, without_app, N in S. discriminate.
Qed.

End CookieStore.

Section CookieInvariant.
Context `{Host}.
Import JS.
#[local] Arguments Ascii.eqb : simpl never.
#[local] Arguments isChar : simpl never.
#[local] Arguments String.eqb : simpl never.

Lemma cut_at_Some (sep : ascii) (s a b : chars) :
  Browser.cut_at sep s = Some (a, b) ->
  without sep a = true /\ s = a ++ sep :: b.
Proof.
  revert a. induction s as [|c s IH]; intros a; cbn [Browser.cut_at];
    [discriminate|].
  destruct (Ascii.eqb c sep) eqn:E.
  - intros [= <- <-]. apply Ascii.eqb_eq in E. now subst c.
  - destruct (Browser.cut_at sep s) as [[a' b']|]; [|discriminate].
    intros [= <- <-]. destruct (IH a' eq_refl) as [W ->].
    split; [|reflexivity]. unfold without in *. cbn [forallb].
    now rewrite E, W.
Qed.

Lemma cut_at_None (sep : ascii) (s : chars) :
  Browser.cut_at sep s = None -> without sep s = true.
Proof.
  unfold without. induction s as [|c s IH]; [reflexivity|].
  cbn [Browser.cut_at forallb]. destruct (Ascii.eqb c sep); [discriminate|].
  destruct (Browser.cut_at sep s) as [[a b]|]; [discriminate|].
  intros _. now rewrite IH.
Qed.

Lemma without_rev (sep : ascii) (s : chars) :
  without sep (rev s) = without sep s.
Proof.
  induction s as [|c s IH]; [reflexivity|]. cbn [rev].
  rewrite without_app, IH. unfold without. cbn [forallb].
  now rewrite andb_true_r, andb_comm.
Qed.

Lemma without_trim_wsp (sep : ascii) (s : chars) :
  without sep s = true -> without sep (Browser.trim_wsp s) = true.
Proof.
  intros W. unfold Browser.trim_wsp.
  rewrite without_rev. apply drop_while_without.
  rewrite without_rev. now apply drop_while_without.
Qed.

Lemma drop_while_stops (p : ascii -> bool) (s : chars) :
  match drop_while p s with [] => True | c :: _ => p c = false end.
Proof.
  induction s as [|c s IH]; [exact I|]. cbn [drop_while].
  destruct (p c) eqn:P; [exact IH | exact P].
Qed.

Lemma drop_while_idem (p : ascii -> bool) (s : chars) :
  drop_while p (drop_while p s) = drop_while p s.
Proof. apply drop_while_id, drop_while_stops. Qed.

Lemma drop_while_suffix (p : ascii -> bool) (s : chars) :
  exists pre, s = pre ++ drop_while p s.
Proof.
  induction s as [|c s [pre IH]]; [now exists []|]. cbn [drop_while].
  destruct (p c); [|now exists []].
  exists (c :: pre). cbn [app]. now rewrite <- IH.
Qed.

(** Trimming leaves nothing to trim. *)
Lemma trim_wsp_trimmed (s : chars) : trimmed (Browser.trim_wsp s) = true.
Proof.
  unfold trimmed. apply bool_decide_eq_true.
  unfold Browser.trim_wsp at 1.
  set (x := drop_while Browser.isWsp s).
  assert (T : Browser.trim_wsp s = rev (drop_while Browser.isWsp (rev x)))
    by reflexivity.
  rewrite T.
  set (u := drop_while Browser.isWsp (rev x)).
  assert (D : drop_while Browser.isWsp (rev u) = rev u).
  { apply drop_while_id.
    destruct (drop_while_suffix Browser.isWsp (rev x)) as [pre E].
    fold u in E. apply (f_equal (@rev ascii)) in E.
    rewrite rev_involutive, rev_app_distr in E.
    destruct (rev u) as [|c t]; [exact I|].
    pose proof (drop_while_stops Browser.isWsp s) as S. fold x in S.
    rewrite E in S. exact S. }
  rewrite D, rev_involutive. unfold u. now rewrite drop_while_idem.
Qed.

Lemma assign_text_well_formed (now : Z) (text : string)
    (jar : Browser.cookieJar) :
  well_formed jar = true ->
  well_formed (Browser.assign_text now text jar) = true.
Proof.
  intros W. unfold Browser.assign_text.
  set (parts := match Browser.cut_at ";" (of_string text) with
                | Some (name_value, attributes) => (name_value, attributes)
                | None => (of_string text, [])
                end).
  assert (P : without ";" (fst parts) = true).
  { unfold parts. destruct (Browser.cut_at ";" (of_string text))
      as [[a b]|] eqn:E.
    - now destruct (cut_at_Some _ _ _ _ E).
    - now apply cut_at_None. }
  destruct parts as [name_value attributes]. cbn [fst] in P.
  destruct (Browser.cut_at "=" name_value) as [[n v]|] eqn:E; [|exact W].
  destruct (cut_at_Some _ _ _ _ E) as [N ->].
  rewrite without_app in P. apply andb_true_iff in P as [Pn Pv].
  rewrite without_cons in Pv by discriminate. unfold Browser.assign_pair.
  destruct (String.eqb_spec (to_string (Browser.trim_wsp n)) "") as [|NE];
    [exact W|].
  assert (C : cookie_name (to_string (Browser.trim_wsp n)) = true).
  { unfold cookie_name. rewrite of_to_string.
    rewrite (proj2 (truthy_Some _) NE), trim_wsp_trimmed.
    now rewrite !without_trim_wsp. }
  assert (V : without ";" (of_string (to_string (Browser.trim_wsp v))) = true).
  { rewrite of_to_string. now apply without_trim_wsp. }
  destruct (Browser.refused _ _ _); [exact W|].
  destruct (cookie_expires _) as [expiry|].
  - destruct (expiry <=? now).
    + now apply remove_well_formed.
    + now apply store_well_formed.
  - now apply store_well_formed.
Qed.

(** Every assignment to [document.cookie] keeps the store well formed, so
    every store reached from the empty one is. *)
Lemma assign_cookie_well_formed (now : Z) (text : string)
    (jar : Browser.cookieJar) :
  well_formed jar = true ->
  well_formed (Browser.assign_cookie now text jar) = true.
Proof.
  intros W. unfold Browser.assign_cookie.
  destruct (Browser.screened text); [|exact W].
  now apply assign_text_well_formed.
Qed.

(** C10, as the code has it. For a cookie name that is not empty, holds no
    [;] and no [=] and has no space or tab around it, and a value that holds
    no [;] and has no space or tab around it, [getCookie(name)] returns the
    value after [setCookie(name, value, days)], provided that the name does
    not begin with [__Secure-], [__Host-] or [__Http-], that neither name
    nor value has white space of another kind at its ends, that the text
    written holds no control character and no more than 4096 bytes (and its
    date no [;]), and that the browser does not read the expiry written for
    [days] as past; and [getCookie] returns null for such a name when the
    store has no cookie of that name. *)
Theorem getCookie_after_setCookie (now : Z) (name value : string) (days : Z)
    (b : Browser.t) :
  cookie_name name = true ->
  cookie_value value = true ->
  well_formed (Browser.cookies b) = true ->
  (Browser.reserved name = false ->
   writable now name value days = true ->
   kept now (setCookie_attributes now days) = true ->
   UserAuth.getCookie name
     (Browser.document_cookie
        (Browser.cookies (UserAuth.setCookie now name (Some value) days b)))
   = Some value) /\
  (Browser.lookup name (Browser.cookies b) = None ->
   UserAuth.getCookie name (Browser.document_cookie (Browser.cookies b))
   = None).
Proof.
  intros N V W. split.
  - intros R Wr K. unfold UserAuth.setCookie, Browser.set_document_cookie,
      Browser.set_cookies. cbn [Browser.cookies].
    rewrite (assign_setCookie now name value days _ N V R Wr K).
    rewrite getCookie_lookup.
    + apply lookup_store.
    + exact N.
    + apply store_well_formed; [exact N | | exact W].
      now apply andb_true_iff in V as [V _].
  - intros L. now rewrite getCookie_lookup.
Qed.

End CookieInvariant.

Section CookieExamples.
Import JS.
Local Existing Instance SampleHost.host.

Lemma getCookie_after_setCookie_example :
  UserAuth.getCookie "authToken"
    (Browser.document_cookie
       (Browser.cookies
          (UserAuth.setCookie Samples.now "authToken" (Some "tok") 7
             Samples.emptyBrowser)))
  = Some "tok" /\
  UserAuth.getCookie "authToken"
    (Browser.document_cookie (Browser.cookies Samples.emptyBrowser)) = None.
Proof.
  destruct (getCookie_after_setCookie Samples.now "authToken" "tok" 7
              Samples.emptyBrowser eq_refl eq_refl eq_refl) as [S N].
  split; [exact (S eq_refl eq_refl eq_refl) | exact (N eq_refl)].
Defined.

(** The round trip fails for a name that holds a [;], for a value that ends
    in a space, and for a number of days that lies in the past. *)
Lemma cookie_round_trip_fails :
  UserAuth.getCookie "a;b"
    (Browser.document_cookie
       (Browser.cookies
          (UserAuth.setCookie Samples.now "a;b" (Some "v") 7
             Samples.emptyBrowser)))
  = None /\
  UserAuth.getCookie "x"
    (Browser.document_cookie
       (Browser.cookies
          (UserAuth.setCookie Samples.now "x" (Some "v ") 7
             Samples.emptyBrowser)))
  = Some "v" /\
  UserAuth.getCookie "x"
    (Browser.document_cookie
       (Browser.cookies
          (UserAuth.setCookie Samples.now "x" (Some "v") (-1)
             Samples.emptyBrowser)))
  = None.
Proof. split; [|split]; reflexivity. Qed.

(** The browser of the examples ignores a text with a line feed and a name
    kept for cookies with the attribute [Secure]: nothing is read back. *)
Lemma cookie_ignored :
  UserAuth.getCookie "x"
    (Browser.document_cookie
       (Browser.cookies
          (UserAuth.setCookie Samples.now "x" (Some ("v" +:+ newline +:+ "w"))
             7 Samples.emptyBrowser)))
  = None /\
  UserAuth.getCookie "__Secure-x"
    (Browser.document_cookie
       (Browser.cookies
          (UserAuth.setCookie Samples.now "__Secure-x" (Some "v") 7
             Samples.emptyBrowser)))
  = None.
Proof. split; reflexivity. Qed.

End CookieExamples.

(** ** The text-mode converter *)

Section Converter.
Import JS TextMode.

(** On markup that the domain pattern does not match, the converter returns
    the rewritten input for every operation type. *)
Lemma processInputToLatex_plain (operationTypeSelect : option string)
    (input : string) (latex : chars) :
  rewriteSteps (of_string input) = latex ->
  domainClause latex = latex ->
  processInputToLatex operationTypeSelect input = to_string latex.
Proof.
  intros R D. unfold processInputToLatex. rewrite R.
  destruct (String.eqb _ "fourier"); [now rewrite D | reflexivity].
Qed.

(** The input [t^2e^(-3t)] of the specification: both exponents end up in
    braces and a space stands before [e] (and one inside the exponent). *)
Lemma converter_example (operationTypeSelect : option string) :
  processInputToLatex operationTypeSelect "t^2e^(-3t)" = "t^{2} e^{-3 t}" /\
  processInputToLatex operationTypeSelect "t^2*e^(-3t)" = "t^{2} e^{-3 t}".
Proof.
  split;
    apply (processInputToLatex_plain _ _ (of_string "t^{2} e^{-3 t}"));
    reflexivity.
Qed.

(** C3 fails on a product of three factors: the pattern of the first step
    takes the right operand of a [*] into its match, so the [*] that
    follows it is passed over, and the converter returns [a*b*c] as [ab*c],
    [2*x*y] as [2 x*y]. *)
Theorem chained_times_kept (operationTypeSelect : option string) :
  processInputToLatex operationTypeSelect "a*b*c" = "ab*c" /\
  processInputToLatex operationTypeSelect "2*x*y" = "2 x*y".
Proof.
  split.
  - apply (processInputToLatex_plain _ _ (of_string "ab*c")); reflexivity.
  - apply (processInputToLatex_plain _ _ (of_string "2 x*y")); reflexivity.
Qed.

(** The Fourier input [x^2[-3.14,3.14]] of the specification, and the same
    input under another operation type. *)
Lemma fourier_example :
  processInputToLatex (Some "fourier") "x^2[-3.14,3.14]"
    = "x^{2} \text{ on } [-3.14,3.14]" /\
  processInputToLatex (Some "solve") "x^2[-3.14,3.14]" = "x^{2}[-3.14,3.14]" /\
  processInputToLatex None "x^2[-3.14,3.14]" = "x^{2}[-3.14,3.14]" /\
  processInputToLatex (Some "fourier") "x^2" = "x^{2}".
Proof. repeat split. Qed.

(** An input of two lines. *)
Definition twoLines : string := "a" +:+ newline +:+ "x[1,2]".

(** C4 fails on an input of more than one line: the rewriting steps leave
    [twoLines] as it is, it ends in [[1,2]], and the Fourier branch returns
    its last line only; the line before is gone from the result. *)
Theorem fourier_drops_lines :
  to_string (rewriteSteps (of_string twoLines)) = twoLines /\
  processInputToLatex (Some "fourier") twoLines = "x \text{ on } [1,2]" /\
  processInputToLatex (Some "fourier") twoLines
    <> "a" +:+ newline +:+ "x \text{ on } [1,2]".
Proof. split; [|split]; [reflexivity | reflexivity | discriminate]. Qed.

End Converter.

(** ** The matcher *)

Section Matcher.
Import JS.
Context {R : Type}.
Implicit Types (k : chars -> captures -> option R).

Lemma star_nil p caps k : rmatch (Star p) [] caps k = k [] caps.
Proof. reflexivity. Qed.

Lemma star_cons p c s caps k :
  rmatch (Star p) (c :: s) caps k =
  if p c then orelse (rmatch (Star p) s caps k) (k (c :: s) caps)
  else k (c :: s) caps.
Proof. reflexivity. Qed.

(** The greedy repetition fails when what follows it fails at every point
    of the input. *)
Lemma star_fails p s caps k :
  (forall t, t `suffix_of` s -> k t caps = None) ->
  rmatch (Star p) s caps k = None.
Proof.
  induction s as [|c s IH]; intros F.
  - rewrite star_nil. now apply F.
  - rewrite star_cons, IH.
    + cbn [orelse]. rewrite (F (c :: s)) by reflexivity. now destruct (p c).
    + intros t T. apply F. now apply suffix_cons_r.
Qed.

(** It takes a character it may take when the rest of the input gives no
    match, and it prefers a match further on. *)
Lemma star_here p c s caps k :
  p c = true -> rmatch (Star p) s caps k = None ->
  rmatch (Star p) (c :: s) caps k = k (c :: s) caps.
Proof. intros P N. now rewrite star_cons, P, N. Qed.

Lemma star_further p x s caps k res :
  forallb p x = true -> rmatch (Star p) s caps k = Some res ->
  rmatch (Star p) (x ++ s) caps k = Some res.
Proof.
  intros X S. induction x as [|c x IH]; [exact S|].
  cbn [forallb] in X. apply andb_true_iff in X as [P X].
  cbn [app]. now rewrite star_cons, P, (IH X).
Qed.

(** The repetition of a class stops before [stop], a character of the
    class, when no later point of the input begins with what must follow:
    [x] is what it takes. *)
Lemma star_stops_before p (stop : ascii) x s caps k res :
  forallb p x = true -> p stop = true ->
  (forall t, t `suffix_of` s -> k t caps = None) ->
  k (stop :: s) caps = Some res ->
  rmatch (Star p) (x ++ stop :: s) caps k = Some res.
Proof.
  intros X P F K. apply star_further; [exact X|].
  rewrite star_here; [exact K | exact P | now apply star_fails].
Qed.

End Matcher.

Section DomainSuffix.
Import JS TextMode.
#[local] Arguments Ascii.eqb : simpl never.
#[local] Arguments isChar : simpl never.

Lemma rmatch_seq {R} r1 r2 s caps (k : chars -> captures -> option R) :
  rmatch (r1 +> r2) s caps k =
  rmatch r1 s caps (fun s1 caps1 => rmatch r2 s1 caps1 k).
Proof. reflexivity. Qed.

Lemma rmatch_group {R} n r s caps (k : chars -> captures -> option R) :
  rmatch (Group n r) s caps k =
  rmatch r s caps
    (fun s' caps' => k s' ((n, take (length s - length s') s) :: caps')).
Proof. reflexivity. Qed.

Lemma rmatch_chr {R} p c s caps (k : chars -> captures -> option R) :
  rmatch (Chr p) (c :: s) caps k = if p c then k s caps else None.
Proof. reflexivity. Qed.

Lemma take_consumed (x y : chars) :
  take (length (x ++ y) - length y) (x ++ y) = x.
Proof.
  rewrite length_app. replace (length x + length y - length y)%nat
    with (length x) by lia.
  now rewrite take_app_length.
Qed.

(** A literal character cannot match inside a text that does not hold it. *)
Lemma chr_fails_inside {R} (x : ascii) r (s t : chars) caps
    (k : chars -> captures -> option R) :
  without x s = true -> t `suffix_of` s ->
  rmatch (Chr (isChar x) +> r) t caps k = None.
Proof.
  intros W [pre ->]. rewrite rmatch_seq.
  destruct t as [|c t]; [reflexivity|]. rewrite rmatch_chr.
  rewrite without_app in W. apply andb_true_iff in W as [_ W].
  unfold without in W. cbn [forallb] in W.
  apply andb_true_iff in W as [W _]. apply negb_true_iff in W.
  unfold isChar. now rewrite Ascii.eqb_sym, W.
Qed.

(** The markup [e[a,b]] on one line, with bounds that hold no [[] and an
    upper bound that holds no [,]: the pattern matches it from its start
    and its three groups are [e], [a] and [b]. *)
Definition oneLine (s : chars) : bool := forallb dot s.

Lemma exec_domainSuffix (e a b : chars) :
  oneLine e = true -> oneLine a = true -> oneLine b = true ->
  without "[" a = true -> without "[" b = true -> without "," b = true ->
  let latex := e ++ "["%char :: a ++ ","%char :: b ++ ["]"%char] in
  exec domainSuffix latex = Some (latex, [(3, b); (2, a); (1, e)]%nat).
Proof.
  intros Le La Lb Wa Wb Wc latex. unfold exec, domainSuffix.
  rewrite rmatch_seq, rmatch_group.
  apply star_stops_before; [exact Le | reflexivity | |].
  { intros t T. apply (chr_fails_inside "[" _ _ t _ _) with (2 := T).
    rewrite without_app, Wa. rewrite without_cons by discriminate.
    rewrite without_app, Wb. reflexivity. }
  rewrite rmatch_seq, rmatch_chr. cbn [isChar]. rewrite Ascii.eqb_refl.
  unfold latex at 1 2. rewrite take_consumed.
  rewrite rmatch_seq, rmatch_group.
  apply star_stops_before; [exact La | reflexivity | |].
  { intros t T. apply (chr_fails_inside "," _ _ t _ _) with (2 := T).
    rewrite without_app, Wc. reflexivity. }
  rewrite rmatch_seq, rmatch_chr. cbn [isChar]. rewrite Ascii.eqb_refl.
  rewrite take_consumed.
  rewrite rmatch_seq, rmatch_group.
  apply star_further; [exact Lb|].
  rewrite star_here; [|reflexivity|reflexivity].
  rewrite rmatch_seq, rmatch_chr. cbn [isChar]. rewrite Ascii.eqb_refl.
  cbn [rmatch]. rewrite take_consumed.
  now rewrite Nat.sub_0_r, firstn_all.
Qed.

(** The Fourier branch puts the words between the expression and its
    domain. *)
Lemma domainClause_one_line (e a b : chars) :
  oneLine e = true -> oneLine a = true -> oneLine b = true ->
  without "[" a = true -> without "[" b = true -> without "," b = true ->
  domainClause (e ++ "["%char :: a ++ ","%char :: b ++ ["]"%char]) =
  e ++ of_string " \text{ on } [" ++ a ++ ","%char :: b ++ ["]"%char].
Proof.
  intros Le La Lb Wa Wb Wc. unfold domainClause.
  assert (S : search domainSuffix
                (e ++ "["%char :: a ++ ","%char :: b ++ ["]"%char])
              = Some (e ++ "["%char :: a ++ ","%char :: b ++ ["]"%char],
                      [(3, b); (2, a); (1, e)]%nat)).
  { pose proof (exec_domainSuffix e a b Le La Lb Wa Wb Wc) as E.
    cbv zeta in E. destruct e; cbn [search app] in *; now rewrite E. }
  rewrite S. cbn [group Nat.eqb]. reflexivity.
Qed.

End DomainSuffix.

(** *** What a match consists of *)

Section MatcherSound.
Import JS.

(** [matches r x rest]: the text [x], followed by [rest] up to the end of
    the input, is in the language of [r]. *)
Inductive matches : regex -> chars -> chars -> Prop :=
| matches_eps rest : matches Eps [] rest
| matches_chr p c rest : p c = true -> matches (Chr p) [c] rest
| matches_seq r1 r2 x y rest :
    matches r1 x (y ++ rest) -> matches r2 y rest ->
    matches (r1 +> r2) (x ++ y) rest
| matches_alt_l r1 r2 x rest : matches r1 x rest -> matches (Alt r1 r2) x rest
| matches_alt_r r1 r2 x rest : matches r2 x rest -> matches (Alt r1 r2) x rest
| matches_star p x rest : forallb p x = true -> matches (Star p) x rest
| matches_lazy p x rest : forallb p x = true -> matches (LazyStar p) x rest
| matches_group n r x rest : matches r x rest -> matches (Group n r) x rest
| matches_eoi : matches Eoi [] [].

(** Whatever the matcher returns comes from its continuation, called on the
    rest of the input after a text of the language. *)
Lemma rmatch_sound {R} (r : regex) :
  forall (s : chars) (caps : captures) (k : chars -> captures -> option R)
         (res : R),
    rmatch r s caps k = Some res ->
    exists x s' caps',
      s = x ++ s' /\ matches r x s' /\ k s' caps' = Some res.
Proof.
  induction r as [|p|r1 IH1 r2 IH2|r1 IH1 r2 IH2|p|p|n r IH|];
    intros s caps k res M.
  - exists [], s, caps. repeat split; [constructor | exact M].
  - destruct s as [|c s]; [discriminate|]. cbn [rmatch] in M.
    destruct (p c) eqn:P; [|discriminate].
    exists [c], s, caps. repeat split; [now constructor | exact M].
  - cbn [rmatch] in M.
    apply IH1 in M as (x & s1 & caps1 & -> & M1 & M).
    apply IH2 in M as (y & s2 & caps2 & -> & M2 & M).
    exists (x ++ y), s2, caps2. rewrite <- app_assoc.
    repeat split; [now constructor | exact M].
  - cbn [rmatch] in M. unfold orelse in M.
    destruct (rmatch r1 s caps k) eqn:M1.
    + apply IH1 in M1 as (x & s' & caps' & -> & M1 & K).
      exists x, s', caps'. repeat split; [now apply matches_alt_l|].
      congruence.
    + apply IH2 in M as (x & s' & caps' & -> & M2 & K).
      exists x, s', caps'. repeat split; [now apply matches_alt_r | exact K].
  - induction s as [|c s IHs].
    + exists [], [], caps. repeat split; [now constructor | exact M].
    + change (rmatch (Star p) (c :: s) caps k)
        with (if p c then orelse (rmatch (Star p) s caps k) (k (c :: s) caps)
              else k (c :: s) caps) in M.
      destruct (p c) eqn:P.
      * unfold orelse in M. destruct (rmatch (Star p) s caps k) eqn:S.
        -- destruct (IHs M) as (x & s' & caps' & E & Mx & K).
           exists (c :: x), s', caps'. rewrite E.
           repeat split; [|exact K].
           constructor. inversion Mx; subst. cbn [forallb].
           now rewrite P.
        -- exists [], (c :: s), caps.
           repeat split; [now constructor | exact M].
      * exists [], (c :: s), caps.
        repeat split; [now constructor | exact M].
  - induction s as [|c s IHs].
    + change (rmatch (LazyStar p) [] caps k)
        with (orelse (k [] caps) None) in M.
      exists [], [], caps. repeat split; [now constructor|].
      unfold orelse in M. now destruct (k [] caps).
    + change (rmatch (LazyStar p) (c :: s) caps k)
        with (orelse (k (c :: s) caps)
                (if p c then rmatch (LazyStar p) s caps k else None)) in M.
      unfold orelse in M. destruct (k (c :: s) caps) eqn:K.
      * exists [], (c :: s), caps.
        repeat split; [now constructor | congruence].
      * destruct (p c) eqn:P; [|discriminate].
        destruct (IHs M) as (x & s' & caps' & E & Mx & K').
        exists (c :: x), s', caps'. rewrite E.
        repeat split; [|exact K'].
        constructor. inversion Mx; subst. cbn [forallb]. now rewrite P.
  - cbn [rmatch] in M.
    apply IH in M as (x & s' & caps' & -> & Mx & K).
    exists x, s', ((n, take (length (x ++ s') - length s') (x ++ s')) :: caps').
    repeat split; [now constructor | exact K].
  - destruct s; [|discriminate]. cbn [rmatch] in M.
    exists [], [], caps. repeat split; [constructor | exact M].
Qed.

Lemma exec_sound (r : regex) (s m : chars) (caps : captures) :
  exec r s = Some (m, caps) -> exists x s', s = x ++ s' /\ matches r x s'.
Proof.
  unfold exec. intros E.
  apply rmatch_sound in E as (x & s' & caps' & -> & M & _). eauto.
Qed.

Lemma search_sound (r : regex) (s : chars) (found : chars * captures) :
  search r s = Some found ->
  exists pre x s', s = pre ++ x ++ s' /\ matches r x s'.
Proof.
  induction s as [|c s IH]; cbn [search].
  - destruct (exec r []) as [[m caps]|] eqn:E; [|discriminate].
    intros _. apply exec_sound in E as (x & s' & E & M).
    exists [], x, s'. now split.
  - destruct (exec r (c :: s)) as [[m caps]|] eqn:E.
    + intros _. apply exec_sound in E as (x & s' & E & M).
      exists [], x, s'. now split.
    + intros S. destruct (IH S) as (pre & x & s' & -> & M).
      exists (c :: pre), x, s'. now split.
Qed.

End MatcherSound.

Section FourierDomain.
Import JS TextMode.
#[local] Arguments Ascii.eqb : simpl never.
#[local] Arguments isChar : simpl never.

(** The markup [e[a,b]], on one line. *)
Definition domainForm (e a b : chars) : chars :=
  e ++ "["%char :: a ++ ","%char :: b ++ ["]"%char].

Lemma matches_literal (x c : ascii) (m rest : chars) :
  matches (Chr (isChar x)) m rest -> m = [x].
Proof.
  inversion 1 as [|p c' rest' P| | | | | | |]; subst.
  unfold isChar in P. apply Ascii.eqb_eq in P. now subst.
Qed.

(** A text the domain pattern matches ends the input and has the form
    [e[a,b]] on one line. *)
Lemma matches_domainSuffix (x rest : chars) :
  matches domainSuffix x rest ->
  rest = [] /\
  exists e a b, x = domainForm e a b /\
    oneLine e = true /\ oneLine a = true /\ oneLine b = true.
Proof.
  unfold domainSuffix. intros M.
  inversion M as [| |? ? e x1 ? M1 M2| | | | | |]; subst. clear M.
  inversion M1 as [| | | | | | |? ? ? ? G1|]; subst. clear M1.
  inversion G1 as [| | | | |? ? ? Le| | |]; subst. clear G1.
  inversion M2 as [| |? ? o x2 ? O M3| | | | | |]; subst. clear M2.
  apply (matches_literal "[" "[") in O. subst o.
  inversion M3 as [| |? ? a x3 ? M4 M5| | | | | |]; subst. clear M3.
  inversion M4 as [| | | | | | |? ? ? ? G2|]; subst. clear M4.
  inversion G2 as [| | | | |? ? ? La| | |]; subst. clear G2.
  inversion M5 as [| |? ? o x4 ? O M6| | | | | |]; subst. clear M5.
  apply (matches_literal "," ",") in O. subst o.
  inversion M6 as [| |? ? b x5 ? M7 M8| | | | | |]; subst. clear M6.
  inversion M7 as [| | | | | | |? ? ? ? G3|]; subst. clear M7.
  inversion G3 as [| | | | |? ? ? Lb| | |]; subst. clear G3.
  inversion M8 as [| |? ? o x6 ? O M9| | | | | |]; subst. clear M8.
  apply (matches_literal "]" "]") in O. subst o.
  inversion M9; subst.
  split; [reflexivity|]. exists e, a, b.
  unfold domainForm. split; [reflexivity|]. now repeat split.
Qed.

(** Markup that does not end in a text of that form is left as it is. *)
Lemma domainClause_unchanged (latex : chars) :
  (forall pre e a b,
     oneLine e = true -> oneLine a = true -> oneLine b = true ->
     latex <> pre ++ domainForm e a b) ->
  domainClause latex = latex.
Proof.
  intros N. unfold domainClause.
  destruct (search domainSuffix latex) as [found|] eqn:S; [|reflexivity].
  exfalso.
  apply search_sound in S as (pre & x & rest & E & M).
  apply matches_domainSuffix in M as (-> & e & a & b & -> & Le & La & Lb).
  rewrite app_nil_r in E. exact (N pre e a b Le La Lb E).
Qed.

(** The Fourier branch on markup of one line, where the domain clause is
    the one described. Under the operation type [fourier], rewritten
    markup that is one line [e[a,b]] whose bounds hold no [[] and whose upper
    bound holds no [,] is returned as [e], the words [\text{ on }] and
    [[a,b]]; under any other operation type, and under [fourier] when the
    rewritten markup does not end in one line of the form [e[a,b]], the
    rewritten markup is returned as it is. *)
Theorem fourier_domain_clause (operationTypeSelect : option string)
    (input : string) :
  let latex := rewriteSteps (of_string input) in
  (forall e a b,
     latex = domainForm e a b ->
     oneLine e = true -> oneLine a = true -> oneLine b = true ->
     without "[" a = true -> without "[" b = true -> without "," b = true ->
     processInputToLatex (Some "fourier") input =
     to_string (e ++ of_string " \text{ on } [" ++ a ++ ","%char :: b ++
                ["]"%char])) /\
  (operationTypeSelect <> Some "fourier" ->
   processInputToLatex operationTypeSelect input = to_string latex) /\
  ((forall pre e a b,
      oneLine e = true -> oneLine a = true -> oneLine b = true ->
      latex <> pre ++ domainForm e a b) ->
   processInputToLatex (Some "fourier") input = to_string latex).
Proof.
  intros latex. split; [|split].
  - intros e a b E Le La Lb Wa Wb Wc. unfold processInputToLatex.
    fold latex. rewrite E. cbn [String.eqb Ascii.eqb].
    change (String.eqb "fourier" "fourier") with true. cbn iota.
    now rewrite <- (domainClause_one_line e a b Le La Lb Wa Wb Wc).
  - intros O. unfold processInputToLatex. fold latex.
    destruct operationTypeSelect as [value|]; [|reflexivity].
    destruct (String.eqb_spec value "fourier") as [->|]; [congruence|].
    reflexivity.
  - intros N. unfold processInputToLatex. fold latex.
    change (String.eqb "fourier" "fourier") with true. cbn iota.
    now rewrite (domainClause_unchanged latex N).
Qed.

End FourierDomain.

Section ConverterExamples.
Import JS TextMode.

Lemma fourier_domain_clause_example :
  processInputToLatex (Some "fourier") "x^2[-3.14,3.14]"
    = "x^{2} \text{ on } [-3.14,3.14]" /\
  processInputToLatex (Some "laplace") "x^2[-3.14,3.14]" = "x^{2}[-3.14,3.14]".
Proof.
  destruct (fourier_domain_clause (Some "laplace") "x^2[-3.14,3.14]")
    as (F & O & _).
  split.
  - exact (F (of_string "x^{2}") (of_string "-3.14") (of_string "3.14")
             eq_refl eq_refl eq_refl eq_refl eq_refl eq_refl eq_refl).
  - apply O. discriminate.
Defined.

End ConverterExamples.

(** ** The session from sign-in to sign-out *)

Section SessionLife.
Context `{Host}.
Import JS.

(** Without a stored user there is no session, whatever the storage and the
    cookies hold besides. *)
Lemma initAuth_without_user (now : Z) (userDisplay : bool)
    (s : UserAuth.Session) (b : Browser.t) :
  Browser.getItem "currentUser" b = None ->
  let '(s', b') := UserAuth.initAuth now userDisplay s b in
  UserAuth.window_isAuthenticated s' = false /\
  UserAuth.window_authToken s' = None /\
  UserAuth.isAuthenticated s' = UserAuth.isAuthenticated s /\
  b' = UserAuth.updateAuthUI userDisplay s' b.
Proof.
  intros U. unfold UserAuth.initAuth. rewrite U.
  cbn [truthy]. rewrite andb_false_r. repeat split.
Qed.

Lemma or_else_truthy (x : string) (other : option string) :
  x <> "" -> or_else (Some x) other = Some x.
Proof. intros N. unfold or_else. now rewrite (proj2 (truthy_Some x) N). Qed.

(** [updateAuthUI] touches nothing but the location. *)
Lemma updateAuthUI_href (userDisplay : bool) (s : UserAuth.Session)
    (b : Browser.t) :
  Browser.localStorage (UserAuth.updateAuthUI userDisplay s b)
  = Browser.localStorage b /\
  Browser.cookies (UserAuth.updateAuthUI userDisplay s b)
  = Browser.cookies b /\
  Browser.href (UserAuth.updateAuthUI userDisplay s b)
  = if userDisplay &&
       negb (UserAuth.isAuthenticated s &&
             JSON.truthy (UserAuth.currentUser s))
    then "/auth" else Browser.href b.
Proof. unfold UserAuth.updateAuthUI. now destruct (_ && _). Qed.

Lemma JSON_valid_parse (text : string) :
  JSON_valid text = true -> exists v, JSON_parse text = Some v.
Proof.
  unfold JSON_valid. destruct (JSON_parse text) as [v|]; [|discriminate].
  intros _. now exists v.
Qed.

Lemma JSON_invalid_parse (text : string) :
  JSON_valid text = false -> JSON_parse text = None.
Proof.
  unfold JSON_valid. now destruct (JSON_parse text).
Qed.

(** [initAuth] with a token and a stored user that is JSON. *)
Lemma initAuth_with_user (now : Z) (userDisplay : bool)
    (s : UserAuth.Session) (b : Browser.t) (tok text : string)
    (user : option JSON.Value) :
  or_else (Browser.getItem "authToken" b)
    (UserAuth.getCookie "authToken"
       (Browser.document_cookie (Browser.cookies b))) = Some tok ->
  tok <> "" ->
  Browser.getItem "currentUser" b = Some text -> text <> "" ->
  JSON_parse text = Some user ->
  UserAuth.initAuth now userDisplay s b
  = let s' := {| UserAuth.isAuthenticated := true;
                 UserAuth.currentUser := user;
                 UserAuth.authToken := Some tok;
                 UserAuth.window_isAuthenticated := true;
                 UserAuth.window_authToken := Some tok |} in
    (s', UserAuth.updateAuthUI userDisplay s'
           (UserAuth.setCookie now "authToken" (Some tok) 7 b)).
Proof.
  intros T TN C UN P. unfold UserAuth.initAuth. rewrite T, C.
  rewrite (proj2 (truthy_Some tok) TN), (proj2 (truthy_Some text) UN).
  cbn [andb mbind option_bind]. now rewrite P.
Qed.

Lemma getItem_removed (key key' : string) (b : Browser.t) :
  Browser.getItem key (Browser.removeItem key' b) =
  if String.eqb key key' then None else Browser.getItem key b.
Proof.
  unfold Browser.getItem, Browser.removeItem, Browser.set_localStorage.
  cbn [Browser.localStorage].
  destruct (String.eqb_spec key key') as [->|N].
  - apply lookup_delete_eq.
  - now apply lookup_delete_ne.
Qed.

(** X1. After a sign-out by any of the three [logout] routines, a page that
    is loaded next finds no session: [initAuth] of the session script leaves
    [window.isAuthenticated] false and sends a page that shows the user to
    the sign-in view, and [initAuth] of the dashboard loads nothing and
    opens [/login]. *)
Theorem reload_after_logout (now now' : Z) (s : UserAuth.Session)
    (b b' : Browser.t) (userDisplay : bool) :
  b' = snd (UserAuth.logout now s b) \/ b' = Dashboard.logout b \/
  b' = DashboardSorted.logout now b ->
  let '(s', b'') := UserAuth.initAuth now' userDisplay pageLoad b' in
  UserAuth.isAuthenticated s' = false /\
  UserAuth.window_isAuthenticated s' = false /\
  (userDisplay = true -> Browser.href b'' = "/auth") /\
  Dashboard.initAuth b' = (false, Browser.set_href "/login" b').
Proof.
  intros L.
  assert (U : Browser.getItem "currentUser" b' = None).
  { destruct L as [-> | [-> | ->]];
      unfold UserAuth.logout, Dashboard.logout, DashboardSorted.logout;
      cbn [snd]; unfold Browser.getItem, Browser.set_href,
        Browser.set_document_cookie, Browser.set_cookies;
      cbn [Browser.localStorage]; apply getItem_removed. }
  pose proof (initAuth_without_user now' userDisplay pageLoad b' U) as I.
  destruct (UserAuth.initAuth now' userDisplay pageLoad b') as [s' b''].
  destruct I as (W & _ & A & ->).
  split; [exact A|]. split; [exact W|]. split.
  - intros ->. unfold UserAuth.updateAuthUI. rewrite A. reflexivity.
  - unfold Dashboard.initAuth. rewrite U. cbn [truthy].
    now rewrite andb_false_r.
Qed.

(** X2. After a successful sign-in that carries a token and a user, the
    calculator page that is loaded next has a session: [initAuth] takes the
    token from the storage, parses the stored user, and sets the variables
    of the session and the two properties of [window]. It stays on the
    page, unless the page shows the user and the user parsed is falsy
    ([null], [false], [0] or the empty string): then it opens the sign-in
    view. *)
Theorem session_after_sign_in (now now' : Z) (p : AuthForm.Page)
    (data : AuthForm.Data) (b : Browser.t) (tok user : string)
    (userDisplay : bool) :
  AuthForm.isLogin p = true ->
  AuthForm.token data = Some tok -> tok <> "" ->
  AuthForm.user data = Some user -> user <> "" -> JSON_valid user = true ->
  let b' :=
    snd (AuthForm.answered now p (AuthForm.Response true (Some data)) b) in
  let '(s', b'') := UserAuth.initAuth now' userDisplay pageLoad b' in
  UserAuth.isAuthenticated s' = true /\
  UserAuth.authToken s' = Some tok /\
  JSON_parse user = Some (UserAuth.currentUser s') /\
  UserAuth.window_isAuthenticated s' = true /\
  UserAuth.window_authToken s' = Some tok /\
  Browser.href b'' =
    (if userDisplay && negb (JSON.truthy (UserAuth.currentUser s'))
     then "/auth" else "/") /\
  Browser.localStorage b'' = Browser.localStorage b'.
Proof.
  intros L T TN U UN J b'.
  assert (A : Browser.getItem "authToken" b' = Some tok).
  { unfold b', AuthForm.answered. rewrite L, T. cbn [snd].
    unfold Browser.getItem, Browser.setItem, UserAuth.setCookie.
    cbn. rewrite lookup_insert_ne by discriminate.
    now rewrite lookup_insert_eq. }
  assert (C : Browser.getItem "currentUser" b' = Some user).
  { unfold b', AuthForm.answered. rewrite L, U. cbn [snd].
    unfold Browser.getItem, Browser.setItem, UserAuth.setCookie.
    cbn. now rewrite lookup_insert_eq. }
  assert (R : Browser.href b' = "/").
  { unfold b', AuthForm.answered. now rewrite L. }
  destruct (JSON_valid_parse user J) as [v P].
  rewrite (initAuth_with_user now' userDisplay pageLoad b' tok user v);
    [|now rewrite A, or_else_truthy | exact TN | exact C | exact UN | exact P].
  cbv zeta.
  destruct (updateAuthUI_href userDisplay
              {| UserAuth.isAuthenticated := true;
                 UserAuth.currentUser := v;
                 UserAuth.authToken := Some tok;
                 UserAuth.window_isAuthenticated := true;
                 UserAuth.window_authToken := Some tok |}
              (UserAuth.setCookie now' "authToken" (Some tok) 7 b'))
    as (S1 & _ & S2).
  cbn [UserAuth.isAuthenticated UserAuth.currentUser UserAuth.authToken
       UserAuth.window_isAuthenticated UserAuth.window_authToken andb]
    in S2 |- *.
  repeat split; try exact P; [|exact S1].
  rewrite S2. now destruct (_ && _).
Qed.

(** X3. A stored user that is not JSON ends the session: [initAuth] runs
    [logout], which empties the two keys of the storage, removes the cookie
    and opens the sign-in view; the variables of the session are reset and
    the two properties of [window] are left as they were. The browser reads
    the date in 1970 as past. *)
Theorem corrupt_user_signs_out (now expiry : Z) (userDisplay : bool)
    (s : UserAuth.Session) (b : Browser.t) (tok user : string) :
  Browser.getItem "authToken" b = Some tok -> tok <> "" ->
  Browser.getItem "currentUser" b = Some user -> user <> "" ->
  JSON_valid user = false ->
  cookie_expires epochAttributes = Some expiry -> expiry <= now ->
  let '(s', b') := UserAuth.initAuth now userDisplay s b in
  UserAuth.isAuthenticated s' = false /\
  UserAuth.currentUser s' = None /\
  UserAuth.authToken s' = None /\
  UserAuth.window_isAuthenticated s' = UserAuth.window_isAuthenticated s /\
  Browser.getItem "authToken" b' = None /\
  Browser.getItem "currentUser" b' = None /\
  Browser.lookup "authToken" (Browser.cookies b') = None /\
  Browser.href b' = "/auth".
Proof.
  intros A TN C UN J E L. unfold UserAuth.initAuth.
  rewrite A, C, (or_else_truthy tok _ TN).
  assert (TT : truthy (Some tok) = true) by now apply truthy_Some.
  assert (TU : truthy (Some user) = true) by now apply truthy_Some.
  rewrite TT, TU. cbn [andb mbind option_bind].
  rewrite (JSON_invalid_parse user J).
  unfold UserAuth.logout, Browser.getItem, Browser.set_href,
    Browser.set_document_cookie, Browser.set_cookies, Browser.removeItem,
    Browser.set_localStorage.
  cbn [Browser.localStorage Browser.cookies Browser.href UserAuth.loggedOut
       UserAuth.isAuthenticated UserAuth.currentUser UserAuth.authToken
       UserAuth.window_isAuthenticated].
  rewrite (assign_epoch_cookie now expiry _ E L), lookup_remove.
  repeat split.
  - rewrite lookup_delete_ne by discriminate. apply lookup_delete_eq.
  - apply lookup_delete_eq.
Qed.

End SessionLife.

Section SessionLifeExamples.
Import JS.
Local Existing Instance SampleHost.host.

Lemma reload_after_logout_example :
  let '(s', b'') :=
    UserAuth.initAuth Samples.now true pageLoad
      (Dashboard.logout Samples.signedIn) in
  UserAuth.isAuthenticated s' = false /\
  UserAuth.window_isAuthenticated s' = false /\
  (true = true -> Browser.href b'' = "/auth") /\
  Dashboard.initAuth (Dashboard.logout Samples.signedIn)
  = (false, Browser.set_href "/login" (Dashboard.logout Samples.signedIn)).
Proof.
  apply (reload_after_logout Samples.now Samples.now Samples.session
           Samples.signedIn).
  right. left. reflexivity.
Defined.

Lemma session_after_sign_in_example :
  (let '(s', b'') :=
     UserAuth.initAuth Samples.now true pageLoad Samples.signedIn in
   UserAuth.isAuthenticated s' = true /\
   UserAuth.currentUser s' = Some (JSON.Object ∅) /\
   Browser.href b'' = "/") /\
  (let '(s', b'') :=
     UserAuth.initAuth Samples.now true pageLoad MoreSamples.signedInNoUser in
   UserAuth.isAuthenticated s' = true /\
   UserAuth.currentUser s' = None /\
   Browser.href b'' = "/auth").
Proof.
  split.
  - pose proof (session_after_sign_in Samples.now Samples.now
                  Samples.signInForm
                  {| AuthForm.token := Some "tok"; AuthForm.user := Some "{}";
                     AuthForm.error := None |} Samples.emptyBrowser "tok" "{}"
                  true eq_refl eq_refl ltac:(discriminate) eq_refl
                  ltac:(discriminate) eq_refl) as T.
    cbv zeta in T. fold Samples.accepted in T. fold Samples.signedIn in T.
    destruct (UserAuth.initAuth Samples.now true pageLoad Samples.signedIn)
      as [s' b''].
    destruct T as (A & _ & P & _ & _ & R & _).
    assert (C : Some (UserAuth.currentUser s') = Some (Some (JSON.Object ∅)))
      by (rewrite <- P; reflexivity).
    injection C as C. rewrite C in R. now repeat split.
  - pose proof (session_after_sign_in Samples.now Samples.now
                  Samples.signInForm MoreSamples.noUser Samples.emptyBrowser
                  "tok" "null" true eq_refl eq_refl ltac:(discriminate)
                  eq_refl ltac:(discriminate) eq_refl) as T.
    cbv zeta in T. fold MoreSamples.signedInNoUser in T.
    destruct (UserAuth.initAuth Samples.now true pageLoad
                MoreSamples.signedInNoUser) as [s' b''].
    destruct T as (A & _ & P & _ & _ & R & _).
    assert (C : Some (UserAuth.currentUser s') = Some None)
      by (rewrite <- P; reflexivity).
    injection C as C. rewrite C in R. now repeat split.
Defined.

Lemma corrupt_user_signs_out_example :
  let '(s', b') :=
    UserAuth.initAuth Samples.now true Samples.session MoreSamples.corrupted in
  UserAuth.isAuthenticated s' = false /\
  UserAuth.currentUser s' = None /\
  UserAuth.authToken s' = None /\
  UserAuth.window_isAuthenticated s' = true /\
  Browser.getItem "authToken" b' = None /\
  Browser.getItem "currentUser" b' = None /\
  Browser.lookup "authToken" (Browser.cookies b') = None /\
  Browser.href b' = "/auth".
Proof.
  apply (corrupt_user_signs_out Samples.now 0 true Samples.session
           MoreSamples.corrupted "tok" "oops");
    try (vm_compute; reflexivity); try discriminate.
Defined.

End SessionLifeExamples.

(** ** The cookie of the session *)

Section SessionCookie.
Context `{Host}.
Import JS.
#[local] Arguments Ascii.eqb : simpl never.
#[local] Arguments isChar : simpl never.
#[local] Arguments String.eqb : simpl never.

Lemma lookup_store_other (name name' value : string)
    (jar : Browser.cookieJar) :
  name' <> name ->
  Browser.lookup name' (Browser.store name value jar) = Browser.lookup name' jar.
Proof.
  intros N. unfold Browser.lookup.
  induction jar as [|[n v] jar IH]; cbn [Browser.store find fst].
  - apply String.eqb_neq in N. rewrite String.eqb_sym. now rewrite N.
  - destruct (String.eqb_spec n name) as [->|D]; cbn [find fst].
    + destruct (String.eqb_spec name name') as [E|_]; [now subst|].
      reflexivity.
    + destruct (String.eqb n name'); [reflexivity | exact IH].
Qed.

Lemma lookup_remove_other (name name' : string) (jar : Browser.cookieJar) :
  name' <> name ->
  Browser.lookup name' (Browser.remove name jar) = Browser.lookup name' jar.
Proof.
  intros N. unfold Browser.lookup, Browser.remove.
  induction jar as [|[n v] jar IH]; [reflexivity|].
  rewrite filter_cons. cbn [fst find].
  destruct (decide (n <> name)) as [D|D]; cbn [find fst].
  - destruct (String.eqb n name'); [reflexivity | exact IH].
  - apply dec_stable in D. subst n.
    destruct (String.eqb_spec name name') as [E|_]; [now subst | exact IH].
Qed.

Lemma cut_at_absent (sep : ascii) (s : chars) :
  without sep s = true -> Browser.cut_at sep s = None.
Proof.
  unfold without. induction s as [|c s IH]; [reflexivity|].
  cbn [forallb Browser.cut_at]. intros W.
  apply andb_true_iff in W as [C W]. apply negb_true_iff in C.
  now rewrite C, (IH W).
Qed.

Lemma cut_at_later (sep c : ascii) (a rest : chars) :
  without sep a = true -> c <> sep ->
  Browser.cut_at sep (a ++ c :: rest) =
  match Browser.cut_at sep rest with
  | Some (x, y) => Some (a ++ c :: x, y)
  | None => None
  end.
Proof.
  unfold without. intros W C. induction a as [|d a IH].
  - cbn [app Browser.cut_at]. apply Ascii.eqb_neq in C. rewrite C.
    now destruct (Browser.cut_at sep rest) as [[x y]|].
  - cbn [forallb] in W. apply andb_true_iff in W as [D W].
    apply negb_true_iff in D. cbn [app Browser.cut_at]. rewrite D, (IH W).
    now destruct (Browser.cut_at sep rest) as [[x y]|].
Qed.

Lemma without_take (sep : ascii) (n : nat) (s : chars) :
  without sep s = true -> without sep (take n s) = true.
Proof.
  intros W. rewrite <- (take_drop n s), without_app in W.
  now apply andb_true_iff in W as [W _].
Qed.

(** A text without [=] writes nothing. *)
Lemma assign_text_unnamed (now : Z) (text : chars)
    (jar : Browser.cookieJar) :
  without "=" text = true ->
  Browser.assign_text now (to_string text) jar = jar.
Proof.
  intros W. unfold Browser.assign_text. rewrite of_to_string.
  destruct (Browser.cut_at ";" text) as [[name_value attributes]|] eqn:E.
  - destruct (cut_at_Some _ _ _ _ E) as [_ ->].
    rewrite without_app in W. apply andb_true_iff in W as [W _].
    now rewrite (cut_at_absent _ _ W).
  - now rewrite (cut_at_absent _ _ W).
Qed.

(** A text that begins with [name=] touches the cookie of that name only. *)
Lemma assign_text_named (now : Z) (name : string) (rest : chars)
    (jar : Browser.cookieJar) :
  cookie_name name = true ->
  let jar' :=
    Browser.assign_text now (to_string (of_string name ++ "="%char :: rest))
      jar in
  jar' = jar \/ (exists value, jar' = Browser.store name value jar) \/
  jar' = Browser.remove name jar.
Proof.
  intros N. cbv zeta. unfold Browser.assign_text. rewrite of_to_string.
  apply cookie_name_parts in N as (NE & N1 & N2 & N3).
  rewrite (cut_at_later ";" "=" _ rest N1) by discriminate.
  assert (S : forall x attributes,
            let jar' :=
              match Browser.cut_at "=" (of_string name ++ "="%char :: x) with
              | Some (name', value) =>
                  Browser.assign_pair now
                    (to_string (Browser.trim_wsp name'))
                    (to_string (Browser.trim_wsp value)) attributes jar
              | None => jar
              end in
            jar' = jar \/
            (exists value, jar' = Browser.store name value jar) \/
            jar' = Browser.remove name jar).
  { intros x attributes. rewrite (cut_at_app "=" _ x N2). cbv zeta.
    rewrite (trimmed_trim_wsp _ N3), to_of_string.
    unfold Browser.assign_pair.
    destruct (String.eqb name ""); [now left|].
    destruct (Browser.refused _ _ _); [now left|].
    destruct (cookie_expires _) as [expiry|]; [|right; left; eauto].
    destruct (expiry <=? now); [now right; right | right; left; eauto]. }
  destruct (Browser.cut_at ";" rest) as [[x attributes]|]; apply S.
Qed.

(** The store after [setCookie]: the cookie is written, with the value or a
    part of it, or removed when the browser reads its expiry as past, or the
    store is left as it is when the browser ignores the text. *)
Lemma assign_setCookie_either (now : Z) (name value : string) (days : Z)
    (jar : Browser.cookieJar) :
  cookie_name name = true -> cookie_value value = true ->
  let jar' :=
    Browser.assign_cookie now
      (UserAuth.setCookie_text now name (Some value) days) jar in
  jar' = jar \/ (exists value', jar' = Browser.store name value' jar) \/
  jar' = Browser.remove name jar.
Proof.
  intros N V. cbv zeta. unfold Browser.assign_cookie, Browser.screened.
  assert (T : of_string (UserAuth.setCookie_text now name (Some value) days)
              = of_string name ++ "="%char ::
                (of_string value ++
                 ";"%char :: of_string (setCookie_attributes now days))).
  { rewrite setCookie_text_shape. now rewrite <- app_assoc. }
  destruct (Browser.printable _).
  - rewrite <- (to_of_string (UserAuth.setCookie_text now name (Some value)
                                days)), T.
    now apply assign_text_named.
  - destruct (cookie_control _) as [n|]; [|now left]. cbn [fmap option_fmap
      option_map]. rewrite T.
    destruct (Nat.le_gt_cases n (length (of_string name))) as [L|L].
    + rewrite take_app_le by exact L. left.
      apply assign_text_unnamed, without_take.
      now apply cookie_name_parts in N as (_ & _ & N & _).
    + rewrite take_app_ge by lia.
      destruct (n - length (of_string name))%nat as [|m] eqn:E; [lia|].
      cbn [take firstn]. now apply assign_text_named.
Qed.

(** X4. [setCookie(name, value, days)] leaves every other cookie as
    [getCookie] reads it, whether the browser keeps the cookie written or
    drops it as expired. *)
Theorem setCookie_keeps_other_cookies (now : Z) (name value other : string)
    (days : Z) (b : Browser.t) :
  cookie_name name = true -> cookie_value value = true ->
  cookie_name other = true -> other <> name ->
  well_formed (Browser.cookies b) = true ->
  UserAuth.getCookie other
    (Browser.document_cookie
       (Browser.cookies (UserAuth.setCookie now name (Some value) days b)))
  = UserAuth.getCookie other (Browser.document_cookie (Browser.cookies b)).
Proof.
  intros N V O D W.
  unfold UserAuth.setCookie, Browser.set_document_cookie, Browser.set_cookies.
  cbn [Browser.cookies].
  rewrite !getCookie_lookup;
    [|exact O | exact W | exact O | now apply assign_cookie_well_formed].
  destruct (assign_setCookie_either now name value days (Browser.cookies b)
              N V) as [-> | [[value' ->] | ->]].
  - reflexivity.
  - now apply lookup_store_other.
  - now apply lookup_remove_other.
Qed.

(** X5. [initAuth] writes the cookie again from the storage: with a token
    and a user in the storage, the cookie [authToken] read back after
    [initAuth] is the stored token, whatever cookie there was before. The
    token holds no [;] and no white space at its ends, the text written for
    it holds no control character and no more than 4096 bytes (and its date
    no [;]), and the browser does not read the expiry seven days ahead as
    past. *)
Theorem initAuth_writes_cookie (now : Z) (userDisplay : bool)
    (s : UserAuth.Session) (b : Browser.t) (tok user : string) :
  Browser.getItem "authToken" b = Some tok -> tok <> "" ->
  cookie_value tok = true ->
  writable now "authToken" tok 7 = true ->
  Browser.getItem "currentUser" b = Some user -> user <> "" ->
  JSON_valid user = true ->
  well_formed (Browser.cookies b) = true ->
  kept now (setCookie_attributes now 7) = true ->
  let b' := snd (UserAuth.initAuth now userDisplay s b) in
  UserAuth.getCookie "authToken"
    (Browser.document_cookie (Browser.cookies b')) = Some tok.
Proof.
  intros A TN V Wr C UN J W K. cbv zeta.
  destruct (JSON_valid_parse user J) as [v P].
  rewrite (initAuth_with_user now userDisplay s b tok user v);
    [|now rewrite A, or_else_truthy | exact TN | exact C | exact UN | exact P].
  cbv zeta. cbn [snd].
  destruct (updateAuthUI_href userDisplay
              {| UserAuth.isAuthenticated := true;
                 UserAuth.currentUser := v;
                 UserAuth.authToken := Some tok;
                 UserAuth.window_isAuthenticated := true;
                 UserAuth.window_authToken := Some tok |}
              (UserAuth.setCookie now "authToken" (Some tok) 7 b))
    as (_ & -> & _).
  unfold UserAuth.setCookie, Browser.set_document_cookie, Browser.set_cookies.
  cbn [Browser.cookies].
  rewrite (assign_setCookie now "authToken" tok 7 _ eq_refl V eq_refl Wr K).
  rewrite getCookie_lookup.
  - apply lookup_store.
  - reflexivity.
  - apply store_well_formed; [reflexivity | | exact W].
    now apply andb_true_iff in V as [V _].
Qed.

(** X6. A token that is in the cookie only gives a session on the
    calculator page and none on the dashboard: [initAuth] of the session
    script takes the token from the cookie and does not put it into the
    storage, where alone [initAuth] of the dashboard looks for it. *)
Theorem cookie_only_session (now : Z) (userDisplay : bool) (b : Browser.t)
    (tok user : string) :
  Browser.getItem "authToken" b = None ->
  Browser.lookup "authToken" (Browser.cookies b) = Some tok -> tok <> "" ->
  Browser.getItem "currentUser" b = Some user -> user <> "" ->
  JSON_valid user = true ->
  well_formed (Browser.cookies b) = true ->
  let '(s', b') := UserAuth.initAuth now userDisplay pageLoad b in
  UserAuth.isAuthenticated s' = true /\
  UserAuth.window_isAuthenticated s' = true /\
  UserAuth.authToken s' = Some tok /\
  Browser.getItem "authToken" b' = None /\
  Dashboard.initAuth b' = (false, Browser.set_href "/login" b').
Proof.
  intros A L TN C UN J W.
  destruct (JSON_valid_parse user J) as [v P].
  rewrite (initAuth_with_user now userDisplay pageLoad b tok user v);
    [| | exact TN | exact C | exact UN | exact P].
  2:{ now rewrite A, (getCookie_lookup "authToken" _ eq_refl W), L. }
  cbv zeta.
  set (s' := {| UserAuth.isAuthenticated := true;
                UserAuth.currentUser := v;
                UserAuth.authToken := Some tok;
                UserAuth.window_isAuthenticated := true;
                UserAuth.window_authToken := Some tok |}).
  set (b' := UserAuth.updateAuthUI userDisplay s'
               (UserAuth.setCookie now "authToken" (Some tok) 7 b)).
  assert (G : Browser.getItem "authToken" b' = None).
  { unfold Browser.getItem, b'.
    destruct (updateAuthUI_href userDisplay s'
                (UserAuth.setCookie now "authToken" (Some tok) 7 b))
      as (-> & _ & _).
    exact A. }
  repeat split; [exact G|].
  unfold Dashboard.initAuth. now rewrite G.
Qed.

(** X7. [logout] of the session script and of the dashboard with sorting
    forget the session and nothing else: the two keys of the storage and the
    cookie [authToken] are gone, also as [getCookie] reads the cookies, every
    other key and every other cookie is as before, and the sign-in view is
    opened. The browser reads the date in 1970 as past. *)
Theorem logout_forgets_session (now expiry : Z) (s : UserAuth.Session)
    (b : Browser.t) :
  cookie_expires epochAttributes = Some expiry -> expiry <= now ->
  well_formed (Browser.cookies b) = true ->
  let '(s', b1) := UserAuth.logout now s b in
  let b2 := DashboardSorted.logout now b in
  (UserAuth.isAuthenticated s' = false /\ UserAuth.currentUser s' = None /\
   UserAuth.authToken s' = None) /\
  Browser.href b1 = "/auth" /\ Browser.href b2 = "/login" /\
  forall b', b' = b1 \/ b' = b2 ->
    Browser.getItem "authToken" b' = None /\
    Browser.getItem "currentUser" b' = None /\
    UserAuth.getCookie "authToken"
      (Browser.document_cookie (Browser.cookies b')) = None /\
    (forall key, key <> "authToken" -> key <> "currentUser" ->
       Browser.getItem key b' = Browser.getItem key b) /\
    (forall other, cookie_name other = true -> other <> "authToken" ->
       UserAuth.getCookie other
         (Browser.document_cookie (Browser.cookies b'))
       = UserAuth.getCookie other
           (Browser.document_cookie (Browser.cookies b))).
Proof.
  intros E L W. unfold UserAuth.logout. cbv zeta.
  split; [now repeat split|]. split; [reflexivity|]. split; [reflexivity|].
  intros b' B.
  assert (S : Browser.localStorage b' =
              delete "currentUser" (delete "authToken" (Browser.localStorage b))
              /\ Browser.cookies b' = Browser.remove "authToken" (Browser.cookies b)).
  { destruct B as [-> | ->];
      unfold DashboardSorted.logout, Browser.set_href,
        Browser.set_document_cookie, Browser.set_cookies, Browser.removeItem,
        Browser.set_localStorage;
      cbn [Browser.localStorage Browser.cookies];
      now rewrite (assign_epoch_cookie now expiry _ E L). }
  destruct S as [S C]. unfold Browser.getItem. rewrite S, C.
  assert (W' : well_formed (Browser.remove "authToken" (Browser.cookies b))
               = true) by now apply remove_well_formed.
  split; [|split; [|split; [|split]]].
  - rewrite lookup_delete_ne by discriminate. apply lookup_delete_eq.
  - apply lookup_delete_eq.
  - rewrite getCookie_lookup by (reflexivity || exact W').
    apply lookup_remove.
  - intros key K1 K2. now rewrite !lookup_delete_ne by congruence.
  - intros other O D. rewrite !getCookie_lookup by assumption.
    now apply lookup_remove_other.
Qed.

End SessionCookie.

Section SessionCookieExamples.
Import JS.
Local Existing Instance SampleHost.host.

Lemma setCookie_keeps_other_cookies_example :
  UserAuth.getCookie "authToken"
    (Browser.document_cookie
       (Browser.cookies
          (UserAuth.setCookie Samples.now "theme" (Some "dark") 7
             Samples.signedIn)))
  = UserAuth.getCookie "authToken"
      (Browser.document_cookie (Browser.cookies Samples.signedIn)).
Proof.
  apply (setCookie_keeps_other_cookies Samples.now "theme" "dark" "authToken"
           7 Samples.signedIn);
    try (vm_compute; reflexivity); discriminate.
Defined.

Lemma initAuth_writes_cookie_example :
  let b' :=
    snd (UserAuth.initAuth Samples.now true pageLoad Samples.signedIn) in
  UserAuth.getCookie "authToken"
    (Browser.document_cookie (Browser.cookies b')) = Some "tok".
Proof.
  apply (initAuth_writes_cookie Samples.now true pageLoad Samples.signedIn
           "tok" "{}");
    try (vm_compute; reflexivity); discriminate.
Defined.

Lemma cookie_only_session_example :
  let '(s', b') :=
    UserAuth.initAuth Samples.now true pageLoad MoreSamples.cookieOnly in
  UserAuth.isAuthenticated s' = true /\
  UserAuth.window_isAuthenticated s' = true /\
  UserAuth.authToken s' = Some "tok" /\
  Browser.getItem "authToken" b' = None /\
  Dashboard.initAuth b' = (false, Browser.set_href "/login" b').
Proof.
  apply (cookie_only_session Samples.now true MoreSamples.cookieOnly
           "tok" "{}");
    try (vm_compute; reflexivity); discriminate.
Defined.

Lemma logout_forgets_session_example :
  let '(s', b1) := UserAuth.logout Samples.now Samples.session
                     Samples.signedIn in
  let b2 := DashboardSorted.logout Samples.now Samples.signedIn in
  (UserAuth.isAuthenticated s' = false /\ UserAuth.currentUser s' = None /\
   UserAuth.authToken s' = None) /\
  Browser.href b1 = "/auth" /\ Browser.href b2 = "/login" /\
  forall b', b' = b1 \/ b' = b2 ->
    Browser.getItem "authToken" b' = None /\
    Browser.getItem "currentUser" b' = None /\
    UserAuth.getCookie "authToken"
      (Browser.document_cookie (Browser.cookies b')) = None /\
    (forall key, key <> "authToken" -> key <> "currentUser" ->
       Browser.getItem key b' = Browser.getItem key Samples.signedIn) /\
    (forall other, cookie_name other = true -> other <> "authToken" ->
       UserAuth.getCookie other
         (Browser.document_cookie (Browser.cookies b'))
       = UserAuth.getCookie other
           (Browser.document_cookie (Browser.cookies Samples.signedIn))).
Proof.
  apply (logout_forgets_session Samples.now 0 Samples.session
           Samples.signedIn);
    try (vm_compute; reflexivity); discriminate.
Defined.

End SessionCookieExamples.

(** ** Saving by hand *)

Section ManualSave.
Import JS UserAuth.

Lemma or_string_None (b : string) : or_string None b = b.
Proof. reflexivity. Qed.

(** X8. On a page that has the elements the first version of the session
    script reads (the markup of the active mode, the solution container and
    the select), the click on the save button does with the second version
    what it did with the first: the same alert, or the same request after
    the same prompt. *)
Theorem save_button_as_before (s : Session) (page : Page)
    (promptAnswer : option string) :
  (if bool_decide (window_currentMode page = Some "text")
   then is_Some (latex_input page)
   else is_Some (drawing_latex_result page)) ->
  is_Some (solution_container page) ->
  is_Some (operation_type page) ->
  saveButtonClicked s page promptAnswer
  = UserAuthV1.saveCurrentCalculation s page promptAnswer.
Proof.
  intros L [text S] [op O].
  unfold saveButtonClicked, saveCurrentCalculation,
    UserAuthV1.saveCurrentCalculation, noArgs.
  cbn [manualLatexInput manualSolution manualOperationType manualExplanation
       manualTitle truthy].
  destruct (negb (isAuthenticated s) || negb (truthy (authToken s)));
    [reflexivity|].
  rewrite S, O, !or_string_None.
  destruct (bool_decide (window_currentMode page = Some "text")).
  - destruct L as [latex ->].
    destruct (negb (truthy (Some latex)) || negb (truthy (Some (trim text))));
      reflexivity.
  - destruct L as [latex ->].
    destruct (negb (truthy (Some latex)) || negb (truthy (Some (trim text))));
      reflexivity.
Qed.

(** X9. On the calculator page the save button works in draw mode only. In
    text mode the routine finds no markup and sends nothing, whatever the
    page shows; in draw mode, with a session, recognized markup and a
    solution on the page, it asks for a title and sends the markup, the
    trimmed text of the solution container, the value of the select and an
    empty explanation. *)
Theorem save_button_by_mode (s : Session) (dataset_latex : option string)
    (solutionText operationType : string) (promptAnswer : option string) :
  (forall request prompted,
     saveButtonClicked s
       (CalculatorPage.elements Calculator.Text dataset_latex solutionText
          operationType) promptAnswer
     <> Posted request prompted) /\
  (isAuthenticated s = true -> truthy (authToken s) = true ->
   forall latex, dataset_latex = Some latex -> latex <> "" ->
   trim solutionText <> "" ->
   saveButtonClicked s
     (CalculatorPage.elements Calculator.Draw dataset_latex solutionText
        operationType) promptAnswer
   = Posted {| req_latex_input := latex;
               req_operation_type := operationType;
               req_solution := trim solutionText;
               req_ai_explanation := "";
               req_title := promptAnswer |} true).
Proof.
  split.
  - intros request prompted.
    unfold saveButtonClicked, saveCurrentCalculation, noArgs,
      CalculatorPage.elements.
    cbn. now destruct (negb (isAuthenticated s) || negb (truthy (authToken s))).
  - intros A T latex -> L S.
    unfold saveButtonClicked, saveCurrentCalculation, noArgs,
      CalculatorPage.elements.
    cbn [manualLatexInput manualSolution manualOperationType manualExplanation
         manualTitle window_currentMode latex_input drawing_latex_result
         result_latex solution_container operation_type
         explanation_container].
    rewrite A, T. cbn [negb orb].
    change (truthy None) with false. cbn iota.
    rewrite bool_decide_eq_false_2 by discriminate.
    rewrite (or_string_truthy latex "" L), !or_string_None.
    rewrite (proj2 (truthy_Some latex) L),
      (proj2 (truthy_Some (trim solutionText)) S).
    reflexivity.
Qed.

End ManualSave.

Section ManualSaveExamples.
Import JS UserAuth.

Lemma save_button_as_before_example :
  saveButtonClicked Samples.session MoreSamples.drawn (Some "Roots")
  = UserAuthV1.saveCurrentCalculation Samples.session MoreSamples.drawn
      (Some "Roots").
Proof.
  apply save_button_as_before; vm_compute; eexists; reflexivity.
Defined.

End ManualSaveExamples.

(** ** The matcher finds what there is to find *)

Section MatcherComplete.
Import JS.
Context {R : Type}.
Implicit Types (k : chars -> captures -> option R).

Lemma orelse_l (a b : option R) : is_Some a -> is_Some (orelse a b).
Proof. now intros [x ->]. Qed.

Lemma orelse_r (a b : option R) : is_Some b -> is_Some (orelse a b).
Proof. intros B. destruct a; [eauto | exact B]. Qed.

Lemma star_at_least p s caps k :
  is_Some (k s caps) -> is_Some (rmatch (Star p) s caps k).
Proof.
  intros K. destruct s as [|c s]; [exact K|].
  rewrite star_cons. destruct (p c); [now apply orelse_r | exact K].
Qed.

Lemma lazy_cons p c s caps k :
  rmatch (LazyStar p) (c :: s) caps k =
  orelse (k (c :: s) caps) (if p c then rmatch (LazyStar p) s caps k else None).
Proof. reflexivity. Qed.

Lemma lazy_nil p caps k :
  rmatch (LazyStar p) [] caps k = orelse (k [] caps) None.
Proof. reflexivity. Qed.

Lemma lazy_at_least p s caps k :
  is_Some (k s caps) -> is_Some (rmatch (LazyStar p) s caps k).
Proof.
  intros K. destruct s as [|c s].
  - rewrite lazy_nil. now apply orelse_l.
  - rewrite lazy_cons. now apply orelse_l.
Qed.

End MatcherComplete.

(** A text of the language, followed by an input on which the continuation
    succeeds, is matched: the search passes over no match. *)
Lemma rmatch_complete (r : JS.regex) (x rest : JS.chars) :
  matches r x rest ->
  forall {R} (caps : JS.captures)
         (k : JS.chars -> JS.captures -> option R),
    (forall caps', is_Some (k rest caps')) ->
    is_Some (JS.rmatch r (x ++ rest) caps k).
Proof.
  induction 1 as [rest|p c rest P|r1 r2 x y rest _ IH1 _ IH2
                 |r1 r2 x rest _ IH|r1 r2 x rest _ IH
                 |p x rest X|p x rest X|n r x rest _ IH|];
    intros R caps k K.
  - apply K.
  - cbn. rewrite P. apply K.
  - rewrite <- app_assoc. cbn [JS.rmatch].
    apply IH1. intros caps'. now apply IH2.
  - cbn [JS.rmatch]. apply orelse_l. now apply IH.
  - cbn [JS.rmatch]. apply orelse_r. now apply IH.
  - induction x as [|c x IHx]; [apply star_at_least, K|].
    cbn [forallb] in X. apply andb_true_iff in X as [P X].
    cbn [app]. rewrite star_cons, P. apply orelse_l. now apply IHx.
  - induction x as [|c x IHx]; [apply lazy_at_least, K|].
    cbn [forallb] in X. apply andb_true_iff in X as [P X].
    cbn [app]. rewrite lazy_cons, P. apply orelse_r. now apply IHx.
  - cbn [JS.rmatch]. apply IH. intros caps'. apply K.
  - apply K.
Qed.

Lemma exec_complete (r : JS.regex) (x rest : JS.chars) :
  matches r x rest -> is_Some (JS.exec r (x ++ rest)).
Proof.
  intros M. unfold JS.exec. apply (rmatch_complete r x rest M). eauto.
Qed.

Lemma exec_matches (r : JS.regex) (s : JS.chars) :
  is_Some (JS.exec r s) <-> exists x rest, s = x ++ rest /\ matches r x rest.
Proof.
  split.
  - intros [[m caps] E]. now apply exec_sound in E.
  - intros (x & rest & -> & M). now apply exec_complete.
Qed.

(** ** The sign-in page *)

Section SignInForm.
Import JS AuthForm.

(** A part of an address: not empty, without white space and [@]. *)
Definition emailPart (s : string) : bool :=
  negb (String.eqb s "") && forallb emailChar (of_string s).

Lemma matches_plus (p : ascii -> bool) (x rest : chars) :
  matches (Plus p) x rest <-> x <> [] /\ forallb p x = true.
Proof.
  unfold Plus. split.
  - intros M.
    inversion M as [| |? ? a b ? M1 M2| | | | | |]; subst. clear M.
    inversion M1 as [|? c ? P| | | | | | |]; subst. clear M1.
    inversion M2 as [| | | | |? ? ? X| | |]; subst. clear M2.
    split; [discriminate|]. cbn [app forallb]. now rewrite P.
  - intros [N X]. destruct x as [|c x]; [contradiction|].
    cbn [forallb] in X. apply andb_true_iff in X as [P X].
    change (c :: x) with ([c] ++ x). constructor; now constructor.
Qed.

Lemma matches_char (c : ascii) (x rest : chars) :
  matches (Chr (isChar c)) x rest <-> x = [c].
Proof.
  split.
  - apply matches_literal. exact c.
  - intros ->. constructor. apply Ascii.eqb_refl.
Qed.

Lemma emailPart_chars (s : string) :
  emailPart s = true <-> of_string s <> [] /\ forallb emailChar (of_string s) = true.
Proof.
  unfold emailPart. rewrite andb_true_iff, negb_true_iff, String.eqb_neq.
  split; intros [N X]; (split; [|exact X]).
  - intros E. apply N. now apply of_string_inj.
  - intros ->. now apply N.
Qed.

Lemma matches_emailRegex (x rest : chars) :
  matches emailRegex x rest <->
  rest = [] /\
  exists l d t, x = l ++ "@"%char :: d ++ "."%char :: t /\
    (l <> [] /\ forallb emailChar l = true) /\
    (d <> [] /\ forallb emailChar d = true) /\
    (t <> [] /\ forallb emailChar t = true).
Proof.
  unfold emailRegex. split.
  - intros M.
    inversion M as [| |? ? l x1 ? M1 M2| | | | | |]; subst. clear M.
    apply matches_plus in M1.
    inversion M2 as [| |? ? o x2 ? O M3| | | | | |]; subst. clear M2.
    apply matches_char in O. subst o.
    inversion M3 as [| |? ? d x3 ? M4 M5| | | | | |]; subst. clear M3.
    apply matches_plus in M4.
    inversion M5 as [| |? ? o x4 ? O M6| | | | | |]; subst. clear M5.
    apply matches_char in O. subst o.
    inversion M6 as [| |? ? t x5 ? M7 M8| | | | | |]; subst. clear M6.
    apply matches_plus in M7.
    inversion M8; subst.
    split; [reflexivity|]. exists l, d, t. rewrite app_nil_r.
    now repeat split.
  - intros (-> & l & d & t & -> & L & D & T).
    replace (l ++ "@"%char :: d ++ "."%char :: t)
      with (l ++ ["@"%char] ++ d ++ ["."%char] ++ t ++ []).
    2:{ cbn [app]. now rewrite app_nil_r. }
    repeat (constructor; try (apply matches_plus; assumption);
            try (now apply matches_char)).
Qed.

(** X10. [validateEmail] accepts exactly the addresses of the form
    [l@d.t] whose three parts are not empty and hold neither white space
    nor [@]. *)
Theorem validateEmail_accepts (email : string) :
  validateEmail email = true <->
  exists l d t,
    email = l +:+ "@" +:+ d +:+ "." +:+ t /\
    emailPart l = true /\ emailPart d = true /\ emailPart t = true.
Proof.
  unfold validateEmail. rewrite bool_decide_eq_true, exec_matches. split.
  - intros (x & rest & E & M).
    apply matches_emailRegex in M as (-> & l & d & t & -> & L & D & T).
    rewrite app_nil_r in E.
    exists (to_string l), (to_string d), (to_string t).
    rewrite !emailPart_chars, !of_to_string. split; [|now repeat split].
    apply of_string_inj. rewrite E, !of_string_app, !of_to_string.
    reflexivity.
  - intros (l & d & t & -> & L & D & T).
    apply emailPart_chars in L, D, T.
    exists (of_string (l +:+ "@" +:+ d +:+ "." +:+ t)), [].
    split; [now rewrite app_nil_r|].
    apply matches_emailRegex. split; [reflexivity|].
    exists (of_string l), (of_string d), (of_string t).
    split; [|now repeat split].
    now rewrite !of_string_app.
Qed.

(** A password that passes the checks of the registration form. *)
Definition strong (password : string) : bool :=
  let p := of_string password in
  (8 <=? length p)%nat && existsb isUpper p && existsb isLower p &&
  existsb isDigit p && existsb isSpecial p.

(** A form the submit handler sends. *)
Definition acceptable (login : bool) (f : Form) : bool :=
  if login then negb (blank (username f))
  else negb (blank (name f)) && validateEmail (email f) &&
       strong (password f).

Lemma validatePassword_strong (login : bool) (password : string) :
  (0 <? length (validatePassword login password))%nat && negb login
  = negb login && negb (strong password).
Proof.
  unfold validatePassword, strong. destruct login; [reflexivity|].
  cbn [negb andb]. rewrite andb_true_r.
  destruct (Nat.ltb_spec (length (of_string password)) 8) as [L|L].
  - apply Nat.leb_gt in L. now rewrite L.
  - apply Nat.leb_le in L. rewrite L. cbn [app andb].
    destruct (existsb isUpper _); [|reflexivity].
    destruct (existsb isLower _); [|reflexivity].
    destruct (existsb isDigit _); [|reflexivity].
    now destruct (existsb isSpecial _).
Qed.

Lemma validate_acceptable (p : Page) (f : Form) :
  isLogin (fst (validate p f)) = isLogin p /\
  snd (validate p f) = negb (acceptable (isLogin p) f) /\
  (snd (validate p f) = true -> messages (fst (validate p f)) <> ∅).
Proof.
  unfold validate, acceptable, clearErrors. cbn [isLogin fst snd].
  rewrite validatePassword_strong.
  destruct (isLogin p); cbn [negb andb orb].
  - destruct (blank (username f)); cbn [isLogin messages showError].
    + repeat split. intros _. apply insert_non_empty.
    + repeat split. discriminate.
  - destruct (blank (name f)), (validateEmail (email f)),
      (strong (password f));
      cbn [negb andb orb isLogin messages showError].
    all: split; [reflexivity|]; split; [reflexivity|].
    all: try discriminate.
    all: intros _; apply insert_non_empty.
Qed.

(** X11. The submit handler of the sign-in page sends a form exactly when
    it passes the checks: the sign-in form with a user name that is not
    blank (the password is not looked at), the registration form with a
    name that is not blank, an address [validateEmail] accepts and a
    password of eight characters or more with an upper-case letter, a
    lower-case letter, a digit and a special character. The request carries
    the fields as typed. A form that is not sent shows a message and leaves
    the browser as it is. *)
Theorem submit_sends_checked_forms `{Host} (now : Z)
    (server : Request -> Reply) (p : Page) (f : Form) (b : Browser.t) :
  let '(p', b', sent) := submit now server p f b in
  sent = (if acceptable (isLogin p) f then Some (request (isLogin p) f)
          else None) /\
  (sent = None -> b' = b /\ messages p' <> ∅).
Proof.
  unfold submit.
  destruct (validate_acceptable p f) as (L & E & M).
  destruct (validate p f) as [p1 hasError]. cbn [fst snd] in L, E, M.
  subst hasError. destruct (acceptable (isLogin p) f); cbn [negb].
  - rewrite L.
    destruct (answered now p1 (server (request (isLogin p) f)) b)
      as [p2 b2].
    split; [reflexivity | discriminate].
  - split; [reflexivity|]. intros _. split; [reflexivity | now apply M].
Qed.

Lemma inline_validate_acceptable (p : Page) (f : Form) :
  isLogin (fst (AuthPage.validate p f)) = isLogin p /\
  snd (AuthPage.validate p f) =
  negb (acceptable (isLogin p) f &&
        negb (isLogin p && blank (password f))).
Proof.
  unfold AuthPage.validate, AuthPage.validatePassword, acceptable,
    clearErrors.
  cbn [isLogin fst snd].
  pose proof (validatePassword_strong false (password f)) as V.
  cbn [negb andb] in V. rewrite andb_true_r in V. rewrite V.
  destruct (isLogin p); cbn [negb andb orb].
  - destruct (blank (username f)), (blank (password f)); now split.
  - destruct (blank (name f)), (validateEmail (email f)),
      (strong (password f)); now split.
Qed.

Lemma answered_same_browser `{Host} (now : Z) (p1 p2 : Page) (reply : Reply)
    (b : Browser.t) :
  isLogin p1 = isLogin p2 ->
  snd (answered now p1 reply b) = snd (AuthPage.answered now p2 reply b).
Proof.
  intros L. unfold answered, AuthPage.answered. rewrite L.
  destruct reply as [|ok [data|]]; [reflexivity| |reflexivity].
  destruct ok; [|reflexivity]. now destruct (isLogin p2).
Qed.

(** X12. The script inside the page (auth.html) makes the checks of the
    script file and one more, a password that is not blank on the sign-in
    form. So it sends the request the script file sends, with the same
    effect on the storage, the cookies and the location, unless the
    password of a sign-in is blank: then it sends nothing. *)
Theorem inline_script_asks_for_password `{Host} (now : Z)
    (server : Request -> Reply) (p : Page) (f : Form) (b : Browser.t) :
  let '(_, b1, sent1) := submit now server p f b in
  let '(_, b2, sent2) := AuthPage.submit now server p f b in
  if isLogin p && blank (password f)
  then sent2 = None /\ b2 = b
  else sent2 = sent1 /\ b2 = b1.
Proof.
  unfold submit, AuthPage.submit.
  destruct (validate_acceptable p f) as (L1 & E1 & _).
  destruct (inline_validate_acceptable p f) as (L2 & E2).
  destruct (validate p f) as [p1 e1]. cbn [fst snd] in L1, E1. subst e1.
  destruct (AuthPage.validate p f) as [p2 e2]. cbn [fst snd] in L2, E2.
  subst e2. rewrite L1, L2.
  pose proof (answered_same_browser now p1 p2
                (server (request (isLogin p) f)) b) as S.
  rewrite L1, L2 in S. specialize (S eq_refl).
  destruct (answered now p1 (server (request (isLogin p) f)) b) as [q1 b1].
  destruct (AuthPage.answered now p2 (server (request (isLogin p) f)) b)
    as [q2 b2].
  cbn [snd] in S. subst b2.
  destruct (acceptable (isLogin p) f) eqn:A;
    destruct (isLogin p && blank (password f)) eqn:B;
    cbn [negb andb]; split; reflexivity.
Qed.

End SignInForm.

(** ** Matches and their groups *)

Section Captures.
Import JS.

(** [captured r x rest caps caps']: the text [x], followed by [rest], is in
    the language of [r], and matching it turns the groups [caps] into
    [caps']. *)
Inductive captured : regex -> chars -> chars -> captures -> captures -> Prop :=
| captured_eps rest caps : captured Eps [] rest caps caps
| captured_chr p c rest caps :
    p c = true -> captured (Chr p) [c] rest caps caps
| captured_seq r1 r2 x y rest caps caps1 caps2 :
    captured r1 x (y ++ rest) caps caps1 ->
    captured r2 y rest caps1 caps2 ->
    captured (r1 +> r2) (x ++ y) rest caps caps2
| captured_alt_l r1 r2 x rest caps caps' :
    captured r1 x rest caps caps' -> captured (Alt r1 r2) x rest caps caps'
| captured_alt_r r1 r2 x rest caps caps' :
    captured r2 x rest caps caps' -> captured (Alt r1 r2) x rest caps caps'
| captured_star p x rest caps :
    forallb p x = true -> captured (Star p) x rest caps caps
| captured_lazy p x rest caps :
    forallb p x = true -> captured (LazyStar p) x rest caps caps
| captured_group n r x rest caps caps' :
    captured r x rest caps caps' ->
    captured (Group n r) x rest caps ((n, x) :: caps')
| captured_eoi caps : captured Eoi [] [] caps caps.

Lemma rmatch_captured {R} (r : regex) :
  forall (s : chars) (caps : captures) (k : chars -> captures -> option R)
         (res : R),
    rmatch r s caps k = Some res ->
    exists x s' caps',
      s = x ++ s' /\ captured r x s' caps caps' /\ k s' caps' = Some res.
Proof.
  induction r as [|p|r1 IH1 r2 IH2|r1 IH1 r2 IH2|p|p|n r IH|];
    intros s caps k res M.
  - exists [], s, caps. repeat split; [constructor | exact M].
  - destruct s as [|c s]; [discriminate|]. cbn [rmatch] in M.
    destruct (p c) eqn:P; [|discriminate].
    exists [c], s, caps. repeat split; [now constructor | exact M].
  - cbn [rmatch] in M.
    apply IH1 in M as (x & s1 & caps1 & -> & M1 & M).
    apply IH2 in M as (y & s2 & caps2 & -> & M2 & M).
    exists (x ++ y), s2, caps2. rewrite <- app_assoc.
    repeat split; [econstructor; eassumption | exact M].
  - cbn [rmatch] in M. unfold orelse in M.
    destruct (rmatch r1 s caps k) eqn:M1.
    + apply IH1 in M1 as (x & s' & caps' & -> & M1 & K).
      exists x, s', caps'. repeat split; [now apply captured_alt_l|].
      congruence.
    + apply IH2 in M as (x & s' & caps' & -> & M2 & K).
      exists x, s', caps'. repeat split; [now apply captured_alt_r | exact K].
  - induction s as [|c s IHs].
    + exists [], [], caps. repeat split; [now constructor | exact M].
    + rewrite star_cons in M. destruct (p c) eqn:P.
      * unfold orelse in M. destruct (rmatch (Star p) s caps k) eqn:S.
        -- destruct (IHs M) as (x & s' & caps' & E & Mx & K).
           exists (c :: x), s', caps'. rewrite E.
           inversion Mx; subst. repeat split; [|exact K].
           constructor. cbn [forallb]. now rewrite P.
        -- exists [], (c :: s), caps.
           repeat split; [now constructor | exact M].
      * exists [], (c :: s), caps.
        repeat split; [now constructor | exact M].
  - induction s as [|c s IHs].
    + rewrite lazy_nil in M. exists [], [], caps.
      repeat split; [now constructor|].
      unfold orelse in M. now destruct (k [] caps).
    + rewrite lazy_cons in M.
      unfold orelse in M. destruct (k (c :: s) caps) eqn:K.
      * exists [], (c :: s), caps.
        repeat split; [now constructor | congruence].
      * destruct (p c) eqn:P; [|discriminate].
        destruct (IHs M) as (x & s' & caps' & E & Mx & K').
        exists (c :: x), s', caps'. rewrite E.
        inversion Mx; subst. repeat split; [|exact K'].
        constructor. cbn [forallb]. now rewrite P.
  - cbn [rmatch] in M.
    apply IH in M as (x & s' & caps' & -> & Mx & K).
    rewrite take_consumed in K.
    exists x, s', ((n, x) :: caps').
    repeat split; [now constructor | exact K].
  - destruct s; [|discriminate]. cbn [rmatch] in M.
    exists [], [], caps. repeat split; [constructor | exact M].
Qed.

(** What [exec] returns is a text of the language at the head of the input,
    with the groups of its match. *)
Lemma exec_captured (r : regex) (s m : chars) (caps : captures) :
  exec r s = Some (m, caps) ->
  exists rest, s = m ++ rest /\ captured r m rest [] caps.
Proof.
  unfold exec. intros E.
  apply rmatch_captured in E as (x & s' & caps' & -> & M & K).
  rewrite take_consumed in K. injection K as <- <-. eauto.
Qed.

(** *** Replacing all matches *)

Lemma replace_from_skip (r : regex) (f : chars -> captures -> chars)
    (m rest : chars) :
  replace_from r f (length m) (m ++ rest) = replace_from r f 0 rest.
Proof. induction m as [|c m IH]; [reflexivity | exact IH]. Qed.

(** Where the pattern matches, the replacement is written and the scan goes
    on after the match. *)
Lemma replace_from_match (r : regex) (f : chars -> captures -> chars)
    (c : ascii) (m rest : chars) (caps : captures) :
  exec r (c :: m ++ rest) = Some (c :: m, caps) ->
  replace_from r f 0 (c :: m ++ rest) =
  f (c :: m) caps ++ replace_from r f 0 rest.
Proof.
  intros E. cbn [replace_from]. rewrite E. now rewrite replace_from_skip.
Qed.

(** A text in which the pattern matches nowhere is copied. *)
Lemma replace_from_prefix (r : regex) (f : chars -> captures -> chars)
    (p rest : chars) :
  (forall c t, (c :: t) `suffix_of` p -> exec r (c :: t ++ rest) = None) ->
  replace_from r f 0 (p ++ rest) = p ++ replace_from r f 0 rest.
Proof.
  induction p as [|c p IH]; intros N; [reflexivity|].
  cbn [app replace_from]. rewrite (N c p) by reflexivity.
  f_equal. apply IH. intros c' t T. apply N. now apply suffix_cons_r.
Qed.

Lemma replace_all_unmatched (r : regex) (f : chars -> captures -> chars)
    (s : chars) :
  (forall t, t `suffix_of` s -> exec r t = None) ->
  replace_all r f s = s.
Proof.
  intros N. unfold replace_all.
  rewrite <- (app_nil_r s) at 1. rewrite replace_from_prefix.
  - cbn [replace_from]. rewrite (N []) by apply suffix_nil.
    apply app_nil_r.
  - intros c t T. rewrite app_nil_r. now apply N.
Qed.

(** A replacement that is never empty leaves no text empty. *)
Lemma replace_all_nonempty (r : regex) (f : chars -> captures -> chars)
    (s : chars) :
  (forall t m caps x, exec r t = Some (m, caps) -> f x caps <> []) ->
  s <> [] -> replace_all r f s <> [].
Proof.
  intros F N. destruct s as [|c s]; [contradiction|].
  unfold replace_all. cbn [replace_from].
  destruct (exec r (c :: s)) as [[[|x m] caps]|] eqn:E.
  - now destruct (f [] caps).
  - specialize (F _ _ _ (c :: m) E).
    destruct (f (c :: m) caps); [contradiction | discriminate].
  - discriminate.
Qed.

End Captures.

(** Taking a match of a pattern apart. *)
Ltac take_apart :=
  repeat match goal with
    | M : captured (JS.Seq _ _) _ _ _ _ |- _ => inversion M; subst; clear M
    | M : captured (JS.Group _ _) _ _ _ _ |- _ => inversion M; subst; clear M
    | M : captured (JS.Alt _ _) _ _ _ _ |- _ => inversion M; subst; clear M
    | M : captured (JS.Chr _) _ _ _ _ |- _ => inversion M; subst; clear M
    | M : captured (JS.Star _) _ _ _ _ |- _ => inversion M; subst; clear M
    | M : captured (JS.LazyStar _) _ _ _ _ |- _ => inversion M; subst; clear M
    | M : captured JS.Eps _ _ _ _ |- _ => inversion M; subst; clear M
    | M : captured JS.Eoi _ _ _ _ |- _ => inversion M; subst; clear M
    | P : JS.isChar _ _ = true |- _ => apply Ascii.eqb_eq in P; subst
    end.

(** ** The converter on plain text *)

Section PlainText.
Import JS TextMode.
#[local] Arguments Ascii.eqb : simpl never.
#[local] Arguments isChar : simpl never.

(** A character of the class [p] stands directly before one of [q]. *)
Fixpoint adjacent (p q : ascii -> bool) (s : chars) : bool :=
  match s with
  | c :: (d :: _) as s' => (p c && q d) || adjacent p q s'
  | _ => false
  end.

Lemma without_In (x : ascii) (s : chars) :
  without x s = true -> ~ In x s.
Proof.
  unfold without. rewrite forallb_forall. intros W I.
  specialize (W x I). now rewrite Ascii.eqb_refl in W.
Qed.

Lemma without_suffix (x : ascii) (s t : chars) :
  without x s = true -> t `suffix_of` s -> without x t = true.
Proof.
  intros W [pre ->]. rewrite without_app in W.
  now apply andb_true_iff in W as [_ W].
Qed.

Lemma adjacent_suffix (p q : ascii -> bool) (s t : chars) :
  adjacent p q s = false -> t `suffix_of` s -> adjacent p q t = false.
Proof.
  intros A [pre ->]. induction pre as [|c pre IH]; [exact A|].
  apply IH. cbn [app adjacent] in A.
  destruct (pre ++ t); [reflexivity|].
  now apply orb_false_iff in A as [_ A].
Qed.

(** A pattern every match of which holds the character [x] finds nothing in
    a text without [x]. *)
Lemma exec_needs (r : regex) (x : ascii) (s : chars) :
  (forall m rest caps, captured r m rest [] caps -> In x m) ->
  without x s = true ->
  forall t, t `suffix_of` s -> exec r t = None.
Proof.
  intros I W t T. destruct (exec r t) as [[m caps]|] eqn:E; [|reflexivity].
  exfalso. apply exec_captured in E as (rest & -> & M).
  apply (without_In x (m ++ rest)); [now apply (without_suffix x s)|].
  apply in_or_app. left. now apply (I m rest caps).
Qed.

Lemma explicitTimes_star m rest caps :
  captured explicitTimes m rest [] caps -> In "*"%char m.
Proof.
  unfold explicitTimes. intros M. take_apart.
  rewrite !in_app_iff. right. right. left. now left.
Qed.

Lemma termPower_caret m rest caps :
  captured termPower m rest [] caps -> In "^"%char m.
Proof.
  unfold termPower, Plus. intros M. take_apart.
  rewrite !in_app_iff. right. right. now left.
Qed.

Lemma parenExponent_caret m rest caps :
  captured parenExponent m rest [] caps -> In "^"%char m.
Proof.
  unfold parenExponent, Opt. intros M.
  inversion M; subst; clear M. take_apart; now left.
Qed.

Lemma negExponent_caret m rest caps :
  captured negExponent m rest [] caps -> In "^"%char m.
Proof. unfold negExponent, Plus. intros M. take_apart. now left. Qed.

Lemma bareExponent_caret m rest caps :
  captured bareExponent m rest [] caps -> In "^"%char m.
Proof. unfold bareExponent, Plus. intros M. take_apart. now left. Qed.

Lemma digitLetter_adjacent (s : chars) :
  adjacent isDigit isAlpha s = false ->
  forall t, t `suffix_of` s -> exec digitLetter t = None.
Proof.
  intros A t T. apply (adjacent_suffix _ _ _ _ A) in T.
  destruct (exec digitLetter t) as [[m caps]|] eqn:E; [|reflexivity].
  exfalso. apply exec_captured in E as (rest & -> & M).
  unfold digitLetter in M. take_apart.
  cbn [app adjacent] in T.
  match goal with D : isDigit _ = true, L : isAlpha _ = true |- _ =>
    rewrite D, L in T end.
  discriminate.
Qed.

(** Text without [*], [^] and a digit directly before a letter. *)
Definition plain (s : chars) : bool :=
  without "*" s && without "^" s && negb (adjacent isDigit isAlpha s).

Lemma rewriteSteps_plain (s : chars) :
  plain s = true -> rewriteSteps s = s.
Proof.
  unfold plain. rewrite !andb_true_iff, negb_true_iff.
  intros [[T C] A]. unfold rewriteSteps.
  rewrite (replace_all_unmatched explicitTimes)
    by (apply (exec_needs _ "*"); [apply explicitTimes_star | exact T]).
  rewrite (replace_all_unmatched digitLetter)
    by now apply digitLetter_adjacent.
  rewrite (replace_all_unmatched termPower)
    by (apply (exec_needs _ "^"); [apply termPower_caret | exact C]).
  rewrite (replace_all_unmatched parenExponent)
    by (apply (exec_needs _ "^"); [apply parenExponent_caret | exact C]).
  rewrite (replace_all_unmatched negExponent)
    by (apply (exec_needs _ "^"); [apply negExponent_caret | exact C]).
  apply (replace_all_unmatched bareExponent).
  apply (exec_needs _ "^"); [apply bareExponent_caret | exact C].
Qed.

(** X13. The converter returns plain text as it is: an input without [*],
    without [^] and without a digit directly before a letter is the result,
    under every operation type but [fourier], and under [fourier] too when
    it holds no [[]. *)
Theorem plain_text_unchanged (operationTypeSelect : option string)
    (input : string) :
  plain (of_string input) = true ->
  operationTypeSelect <> Some "fourier" \/
  without "[" (of_string input) = true ->
  processInputToLatex operationTypeSelect input = input.
Proof.
  intros P O. unfold processInputToLatex. rewrite (rewriteSteps_plain _ P).
  destruct O as [O|B].
  - destruct operationTypeSelect as [value|]; [|apply to_of_string].
    destruct (String.eqb_spec value "fourier") as [->|_];
      [congruence | apply to_of_string].
  - rewrite domainClause_unchanged; [|].
    + destruct (String.eqb _ _); apply to_of_string.
    + intros pre e a b _ _ _ E. rewrite E in B. unfold domainForm in B.
      rewrite !without_app in B. cbn [without forallb] in B.
      rewrite Ascii.eqb_refl in B. cbn in B.
      now rewrite !andb_false_r in B.
Qed.

(** *** Markup is never empty *)

Lemma explicitTimes_group m rest caps :
  captured explicitTimes m rest [] caps -> group 4 caps <> [].
Proof. unfold explicitTimes. intros M. now take_apart. Qed.

Lemma app_nonempty_l {A} (a b : list A) : a <> [] -> a ++ b <> [].
Proof. now destruct a. Qed.

Lemma rewriteSteps_nonempty (s : chars) : s <> [] -> rewriteSteps s <> [].
Proof.
  intros N. unfold rewriteSteps.
  do 3 (apply replace_all_nonempty;
        [intros t m caps x E; apply app_nonempty_l; discriminate|]).
  do 2 (apply replace_all_nonempty;
        [intros t m caps x E; destruct (group 1 caps); discriminate|]).
  apply replace_all_nonempty; [|exact N].
  intros t m caps x E. apply exec_captured in E as (rest & -> & M).
  apply explicitTimes_group in M.
  destruct (group 4 caps); [contradiction|].
  now destruct (group 1 caps), (group 2 caps), (group 3 caps).
Qed.

Lemma domainClause_nonempty (s : chars) : s <> [] -> domainClause s <> [].
Proof.
  intros N. unfold domainClause.
  destruct (search domainSuffix s) as [[m caps]|]; [|exact N].
  destruct (group 1 caps); discriminate.
Qed.

(** An input that is not empty gives markup that is not empty. *)
Lemma processInputToLatex_nonempty (operationTypeSelect : option string)
    (input : string) :
  input <> "" -> processInputToLatex operationTypeSelect input <> "".
Proof.
  intros N. unfold processInputToLatex.
  assert (S : rewriteSteps (of_string input) <> []).
  { apply rewriteSteps_nonempty. intros E. apply N.
    now apply of_string_inj. }
  intros E.
  assert (E' : of_string (to_string
                 (if String.eqb
                       match operationTypeSelect with
                       | Some value => value
                       | None => "solve"
                       end "fourier"
                  then domainClause (rewriteSteps (of_string input))
                  else rewriteSteps (of_string input))) = [])
    by now rewrite E.
  rewrite of_to_string in E'.
  destruct (String.eqb _ _); [|contradiction].
  now apply (domainClause_nonempty _ S).
Qed.

End PlainText.

Section PlainTextExamples.
Import JS TextMode.

Lemma plain_text_unchanged_example :
  processInputToLatex (Some "fourier") "sin(x) + 2" = "sin(x) + 2".
Proof.
  apply plain_text_unchanged; [reflexivity | right; reflexivity].
Defined.

End PlainTextExamples.

(** ** Text mode: the solve button and the markup *)

Section TextModePage.
Context `{Host}.
Import JS Solve SolveRequest TextModeView.

(** The text is more than white space. *)
Definition typed (text : string) : bool := truthy (Some (trim text)).

(** While the text area holds more than white space, the markup of the mode
    is the conversion of that text under the operation type selected. While
    it holds none, and the text areas of earlier [init()] calls hold none
    either, the markup is empty from the first click on: the button was
    enabled by a text that has been deleted since. *)
Definition in_step (v : TextModeView.t) : Prop :=
  (typed (text_input v) = true ->
   TextMode.currentLatex (mode v)
   = TextMode.processInputToLatex (Some (operation_type v)) (text_input v)) /\
  (existsb typed (stale v) = false ->
   solve_disabled v = false \/ pending v <> 0%nat ->
   typed (text_input v) = false ->
   TextMode.currentLatex (mode v) = "").

Lemma renderPreview_typed (operationType inputText : string) :
  typed inputText = true ->
  TextMode.renderPreview (Some operationType) inputText
  = {| TextMode.currentLatex :=
         TextMode.processInputToLatex (Some operationType) inputText |}.
Proof.
  unfold typed. intros T. unfold TextMode.renderPreview. now rewrite T.
Qed.

Lemma renderPreview_blank (operationType inputText : string) :
  typed inputText = false ->
  TextMode.renderPreview (Some operationType) inputText
  = {| TextMode.currentLatex := "" |}.
Proof.
  unfold typed. intros T. unfold TextMode.renderPreview. now rewrite T.
Qed.

Lemma typed_nonempty (inputText : string) :
  typed inputText = true -> inputText <> "".
Proof. intros T ->. discriminate. Qed.

(** The listeners of [change] that belong to blank text areas do nothing. *)
Lemma changed_blank (value : string) (tm : TextMode.t)
    (texts : list string) :
  existsb typed texts = false -> foldl (changed value) tm texts = tm.
Proof.
  revert tm. induction texts as [|text texts IH]; intros tm; [reflexivity|].
  cbn [existsb foldl]. intros E. apply orb_false_iff in E as [T E].
  unfold changed at 2. unfold typed in T. rewrite T. now apply IH.
Qed.

Lemma init_in_step (operationType : string) (tm : TextMode.t)
    (earlier : list string) :
  in_step (init operationType tm earlier).
Proof.
  split; [discriminate|]. intros _ [E|P] _; [discriminate E | now destruct P].
Qed.

Lemma handle_stale (s : UserAuth.Session) (saveAvailable : bool)
    (e : Event) (v : TextModeView.t) :
  stale (fst (handle s saveAvailable e v)) = stale v.
Proof.
  destruct e as [value|value| | |reply]; cbn [handle]; try reflexivity.
  1,2: destruct (solve_disabled v); [reflexivity|];
       unfold solveExpression; cbn [negb orb];
       now destruct (negb _).
  now destruct (pending v).
Qed.

Lemma handle_in_step (s : UserAuth.Session) (saveAvailable : bool)
    (e : Event) (v : TextModeView.t) :
  in_step v -> in_step (fst (handle s saveAvailable e v)).
Proof.
  intros I. pose proof I as [I1 I2].
  assert (C : in_step (fst (if solve_disabled v then (v, Nothing)
                            else match solveExpression true
                                         (Some (TextModeView.operation_type v))
                                         v with
                                 | (v', Some request) => (v', Sent request)
                                 | (v', None) => (v', Nothing)
                                 end))).
  { destruct (solve_disabled v) eqn:E; [exact I|].
    unfold solveExpression. cbn [negb orb].
    destruct (negb (truthy (Some (TextMode.currentLatex (mode v)))));
      cbn [fst]; [exact I|].
    split; [exact I1|]. intros S _ T. apply I2; [exact S | now left | exact T]. }
  destruct e as [value|value| | |reply]; cbn [handle fst];
    [| |exact C|exact C|].
  - split;
      cbn [input solve_disabled mode TextModeView.operation_type text_input];
      intros T.
    + now rewrite renderPreview_typed.
    + intros _ B. now rewrite renderPreview_blank.
  - split;
      cbn [change solve_disabled mode TextModeView.operation_type text_input
           stale pending];
      rewrite foldl_app; cbn [foldl]; unfold changed at 1.
    + intros T. unfold typed in T. rewrite T.
      now rewrite renderPreview_typed.
    + intros S E T. pose proof T as T'. unfold typed in T'. rewrite T'.
      rewrite (changed_blank value _ _ S). now apply I2.
  - destruct (pending v) as [|n] eqn:P; [exact I|].
    cbn [resumed fst]. split; [exact I1|].
    cbn [stale solve_disabled pending text_input mode].
    intros S _ T. apply I2; [exact S | right; lia | exact T].
Qed.

Lemma run_in_step (s : UserAuth.Session) (saveAvailable : bool)
    (events : list Event) (v : TextModeView.t) :
  in_step v ->
  in_step (run s saveAvailable events v) /\
  stale (run s saveAvailable events v) = stale v.
Proof.
  revert v. induction events as [|e events IH]; intros v I; [now split|].
  cbn [run foldl].
  destruct (IH (fst (handle s saveAvailable e v))
              (handle_in_step s saveAvailable e v I)) as [J S].
  split; [exact J|]. unfold run in S. rewrite S. apply handle_stale.
Qed.

(** X14. Whatever was typed and selected, whichever requests were sent and
    answered since text mode was shown: a click on the solve button and
    Ctrl+Enter do the same; with the button disabled they send nothing; with
    the button enabled and more than white space in the text area they send
    the conversion of that text under the operation type selected, together
    with that operation type; and with nothing but white space in the text
    area they send nothing, also when an answer that came in has enabled the
    button, as long as no text area of an earlier [init()] holds more than
    white space. *)
Theorem solve_sends_what_is_typed (s : UserAuth.Session)
    (saveAvailable : bool) (operationType : string) (tm : TextMode.t)
    (earlier : list string) (events : list Event) :
  let v := run s saveAvailable events (init operationType tm earlier) in
  handle s saveAvailable Click v = handle s saveAvailable CtrlEnter v /\
  (solve_disabled v = true ->
   snd (handle s saveAvailable Click v) = Nothing) /\
  (solve_disabled v = false -> typed (text_input v) = true ->
   handle s saveAvailable Click v
   = ({| text_input := text_input v; solve_disabled := true;
         TextModeView.operation_type := TextModeView.operation_type v;
         mode := mode v; stale := stale v; pending := S (pending v) |},
      Sent {| latex := TextMode.processInputToLatex
                         (Some (TextModeView.operation_type v))
                         (text_input v);
              SolveRequest.operation_type :=
                TextModeView.operation_type v |})) /\
  (existsb typed earlier = false -> typed (text_input v) = false ->
   handle s saveAvailable Click v = (v, Nothing)).
Proof.
  intros v.
  destruct (run_in_step s saveAvailable events _
              (init_in_step operationType tm earlier)) as [[I1 I2] S].
  fold v in I1, I2, S. cbn [init stale] in S.
  split; [reflexivity|]. split; [|split].
  - intros D. cbn [handle]. now rewrite D.
  - intros D T. cbn [handle]. rewrite D.
    unfold solveExpression. cbn [negb orb]. rewrite (I1 T).
    assert (N : TextMode.processInputToLatex
                  (Some (TextModeView.operation_type v)) (text_input v) <> "").
    { apply processInputToLatex_nonempty. now apply typed_nonempty. }
    now rewrite (proj2 (truthy_Some _) N).
  - intros E T. cbn [handle].
    destruct (solve_disabled v) eqn:D; [reflexivity|].
    unfold solveExpression. cbn [negb orb].
    rewrite I2; [reflexivity | now rewrite S | now left | exact T].
Qed.

(** X15. A solution is shown, and an automatic save set up, only for an
    answer with a status of success whose body could be read: a request
    that fails, an answer with another status (its body is not read) and a
    body that cannot be parsed each show ["Error: "] and the message, and
    set up no save. In draw mode no answer sets one up. *)
Theorem failed_solve_saves_nothing (s : UserAuth.Session)
    (saveAvailable : bool) (reply : Reply) :
  (forall d,
     displayed reply (TextMode.displaySolution s saveAvailable) = Solution d ->
     exists status data,
       reply = Answered true status (Ok data) /\
       TextMode.displaySolution s saveAvailable data = Ok d /\
       (autoSave_scheduled d = true ->
        hasError data = false /\
        UserAuth.window_isAuthenticated s = true)) /\
  (forall message,
     displayed (Rejected message) (TextMode.displaySolution s saveAvailable)
     = Error ("Error: " +:+ message)) /\
  (forall status body,
     displayed (Answered false status body)
       (TextMode.displaySolution s saveAvailable)
     = Error ("Error: Server responded with status: " +:+
              JSString.Number_toString status)) /\
  (forall status message,
     displayed (Answered true status (Throw message))
       (TextMode.displaySolution s saveAvailable)
     = Error ("Error: " +:+ message)) /\
  (forall d,
     displayed reply DrawMode.displaySolution = Solution d ->
     autoSave_scheduled d = false).
Proof.
  split; [|split; [|split; [|split]]]; try reflexivity.
  - intros d D. unfold displayed in D.
    destruct reply as [message|[|] status [data|message]];
      try discriminate.
    cbn [received bind] in D.
    destruct (TextMode.displaySolution s saveAvailable data) as [d'|]
      eqn:E; [|discriminate].
    injection D as ->. exists status, data.
    split; [reflexivity|]. split; [exact E|].
    intros A. unfold TextMode.displaySolution in E.
    destruct (showResult data); [|discriminate].
    cbn [bind] in E. injection E as <-. cbn [autoSave_scheduled] in A.
    apply andb_true_iff in A as [A E]. apply andb_true_iff in A as [A _].
    apply negb_true_iff in E. now split.
  - intros d D. unfold displayed in D.
    destruct (bind (received reply) DrawMode.displaySolution) as [d'|]
      eqn:E; [|discriminate].
    injection D as ->. destruct (received reply) as [data|]; [|discriminate].
    cbn [bind] in E. unfold DrawMode.displaySolution in E.
    destruct (showResult data); [|discriminate].
    cbn [bind] in E. now injection E as <-.
Qed.

End TextModePage.

(** ** The PDF of a calculation *)

Section PdfName.
Import JS JSString Pdf.

Lemma exec_chr (p : ascii -> bool) (c : ascii) (s : chars) :
  exec (Chr p) (c :: s) = if p c then Some ([c], []) else None.
Proof.
  unfold exec. cbn [rmatch]. destruct (p c); [|reflexivity].
  pose proof (take_consumed [c] s) as T. cbn [app] in T. now rewrite T.
Qed.

(** Replacing every character of a class by one character. *)
Lemma replace_all_class (p : ascii -> bool) (x : ascii) (s : chars) :
  replace_all (Chr p) (fun _ _ => [x]) s
  = map (fun c => if p c then x else c) s.
Proof.
  unfold replace_all. induction s as [|c s IH]; [reflexivity|].
  cbn [replace_from map]. rewrite exec_chr.
  destruct (p c); cbn [length app]; now rewrite IH.
Qed.

(** What becomes of a character of the title in the name of the file. *)
Definition sanitized (c : ascii) : ascii :=
  if isAlnum c then lower c else "_"%char.

(** The characters of a name: lower-case letters, digits and [_]. *)
Definition fileChar (c : ascii) : bool :=
  isLower c || isDigit c || isChar "_" c.

Lemma sanitized_fileChar (c : ascii) : fileChar (sanitized c) = true.
Proof. destruct c as [[] [] [] [] [] [] [] []]; reflexivity. Qed.

Lemma lower_sanitized (c : ascii) :
  lower (if unsafe c then "_"%char else c) = sanitized c.
Proof. destruct c as [[] [] [] [] [] [] [] []]; reflexivity. Qed.

(** X16. The name of the file a PDF is downloaded under is the title with
    every letter in lower case, every character other than a letter a..z,
    A..Z or a digit replaced by [_], and [.pdf] after it: it has the length
    of the title plus four and, before [.pdf], holds nothing but lower-case
    letters, digits and [_]. *)
Theorem downloadName_safe (title : string) :
  let stem := map sanitized (of_string title) in
  downloadName title = to_string stem +:+ ".pdf" /\
  length stem = length (of_string title) /\
  forallb fileChar stem = true.
Proof.
  cbv zeta. split; [|split].
  - unfold downloadName, toLowerCase.
    change (of_string "_") with ["_"%char].
    rewrite replace_all_class, of_to_string, map_map.
    do 2 f_equal. apply map_ext. intros c. apply lower_sanitized.
  - apply length_map.
  - rewrite forallb_forall. intros c I. apply in_map_iff in I as (x & <- & _).
    apply sanitized_fileChar.
Qed.

End PdfName.

Section PdfExplanation.
Import JS JSString Pdf.

Lemma lazy_here {R} p s caps (k : chars -> captures -> option R) res :
  k s caps = Some res -> rmatch (LazyStar p) s caps k = Some res.
Proof.
  intros K. destruct s as [|c s].
  - now rewrite lazy_nil, K.
  - now rewrite lazy_cons, K.
Qed.

(** The lazy repetition of a class takes [x] when what follows it fails at
    every point of [x] and succeeds after it. *)
Lemma lazy_until {R} p (x rest : chars) caps
    (k : chars -> captures -> option R) res :
  forallb p x = true ->
  (forall c t, (c :: t) `suffix_of` x -> k (c :: t ++ rest) caps = None) ->
  k rest caps = Some res ->
  rmatch (LazyStar p) (x ++ rest) caps k = Some res.
Proof.
  intros X F K. induction x as [|c x IH]; [now apply lazy_here|].
  cbn [forallb] in X. apply andb_true_iff in X as [P X].
  cbn [app]. rewrite lazy_cons, (F c x) by reflexivity. rewrite P.
  cbn [orelse]. apply IH; [exact X|].
  intros c' t T. apply F. now apply suffix_cons_r.
Qed.

Lemma head_without (x c : ascii) (t s : chars) :
  without x s = true -> (c :: t) `suffix_of` s -> isChar x c = false.
Proof.
  intros W T. apply (without_suffix x s _ W) in T.
  unfold without in T. cbn [forallb] in T.
  apply andb_true_iff in T as [T _]. apply negb_true_iff in T.
  unfold isChar. now rewrite Ascii.eqb_sym.
Qed.

Lemma rmatch_same {R} (x : ascii) (s : chars) caps
    (k : chars -> captures -> option R) :
  rmatch (Chr (isChar x)) (x :: s) caps k = k s caps.
Proof. rewrite rmatch_chr. unfold isChar. now rewrite Ascii.eqb_refl. Qed.

Lemma rmatch_eps {R} (s : chars) caps (k : chars -> captures -> option R) :
  rmatch Eps s caps k = k s caps.
Proof. reflexivity. Qed.

(** A pattern that begins with a literal character fails elsewhere. *)
Lemma exec_literal_head (x : ascii) (l : chars) (r : regex) (c : ascii)
    (s : chars) :
  isChar x c = false -> exec (literal (x :: l) +> r) (c :: s) = None.
Proof.
  intros C. unfold exec. cbn [literal].
  now rewrite !rmatch_seq, rmatch_chr, C.
Qed.

Lemma exec_bold_head (c : ascii) (s : chars) :
  isChar "*" c = false -> exec bold (c :: s) = None.
Proof. apply (exec_literal_head "*" ["*"%char]). Qed.

Lemma exec_italic_head (c : ascii) (s : chars) :
  isChar "*" c = false -> exec italic (c :: s) = None.
Proof. apply (exec_literal_head "*" []). Qed.

Lemma exec_bold_second (c : ascii) (s : chars) :
  isChar "*" c = false -> exec bold ("*"%char :: c :: s) = None.
Proof.
  intros C. unfold exec, bold.
  change (literal (of_string "**"))
    with (Chr (isChar "*") +> Chr (isChar "*") +> Eps).
  now rewrite !rmatch_seq, rmatch_same, rmatch_seq, rmatch_chr, C.
Qed.

Lemma exec_bold (t q : chars) :
  oneLine t = true -> without "*" t = true ->
  exec bold ("*"%char :: "*"%char :: t ++ "*"%char :: "*"%char :: q)
  = Some ("*"%char :: "*"%char :: t ++ ["*"%char; "*"%char], [(1%nat, t)]).
Proof.
  intros L W. unfold exec, bold.
  change (literal (of_string "**"))
    with (Chr (isChar "*") +> Chr (isChar "*") +> Eps).
  repeat (rewrite ?rmatch_seq, ?rmatch_same, ?rmatch_eps; cbv beta).
  rewrite rmatch_group.
  apply lazy_until; [exact L | |].
  - intros c x T. rewrite !rmatch_seq, rmatch_chr.
    now rewrite (head_without "*" c x t W T).
  - rewrite (take_consumed t).
    repeat (rewrite ?rmatch_seq, ?rmatch_same, ?rmatch_eps; cbv beta).
    do 2 f_equal.
    change ("*"%char :: "*"%char :: t ++ "*"%char :: "*"%char :: q)
      with (["*"%char; "*"%char] ++ t ++ ["*"%char; "*"%char] ++ q).
    change ("*"%char :: "*"%char :: t ++ ["*"%char; "*"%char])
      with (["*"%char; "*"%char] ++ t ++ ["*"%char; "*"%char]).
    replace (["*"%char; "*"%char] ++ t ++ ["*"%char; "*"%char] ++ q)
      with ((["*"%char; "*"%char] ++ t ++ ["*"%char; "*"%char]) ++ q)
      by now rewrite <- !app_assoc.
    apply take_consumed.
Qed.

Lemma exec_italic (t q : chars) :
  oneLine t = true -> without "*" t = true ->
  exec italic ("*"%char :: t ++ "*"%char :: q)
  = Some ("*"%char :: t ++ ["*"%char], [(1%nat, t)]).
Proof.
  intros L W. unfold exec, italic.
  change (literal (of_string "*")) with (Chr (isChar "*") +> Eps).
  repeat (rewrite ?rmatch_seq, ?rmatch_same, ?rmatch_eps; cbv beta).
  rewrite rmatch_group.
  apply lazy_until; [exact L | |].
  - intros c x T. rewrite !rmatch_seq, rmatch_chr.
    now rewrite (head_without "*" c x t W T).
  - rewrite (take_consumed t).
    repeat (rewrite ?rmatch_seq, ?rmatch_same, ?rmatch_eps; cbv beta).
    do 2 f_equal.
    change ("*"%char :: t ++ "*"%char :: q)
      with (["*"%char] ++ t ++ ["*"%char] ++ q).
    change ("*"%char :: t ++ ["*"%char])
      with (["*"%char] ++ t ++ ["*"%char]).
    replace (["*"%char] ++ t ++ ["*"%char] ++ q)
      with ((["*"%char] ++ t ++ ["*"%char]) ++ q)
      by now rewrite <- !app_assoc.
    apply take_consumed.
Qed.

Lemma replace_from_copy (r : regex) (f : chars -> captures -> chars)
    (c : ascii) (s : chars) :
  exec r (c :: s) = None ->
  replace_from r f 0 (c :: s) = c :: replace_from r f 0 s.
Proof. intros E. cbn [replace_from]. now rewrite E. Qed.

Lemma replace_from_without (r : regex) (f : chars -> captures -> chars)
    (x : ascii) (p rest : chars) :
  (forall c s, isChar x c = false -> exec r (c :: s) = None) ->
  without x p = true ->
  replace_from r f 0 (p ++ rest) = p ++ replace_from r f 0 rest.
Proof.
  intros F W. apply replace_from_prefix. intros c t T. apply F.
  now apply (head_without x c t p).
Qed.

Lemma replace_all_without (r : regex) (f : chars -> captures -> chars)
    (x : ascii) (s : chars) :
  (forall c s, isChar x c = false -> exec r (c :: s) = None) ->
  exec r [] = None ->
  without x s = true ->
  replace_all r f s = s.
Proof.
  intros F E W. unfold replace_all. rewrite <- (app_nil_r s) at 1.
  rewrite (replace_from_without r f x s [] F W). cbn [replace_from].
  rewrite E. apply app_nil_r.
Qed.

Lemma exec_lineFeed_head (c : ascii) (s : chars) :
  isChar "010" c = false -> exec lineFeed (c :: s) = None.
Proof. intros C. unfold lineFeed. now rewrite exec_chr, C. Qed.

Lemma default_Some {A} (d x : A) : default d (Some x) = x.
Proof. reflexivity. Qed.

(** Text between two pairs of stars, and text between two stars. *)
Definition strong_text (p t q : chars) : string :=
  to_string (p ++ of_string "**" ++ t ++ of_string "**" ++ q).
Definition em_text (p t q : chars) : string :=
  to_string (p ++ of_string "*" ++ t ++ of_string "*" ++ q).

(** X17. The explanation in the preview of a PDF: text of one line between
    two pairs of stars is put into [<strong>], text of one line between two
    single stars into [<em>], the stars are dropped, and text without stars
    and line feeds is left as it is. Here [p], [t] and [q] hold no star and
    [p] and [q] no line feed; the text between single stars is not empty. *)
Theorem explanation_emphasis (p t q : chars) :
  without "*" p = true -> without "*" t = true -> without "*" q = true ->
  without "010" p = true -> without "010" q = true -> oneLine t = true ->
  processedExplanation (Some (strong_text p t q))
  = to_string (p ++ of_string "<strong>" ++ t ++ of_string "</strong>" ++ q)
  /\
  (t <> [] ->
   processedExplanation (Some (em_text p t q))
   = to_string (p ++ of_string "<em>" ++ t ++ of_string "</em>" ++ q)) /\
  (p <> [] -> processedExplanation (Some (to_string p)) = to_string p).
Proof.
  intros Wp Wt Wq Lp Lq Lt.
  assert (Nt : without "010" t = true).
  { unfold oneLine in Lt. unfold without. rewrite forallb_forall in *.
    intros c I. specialize (Lt c I). unfold dot, isLineTerminator in Lt.
    apply negb_true_iff in Lt. apply orb_false_iff in Lt as [Lt _].
    apply negb_true_iff. apply Ascii.eqb_neq. intros ->. discriminate. }
  assert (T : forall s, s <> [] -> truthy (Some (to_string s)) = true).
  { intros s N. apply truthy_Some. intros E. apply N.
    rewrite <- (of_to_string s), E. reflexivity. }
  assert (Plain : forall s, without "*" s = true -> without "010" s = true ->
            replace_all lineFeed (fun _ _ => of_string "<br>")
              (replace_all italic
                 (fun _ g => of_string "<em>" ++ group 1 g ++ of_string "</em>")
                 s) = s).
  { intros s Ws Ls.
    rewrite (replace_all_without italic _ "*" s exec_italic_head eq_refl Ws).
    apply (replace_all_without lineFeed _ "010" s exec_lineFeed_head eq_refl Ls). }
  split; [|split].
  - unfold processedExplanation, strong_text.
    rewrite T by (destruct p; discriminate).
    rewrite default_Some, of_to_string. f_equal.
    assert (B : replace_all bold
                  (fun _ g => of_string "<strong>" ++ group 1 g ++
                              of_string "</strong>")
                  (p ++ of_string "**" ++ t ++ of_string "**" ++ q)
                = p ++ of_string "<strong>" ++ t ++ of_string "</strong>" ++ q).
    { unfold replace_all.
      rewrite (replace_from_without bold _ "*" p _ exec_bold_head Wp).
      f_equal. change (of_string "**") with ["*"%char; "*"%char].
      cbn [app].
      replace ("*"%char :: "*"%char :: t ++ "*"%char :: "*"%char :: q)
        with ("*"%char :: ("*"%char :: t ++ ["*"%char; "*"%char]) ++ q)
        by (cbn [app]; now rewrite <- app_assoc).
      rewrite (replace_from_match bold _ _ _ _ [(1%nat, t)]).
      2:{ cbn [app]. rewrite <- app_assoc. now apply exec_bold. }
      cbn [group Nat.eqb]. rewrite <- !app_assoc. do 3 f_equal.
      apply (replace_all_without bold _ "*" q exec_bold_head eq_refl Wq). }
    rewrite B. apply Plain.
    + rewrite !without_app, Wp, Wt, Wq. reflexivity.
    + rewrite !without_app, Lp, Nt, Lq. reflexivity.
  - intros N. unfold processedExplanation, em_text.
    rewrite T by (destruct p; discriminate).
    rewrite default_Some, of_to_string. f_equal.
    destruct t as [|c t]; [contradiction|].
    assert (C : isChar "*" c = false).
    { apply (head_without "*" c t (c :: t) Wt). reflexivity. }
    assert (B : replace_all bold
                  (fun _ g => of_string "<strong>" ++ group 1 g ++
                              of_string "</strong>")
                  (p ++ of_string "*" ++ (c :: t) ++ of_string "*" ++ q)
                = p ++ of_string "*" ++ (c :: t) ++ of_string "*" ++ q).
    { unfold replace_all.
      rewrite (replace_from_without bold _ "*" p _ exec_bold_head Wp).
      f_equal. change (of_string "*") with ["*"%char]. cbn [app].
      rewrite replace_from_copy by now apply exec_bold_second.
      f_equal.
      change (c :: t ++ "*"%char :: q) with ((c :: t) ++ "*"%char :: q).
      rewrite (replace_from_without bold _ "*" (c :: t) _ exec_bold_head Wt).
      f_equal. rewrite replace_from_copy.
      - f_equal.
        apply (replace_all_without bold _ "*" q exec_bold_head eq_refl Wq).
      - destruct q as [|d q]; [reflexivity|]. apply exec_bold_second.
        apply (head_without "*" d q (d :: q) Wq). reflexivity. }
    rewrite B.
    assert (I : replace_all italic
                  (fun _ g => of_string "<em>" ++ group 1 g ++ of_string "</em>")
                  (p ++ of_string "*" ++ (c :: t) ++ of_string "*" ++ q)
                = p ++ of_string "<em>" ++ (c :: t) ++ of_string "</em>" ++ q).
    { unfold replace_all.
      rewrite (replace_from_without italic _ "*" p _ exec_italic_head Wp).
      f_equal. change (of_string "*") with ["*"%char]. cbn [app].
      replace ("*"%char :: c :: t ++ "*"%char :: q)
        with ("*"%char :: ((c :: t) ++ ["*"%char]) ++ q)
        by (cbn [app]; now rewrite <- app_assoc).
      rewrite (replace_from_match italic _ _ _ _ [(1%nat, c :: t)]).
      2:{ rewrite <- app_assoc. now apply (exec_italic (c :: t) q). }
      cbn [group Nat.eqb].
      pose proof (replace_all_without italic
                    (fun _ g => of_string "<em>" ++ group 1 g ++
                                of_string "</em>")
                    "*" q exec_italic_head eq_refl Wq) as Q.
      unfold replace_all in Q. rewrite Q. now rewrite <- !app_assoc. }
    rewrite I.
    apply (replace_all_without lineFeed _ "010" _ exec_lineFeed_head eq_refl).
    rewrite !without_app, Lp, Nt, Lq. reflexivity.
  - intros N. unfold processedExplanation. rewrite (T p N).
    rewrite default_Some, of_to_string. f_equal.
    rewrite (replace_all_without bold _ "*" p exec_bold_head eq_refl Wp).
    now apply Plain.
Qed.

End PdfExplanation.

Section PdfExamples.
Import JS Pdf.

Lemma explanation_emphasis_example :
  processedExplanation (Some "Use **the rule** here")
  = "Use <strong>the rule</strong> here" /\
  processedExplanation (Some "Use *the rule* here")
  = "Use <em>the rule</em> here" /\
  processedExplanation (Some "Use ") = "Use ".
Proof.
  destruct (explanation_emphasis (of_string "Use ") (of_string "the rule")
              (of_string " here") eq_refl eq_refl eq_refl eq_refl eq_refl
              eq_refl) as (S & E & P).
  split; [exact S|]. split; [apply E | apply P]; discriminate.
Defined.

End PdfExamples.

(** ** Draw mode: the recognized markup *)

Section Occurrences.
Import JS JSString.
#[local] Arguments Ascii.eqb : simpl never.

(** A text that does not occur in [s] stands at the head of no suffix of
    [s]. *)
Lemma includes_suffix (sub s t : chars) :
  includes_chars sub s = false -> t `suffix_of` s ->
  starts_with sub t = false.
Proof.
  intros I [pre ->]. induction pre as [|c pre IH].
  - destruct t; cbn [app includes_chars] in I;
      now apply orb_false_iff in I as [I _].
  - apply IH. cbn [app includes_chars] in I.
    now apply orb_false_iff in I as [_ I].
Qed.

Lemma includes_app_r (sub a b : chars) :
  includes_chars sub b = true -> includes_chars sub (a ++ b) = true.
Proof.
  intros I. induction a as [|c a IH]; [exact I|].
  cbn [app includes_chars]. rewrite IH. apply orb_true_r.
Qed.

Lemma starts_with_app_l (sub a b : chars) :
  starts_with sub a = true -> starts_with sub (a ++ b) = true.
Proof.
  revert a. induction sub as [|x sub IH]; intros [|c a]; try easy.
  cbn [starts_with app]. rewrite !andb_true_iff. intros [E S].
  split; [exact E | now apply IH].
Qed.

Lemma includes_app_l (sub a b : chars) :
  includes_chars sub a = true -> includes_chars sub (a ++ b) = true.
Proof.
  induction a as [|c a IH].
  - destruct sub; [now destruct b | discriminate].
  - cbn [app includes_chars]. rewrite !orb_true_iff.
    intros [S|I]; [left | right; now apply IH].
    now apply (starts_with_app_l sub (c :: a) b).
Qed.

(** An occurrence of [p ++ q] holds one of [q], [length p] characters on. *)
Lemma starts_with_drop (p q t : chars) :
  starts_with (p ++ q) t = true -> starts_with q (drop (length p) t) = true.
Proof.
  revert t. induction p as [|x p IH]; intros t; [easy|].
  destruct t as [|c t]; [discriminate|].
  cbn [app starts_with length drop]. rewrite andb_true_iff.
  intros [_ S]. now apply IH.
Qed.

Lemma suffix_drop (n : nat) (t s : chars) :
  t `suffix_of` s -> drop n t `suffix_of` s.
Proof.
  intros T. etransitivity; [|exact T]. apply suffix_drop.
Qed.

Lemma suffix_cons_cases (t : chars) (c : ascii) (s : chars) :
  t `suffix_of` c :: s -> t = c :: s \/ t `suffix_of` s.
Proof.
  intros [[|x pre] E]; [left; now rewrite E | right].
  injection E as -> ->. now exists pre.
Qed.

Lemma suffix_app_cases (t a b : chars) :
  t `suffix_of` a ++ b ->
  (exists t', t = t' ++ b /\ t' `suffix_of` a) \/ t `suffix_of` b.
Proof.
  induction a as [|c a IH]; intros T; [now right|].
  cbn [app] in T. apply suffix_cons_cases in T as [-> | T].
  - left. now exists (c :: a).
  - destruct (IH T) as [(t' & -> & T') | T']; [|now right].
    left. exists t'. split; [reflexivity | now apply suffix_cons_r].
Qed.

Lemma starts_with_prefix (a b t : chars) :
  starts_with (a ++ b) t = true -> starts_with a t = true.
Proof.
  revert t. induction a as [|x a IH]; intros t; [easy|].
  destruct t as [|c t]; [discriminate|].
  cbn [app starts_with]. rewrite !andb_true_iff.
  intros [E S]. split; [exact E | now apply IH].
Qed.

(** The word [align] does not begin in a text that does not hold it and end
    in what comes after, when that begins with no letter of the word. *)
Lemma align_straddle (t rest : chars) (z : ascii) :
  starts_with (of_string "align") t = false ->
  forallb (fun x => negb (Ascii.eqb x z)) (of_string "align") = true ->
  starts_with (of_string "align") (t ++ z :: rest) = false.
Proof.
  change (of_string "align")
    with ["a"%char; "l"%char; "i"%char; "g"%char; "n"%char].
  intros S Z. cbn [forallb] in Z.
  repeat (apply andb_true_iff in Z as [?%negb_true_iff Z]).
  destruct t as [|c1 [|c2 [|c3 [|c4 [|c5 t]]]]];
    cbn [app starts_with] in *;
    repeat match goal with E : Ascii.eqb _ z = false |- _ =>
             rewrite E; clear E end;
    cbn [andb]; rewrite ?andb_false_r; try reflexivity.
  exact S.
Qed.

End Occurrences.

(** The suffixes of a text that is written out. *)
Ltac suffixes U :=
  repeat (apply suffix_cons_cases in U as [-> | U]);
  [.. | apply suffix_nil_inv in U as ->].

Ltac suffixes_cons U :=
  repeat (apply suffix_cons_cases in U as [[= -> ->] | U]);
  [.. | now apply suffix_nil_inv in U].

Section CleanLatex.
Import JS JSString DrawModeView.

(** The two environments around the export, in the pieces the proof takes
    them in. *)
Definition opening : chars := of_string "\begin{".
Definition closing : chars := of_string "\end{".
Definition starred : chars := of_string "align*}".
Definition wrapped (e : chars) : chars :=
  opening ++ starred ++ e ++ closing ++ starred.

Definition holds_align (e : chars) : bool :=
  includes_chars (of_string "align") e.

Lemma align_before_closing (e t rest : chars) :
  holds_align e = false -> t `suffix_of` e ->
  starts_with (of_string "align") (t ++ closing ++ rest) = false.
Proof.
  intros I T. change closing with ("\"%char :: of_string "end{").
  cbn [app]. apply align_straddle; [|reflexivity].
  now apply (includes_suffix _ e).
Qed.

(** Where the word [align] stands in the wrapped export: in the two
    environments put around it. *)
Lemma align_places (e u : chars) :
  holds_align e = false ->
  u `suffix_of` wrapped e ->
  starts_with (of_string "align") u = true ->
  u = starred ++ e ++ closing ++ starred \/ u = starred.
Proof.
  intros I U S. unfold wrapped in U.
  apply suffix_app_cases in U as [(u1 & -> & U) | U].
  { unfold opening in U. cbn in U.
    suffixes U; try (vm_compute in S; discriminate S). now left. }
  apply suffix_app_cases in U as [(u2 & -> & U) | U].
  { unfold starred at 1 in U. cbn in U.
    suffixes U; try (vm_compute in S; discriminate S); [now left|].
    exfalso. cbn [app] in S.
    now rewrite (align_before_closing e e starred I) in S. }
  apply suffix_app_cases in U as [(u3 & -> & U) | U].
  { exfalso. now rewrite (align_before_closing e u3 starred I U) in S. }
  unfold closing, starred in U. cbn in U.
  suffixes U; try (vm_compute in S; discriminate S). now right.
Qed.

Lemma alignAny_starts (s : chars) :
  starts_with (of_string "align") s = false -> exec alignAny s = None.
Proof.
  intros S. destruct (exec alignAny s) as [[m caps]|] eqn:E; [|reflexivity].
  exfalso. apply exec_captured in E as (rest & -> & M).
  unfold alignAny in M.
  change (of_string "align")
    with ["a"%char; "l"%char; "i"%char; "g"%char; "n"%char] in *.
  cbn [literal] in M. take_apart. vm_compute in S. discriminate.
Qed.

Lemma exec_alignAny (c : ascii) (rest : chars) :
  dot c = true ->
  exec alignAny (of_string "align" ++ c :: rest)
  = Some (of_string "align" ++ [c], [(1%nat, of_string "align" ++ [c])]).
Proof.
  intros D. unfold exec, alignAny.
  change (of_string "align")
    with ["a"%char; "l"%char; "i"%char; "g"%char; "n"%char].
  cbn [literal app]. rewrite rmatch_group.
  repeat (rewrite ?rmatch_seq, ?rmatch_same, ?rmatch_eps; cbv beta).
  rewrite rmatch_chr, D.
  pose proof (take_consumed
                ["a"%char; "l"%char; "i"%char; "g"%char; "n"%char; c] rest)
    as T.
  cbn [app] in T. now rewrite T.
Qed.

Lemma suffix_wrapped (e pre p rest : chars) (c : ascii) (t : chars) :
  wrapped e = pre ++ p ++ rest -> (c :: t) `suffix_of` p ->
  (c :: t ++ rest) `suffix_of` wrapped e.
Proof.
  intros E [q ->]. rewrite E. exists (pre ++ q).
  now rewrite <- !app_assoc.
Qed.

(** The pattern turns the two environments into [aligned] and finds
    nothing else. *)
Lemma aligned_wrapped (e : chars) :
  holds_align e = false ->
  replace_all alignAny (fun _ _ => of_string "aligned") (wrapped e)
  = of_string "\begin{aligned}" ++ e ++ of_string "\end{aligned}".
Proof.
  intros I. unfold replace_all, wrapped.
  rewrite replace_from_prefix.
  2:{ intros c t T. apply alignAny_starts.
      unfold opening in T. cbn in T. suffixes_cons T; reflexivity. }
  change starred with ("a"%char :: of_string "lign*" ++ ["}"%char]) at 1.
  cbn [app]. rewrite <- app_assoc.
  rewrite (replace_from_match alignAny _ "a" (of_string "lign*") _
             [(1%nat, of_string "align*")])
    by (apply (exec_alignAny "*"); reflexivity).
  change (["}"%char] ++ e ++ closing ++ starred)
    with (("}"%char :: e) ++ closing ++ starred).
  rewrite (app_assoc _ closing).
  rewrite replace_from_prefix.
  2:{ intros c t T. apply alignAny_starts.
      destruct (starts_with (of_string "align") (c :: t ++ starred)) eqn:S;
        [exfalso | reflexivity].
      assert (U : (c :: t ++ starred) `suffix_of` wrapped e).
      { apply (suffix_wrapped e (opening ++ of_string "align*")
                 (("}"%char :: e) ++ closing)); [|exact T].
        unfold wrapped. now rewrite <- !app_assoc. }
      apply suffix_length in T.
      destruct (align_places e _ I U S) as [E|E];
        apply (f_equal length) in E;
        rewrite ?length_app in *; cbn [length] in *;
        rewrite ?length_app in *; cbn in *; lia. }
  change (replace_from alignAny (fun _ _ => of_string "aligned") 0 starred)
    with (of_string "aligned}").
  cbn [app]. rewrite <- !app_assoc. reflexivity.
Qed.

Lemma replace_first_absent (pattern replacement s : chars) :
  (forall t, t `suffix_of` s -> starts_with pattern t = false) ->
  replace_first pattern replacement s = s.
Proof.
  induction s as [|c s IH]; intros N; cbn [replace_first].
  - now rewrite (N []).
  - rewrite (N (c :: s)) by reflexivity. f_equal. apply IH.
    intros t T. apply N. now apply suffix_cons_r.
Qed.

Lemma replace_first_at (pattern replacement p rest : chars) :
  (forall c t, (c :: t) `suffix_of` p ->
     starts_with pattern (c :: t ++ pattern ++ rest) = false) ->
  replace_first pattern replacement (p ++ pattern ++ rest)
  = p ++ replacement ++ rest.
Proof.
  induction p as [|c p IH]; intros N.
  - cbn [app]. destruct (pattern ++ rest) eqn:E.
    + destruct pattern; [|discriminate]. cbn in E. subst. reflexivity.
    + cbn [replace_first]. rewrite <- E, starts_with_app.
      now rewrite drop_app_length.
  - cbn [app replace_first]. rewrite (N c p) by reflexivity.
    f_equal. apply IH. intros c' t T. apply N. now apply suffix_cons_r.
Qed.

(** Neither [aligned] environment occurs in the wrapped export. *)
Lemma no_aligned_env (e pre t : chars) :
  holds_align e = false -> t `suffix_of` wrapped e ->
  starts_with (pre ++ of_string "aligned}") t = false.
Proof.
  intros I T.
  destruct (starts_with (pre ++ of_string "aligned}") t) eqn:S;
    [exfalso | reflexivity].
  apply starts_with_drop in S.
  pose proof (starts_with_prefix (of_string "align") (of_string "ed}") _ S)
    as A.
  apply (align_places e _ I (suffix_drop _ _ _ T)) in A as [E|E];
    rewrite E in S; vm_compute in S; discriminate.
Qed.

Lemma includes_text (sub a b c : string) :
  includes sub b = true -> includes sub (a +:+ b +:+ c) = true.
Proof.
  unfold includes. rewrite !of_string_app. intros I.
  now apply includes_app_r, includes_app_l.
Qed.

(** X18. [cleanLatex] on an export that does not hold the word [align]:
    an export of one line (without a double backslash) is returned as it is,
    and one of several lines is put into an [aligned] environment. An export
    of several lines that comes inside an [aligned] environment of its own
    is returned as it is. *)
Theorem cleanLatex_aligned (latexExport : string) :
  includes "align" latexExport = false ->
  cleanLatex latexExport
  = (if includes "\\" latexExport
     then "\begin{aligned}" +:+ latexExport +:+ "\end{aligned}"
     else latexExport) /\
  (includes "\\" latexExport = true ->
   cleanLatex ("\begin{aligned}" +:+ latexExport +:+ "\end{aligned}")
   = "\begin{aligned}" +:+ latexExport +:+ "\end{aligned}").
Proof.
  intros I.
  assert (W : to_string
                (replace_all alignAny (fun _ _ => of_string "aligned")
                   (wrapped (of_string latexExport)))
              = "\begin{aligned}" +:+ latexExport +:+ "\end{aligned}").
  { now rewrite (aligned_wrapped _ I), !to_string_app, !to_of_string. }
  split.
  - unfold cleanLatex. destruct (includes "\\" latexExport).
    + rewrite !of_string_app.
      change (of_string "\begin{align*}" ++ of_string latexExport ++
              of_string "\end{align*}")
        with (wrapped (of_string latexExport)).
      rewrite (replace_first_absent (of_string "\begin{aligned}"))
        by (intros t T;
            exact (no_aligned_env (of_string latexExport) opening t I T)).
      rewrite (replace_first_absent (of_string "\end{aligned}"))
        by (intros t T;
            exact (no_aligned_env (of_string latexExport) closing t I T)).
      exact W.
    + rewrite replace_all_unmatched; [apply to_of_string|].
      intros t T. apply alignAny_starts.
      now apply (includes_suffix _ (of_string latexExport)).
  - intros B. unfold cleanLatex. rewrite (includes_text _ _ _ _ B).
    rewrite !of_string_app.
    assert (R1 : replace_first (of_string "\begin{aligned}") []
                   (of_string "\begin{align*}" ++
                    (of_string "\begin{aligned}" ++ of_string latexExport ++
                     of_string "\end{aligned}") ++ of_string "\end{align*}")
                 = of_string "\begin{align*}" ++
                   (of_string latexExport ++ of_string "\end{aligned}") ++
                   of_string "\end{align*}") by reflexivity.
    rewrite R1. clear R1.
    replace (of_string "\begin{align*}" ++
             (of_string latexExport ++ of_string "\end{aligned}") ++
             of_string "\end{align*}")
      with ((of_string "\begin{align*}" ++ of_string latexExport) ++
            of_string "\end{aligned}" ++ of_string "\end{align*}")
      by now rewrite <- !app_assoc.
    rewrite replace_first_at.
    + cbn [app]. rewrite <- app_assoc.
      change (of_string "\begin{align*}" ++ of_string latexExport ++
              of_string "\end{align*}")
        with (wrapped (of_string latexExport)).
      exact W.
    + assert (A : forall v, v `suffix_of` of_string latexExport ->
                    starts_with (of_string "align")
                      (v ++ of_string "\end{aligned}" ++
                       of_string "\end{align*}") = false).
      { intros v V.
        change (of_string "\end{aligned}")
          with (closing ++ of_string "aligned}").
        rewrite <- app_assoc.
        now apply (align_before_closing (of_string latexExport)). }
      assert (In_export : forall c t,
                (c :: t) `suffix_of` of_string latexExport ->
                starts_with (of_string "\end{aligned}")
                  (c :: t ++ of_string "\end{aligned}" ++
                   of_string "\end{align*}") = false).
      { intros c t U.
        destruct (starts_with (of_string "\end{aligned}") _) eqn:S;
          [exfalso | reflexivity].
        apply (starts_with_drop closing (of_string "aligned}")) in S.
        apply (starts_with_prefix (of_string "align") (of_string "ed}")) in S.
        destruct t as [|c2 [|c3 [|c4 [|c5 t]]]];
          try (vm_compute in S; discriminate S).
        change (length closing) with 5%nat in S. cbn [drop app] in S.
        rewrite drop_0 in S.
        rewrite A in S; [discriminate|].
        etransitivity; [|exact U].
        now exists [c; c2; c3; c4; c5]. }
      intros c t T.
      apply suffix_app_cases in T as [(u & E & U) | U];
        [|now apply In_export].
      destruct u as [|u0 u].
      * apply In_export. cbn [app] in E. rewrite <- E. reflexivity.
      * rewrite app_comm_cons, E. clear E. cbn in U.
        suffixes_cons U; reflexivity.
Qed.

End CleanLatex.

(** ** Draw mode: exports *)

Section DrawExports.
Context `{Host}.
Import JS Solve SolveRequest DrawModeView.

(** The solve button after an export: disabled when the markup kept is
    missing or blank. *)
Definition noExpression (latex : option string) : bool :=
  negb (truthy latex && negb (String.eqb (trim (default "" latex)) "")).

Lemma exported_nothing (v : DrawModeView.t) :
  exported None v
  = {| dataset_latex := dataset_latex v;
       result := InnerHTML "Your expression will appear here";
       solve_disabled := noExpression (dataset_latex v) |}.
Proof. reflexivity. Qed.

Lemma run_nothing (n : nat) (v : DrawModeView.t) :
  run (replicate (S n) None) v = exported None v.
Proof.
  revert v. induction n as [|n IH]; intros v; [reflexivity|].
  change (run (replicate (S (S n)) None) v)
    with (run (replicate (S n) None) (exported None v)).
  rewrite IH. now rewrite !exported_nothing.
Qed.

(** X19. An export with markup stores the cleaned markup for the solver.
    Exports without markup that follow (the drawing was cleared) put the
    placeholder back into the preview and leave the stored markup as it is:
    the solve button is disabled only when that markup is blank, and the
    listener of its click sends the stored markup, when it is not empty,
    with the value of [#topic] or the operation type guessed from the
    markup. *)
Theorem cleared_drawing_keeps_markup (latexExport : string) (n : nat)
    (v : DrawModeView.t) (topicSelect : option string) (reply : Reply) :
  latexExport <> "" ->
  let latex := cleanLatex latexExport in
  let v' := run (Some latexExport :: replicate n None) v in
  dataset_latex v' = Some latex /\
  solve_disabled v' = noExpression (Some latex) /\
  (n <> 0%nat -> result v' = InnerHTML "Your expression will appear here") /\
  (latex <> "" ->
   snd (solveClicked topicSelect reply v')
   = Some ({| SolveRequest.latex := latex;
              SolveRequest.operation_type := operationType topicSelect latex |},
           displayed reply DrawMode.displaySolution)).
Proof.
  intros N latex v'.
  assert (E : dataset_latex (exported (Some latexExport) v) = Some latex
              /\ solve_disabled (exported (Some latexExport) v)
                 = noExpression (Some latex)).
  { unfold exported. rewrite (proj2 (truthy_Some latexExport) N).
    now split. }
  destruct E as [E1 E2].
  assert (V : dataset_latex v' = Some latex /\
              solve_disabled v' = noExpression (Some latex) /\
              (n <> 0%nat ->
               result v' = InnerHTML "Your expression will appear here")).
  { unfold v'. destruct n as [|n].
    - split; [exact E1|]. split; [exact E2 | congruence].
    - change (run (Some latexExport :: replicate (S n) None) v)
        with (run (replicate (S n) None) (exported (Some latexExport) v)).
      rewrite run_nothing, exported_nothing.
      cbn [dataset_latex solve_disabled result]. rewrite E1.
      now repeat split. }
  destruct V as (V1 & V2 & V3).
  split; [exact V1|]. split; [exact V2|]. split; [exact V3|].
  intros L. unfold solveClicked. rewrite V1.
  now rewrite (proj2 (truthy_Some latex) L).
Qed.

End DrawExports.

Section DrawModeExamples.
Import JS Solve SolveRequest DrawModeView.
Local Existing Instance SampleHost.host.

Lemma cleanLatex_aligned_example :
  cleanLatex "x=1 \\ y=2" = "\begin{aligned}x=1 \\ y=2\end{aligned}" /\
  cleanLatex "\begin{aligned}x=1 \\ y=2\end{aligned}"
  = "\begin{aligned}x=1 \\ y=2\end{aligned}".
Proof.
  destruct (cleanLatex_aligned "x=1 \\ y=2" eq_refl) as [C W].
  split; [exact C | exact (W eq_refl)].
Defined.

Lemma cleared_drawing_keeps_markup_example :
  let v' := run [Some "x^2"; None; None] init in
  dataset_latex v' = Some "x^2" /\
  solve_disabled v' = false /\
  result v' = InnerHTML "Your expression will appear here" /\
  snd (solveClicked None (Rejected "offline") v')
  = Some ({| SolveRequest.latex := "x^2";
             SolveRequest.operation_type := "solve" |},
          Error "Error: offline").
Proof.
  destruct (cleared_drawing_keeps_markup "x^2" 2 init None
              (Rejected "offline")) as (D & B & R & C); [discriminate|].
  split; [exact D|]. split; [exact B|].
  split; [apply R; discriminate | apply C; discriminate].
Defined.

End DrawModeExamples.

(** ** The converter on a power *)

Section Powers.
Import JS TextMode.
#[local] Arguments Ascii.eqb : simpl never.
#[local] Arguments isChar : simpl never.

Lemma rmatch_alt {R} r1 r2 s caps (k : chars -> captures -> option R) :
  rmatch (Alt r1 r2) s caps k =
  orelse (rmatch r1 s caps k) (rmatch r2 s caps k).
Proof. reflexivity. Qed.

(** A pattern that begins with a literal character fails elsewhere. *)
Lemma exec_chr_head (x : ascii) (r : regex) (c : ascii) (s : chars) :
  isChar x c = false -> exec (Chr (isChar x) +> r) (c :: s) = None.
Proof. intros C. unfold exec. now rewrite rmatch_seq, rmatch_chr, C. Qed.

Lemma exec_chr_nil (p : ascii -> bool) (r : regex) :
  exec (Chr p +> r) [] = None.
Proof. reflexivity. Qed.

(** No character of [s] is in the class [p]. *)
Definition none (p : ascii -> bool) (s : chars) : bool :=
  forallb (fun c => negb (p c)) s.

Lemma none_app (p : ascii -> bool) (a b : chars) :
  none p (a ++ b) = none p a && none p b.
Proof. apply forallb_app. Qed.

Lemma none_suffix (p : ascii -> bool) (s t : chars) :
  none p s = true -> t `suffix_of` s -> none p t = true.
Proof.
  intros N [pre ->]. rewrite none_app in N.
  now apply andb_true_iff in N as [_ N].
Qed.

Lemma none_weaken (p q : ascii -> bool) (s : chars) :
  (forall c, q c = true -> p c = false) ->
  forallb q s = true -> none p s = true.
Proof.
  intros Q F. unfold none. rewrite forallb_forall in *.
  intros c I. now rewrite (Q c (F c I)).
Qed.

Lemma none_without (x : ascii) (s : chars) :
  none (isChar x) s = without x s.
Proof.
  unfold none, without, isChar. induction s as [|c s IH]; [reflexivity|].
  cbn [forallb]. now rewrite IH, Ascii.eqb_sym.
Qed.

(** The classes of the letters and of the digits are apart, and apart from
    the signs of the patterns. *)
Lemma digit_class (c : ascii) :
  isDigit c = true ->
  isAlpha c = false /\ isAlnum c = true /\ dot c = true /\
  isChar "*" c = false /\ isChar "^" c = false /\ isChar "-" c = false /\
  isChar "(" c = false /\ isChar ")" c = false /\ isChar "[" c = false /\
  isChar "{" c = false.
Proof.
  destruct c as [[] [] [] [] [] [] [] []]; vm_compute; intros D;
    try discriminate D; now repeat split.
Qed.

Lemma alpha_class (c : ascii) :
  isAlpha c = true ->
  isDigit c = false /\ isChar "*" c = false /\ isChar "^" c = false /\
  isChar "[" c = false /\ isChar "(" c = false.
Proof.
  destruct c as [[] [] [] [] [] [] [] []]; vm_compute; intros D;
    try discriminate D; now repeat split.
Qed.

Lemma digits_none (p : ascii -> bool) (n : chars) :
  (forall c, isDigit c = true -> p c = false) ->
  forallb isDigit n = true -> none p n = true.
Proof. apply none_weaken. Qed.

(** What a match of each pattern needs. *)
Lemma exec_explicitTimes (t : chars) :
  none (isChar "*") t = true -> exec explicitTimes t = None.
Proof.
  rewrite none_without. intros W.
  apply (exec_needs _ "*" t explicitTimes_star W). reflexivity.
Qed.

Lemma exec_digitLetter (c d : ascii) (t : chars) :
  isDigit c && isAlpha d = false -> exec digitLetter (c :: d :: t) = None.
Proof.
  intros A. unfold exec, digitLetter.
  rewrite rmatch_seq, rmatch_group, rmatch_chr.
  destruct (isDigit c); [|reflexivity].
  rewrite rmatch_group, rmatch_chr. cbn [andb] in A. now rewrite A.
Qed.

Lemma exec_digitLetter_last (c : ascii) :
  exec digitLetter [c] = None.
Proof.
  unfold exec, digitLetter. rewrite rmatch_seq, rmatch_group, rmatch_chr.
  now destruct (isDigit c).
Qed.

Lemma exec_termPower (c d : ascii) (t : chars) :
  isAlpha d = false -> exec termPower (c :: d :: t) = None.
Proof.
  intros A. unfold exec, termPower, Plus.
  rewrite rmatch_seq, rmatch_group, rmatch_chr.
  destruct (_ || _); [|reflexivity].
  now rewrite rmatch_group, !rmatch_seq, rmatch_chr, A.
Qed.

Lemma exec_termPower_last (c : ascii) : exec termPower [c] = None.
Proof.
  unfold exec, termPower, Plus.
  rewrite rmatch_seq, rmatch_group, rmatch_chr. now destruct (_ || _).
Qed.

Lemma exec_parenExponent (t : chars) :
  none (isChar "(") t = true -> exec parenExponent t = None.
Proof.
  rewrite none_without. intros W.
  apply (exec_needs parenExponent "(" t); [|exact W | reflexivity].
  intros m rest caps M. unfold parenExponent, Opt in M.
  inversion M; subst; clear M.
  match goal with M : captured (Group _ _) _ _ _ _ |- _ =>
    inversion M; subst; clear M end.
  match goal with M : captured (Alt _ _) _ _ _ _ |- _ =>
    inversion M; subst; clear M end;
    take_apart; rewrite ?in_app_iff; cbn [In app]; tauto.
Qed.

Lemma exec_negExponent (c : ascii) (t : chars) :
  isChar "-" c = false -> exec negExponent ("^"%char :: c :: t) = None.
Proof.
  intros C. unfold exec, negExponent.
  now rewrite rmatch_seq, rmatch_same, rmatch_seq, rmatch_chr, C.
Qed.

Lemma exec_bareExponent (c : ascii) (t : chars) :
  isAlnum c = false -> exec bareExponent ("^"%char :: c :: t) = None.
Proof.
  intros C. unfold exec, bareExponent, Plus.
  now rewrite rmatch_seq, rmatch_same, rmatch_group, rmatch_seq, rmatch_chr, C.
Qed.

(** The exponent up to the end of the input. *)
Lemma plus_to_end {R} (p : ascii -> bool) (n : chars) caps
    (k : chars -> captures -> option R) :
  n <> [] -> forallb p n = true ->
  is_Some (k [] caps) ->
  rmatch (Plus p) n caps k = k [] caps.
Proof.
  intros N F [res K]. destruct n as [|d n]; [contradiction|].
  cbn [forallb] in F. apply andb_true_iff in F as [D F].
  unfold Plus. rewrite rmatch_seq, rmatch_chr, D, K.
  rewrite <- (app_nil_r n). apply star_further; [exact F|].
  now rewrite star_nil.
Qed.

Lemma exec_bare_power (n : chars) :
  n <> [] -> forallb isAlnum n = true ->
  exec bareExponent ("^"%char :: n) = Some ("^"%char :: n, [(1%nat, n)]).
Proof.
  intros N F. unfold exec, bareExponent.
  rewrite rmatch_seq, rmatch_same, rmatch_group.
  rewrite plus_to_end by (assumption || eauto).
  change (length (@nil ascii)) with 0%nat.
  now rewrite !Nat.sub_0_r, !firstn_all.
Qed.

Lemma exec_neg_power (n : chars) :
  n <> [] -> forallb isAlnum n = true ->
  exec negExponent ("^"%char :: "-"%char :: n)
  = Some ("^"%char :: "-"%char :: n, [(1%nat, n)]).
Proof.
  intros N F. unfold exec, negExponent.
  rewrite rmatch_seq, rmatch_same, rmatch_seq, rmatch_same, rmatch_group.
  rewrite plus_to_end by (assumption || eauto).
  change (length (@nil ascii)) with 0%nat.
  now rewrite !Nat.sub_0_r, !firstn_all.
Qed.

Lemma exec_paren_power (n : chars) :
  forallb dot n = true -> none (isChar ")") n = true ->
  exec parenExponent ("^"%char :: "("%char :: n ++ [")"%char])
  = Some ("^"%char :: "("%char :: n ++ [")"%char],
          [(1%nat, "("%char :: n ++ [")"%char])]).
Proof.
  intros D P. unfold exec, parenExponent, Opt.
  rewrite rmatch_seq, rmatch_same, rmatch_group, rmatch_alt.
  rewrite !rmatch_seq, rmatch_alt, rmatch_chr.
  change (isChar "-" "(") with false. cbn [orelse].
  rewrite rmatch_eps, rmatch_seq, !rmatch_same, rmatch_seq.
  rewrite (lazy_until dot n [")"%char] _ _
             ("^"%char :: "("%char :: n ++ [")"%char],
              [(1%nat, "("%char :: n ++ [")"%char])])).
  - reflexivity.
  - exact D.
  - intros c t T. rewrite rmatch_chr.
    apply (none_suffix _ _ _ P) in T. cbn [none forallb] in T.
    apply andb_true_iff in T as [T _]. apply negb_true_iff in T.
    now rewrite T.
  - rewrite rmatch_same. change (length (@nil ascii)) with 0%nat.
    now rewrite !Nat.sub_0_r, !firstn_all.
Qed.

(** What the digits of an exponent are not. *)
Lemma alnum_class (c : ascii) :
  isAlnum c = true ->
  isChar "*" c = false /\ isChar "^" c = false /\ isChar "(" c = false /\
  isChar "-" c = false /\ isChar "[" c = false.
Proof.
  destruct c as [[] [] [] [] [] [] [] []]; vm_compute; intros D;
    try discriminate D; now repeat split.
Qed.

Lemma all_weaken (p q : ascii -> bool) (s : chars) :
  (forall c, q c = true -> p c = true) ->
  forallb q s = true -> forallb p s = true.
Proof.
  intros Q F. rewrite forallb_forall in *. intros c I. now apply Q, F.
Qed.

Lemma none_cons (p : ascii -> bool) (c : ascii) (s : chars) :
  none p (c :: s) = negb (p c) && none p s.
Proof. reflexivity. Qed.

(** A pattern that asks for a letter in the second place finds nothing
    where no letter follows. *)
Lemma exec_digitLetter_tail (c : ascii) (t : chars) :
  none isAlpha t = true -> exec digitLetter (c :: t) = None.
Proof.
  destruct t as [|d t]; [intros _; apply exec_digitLetter_last|].
  rewrite none_cons, andb_true_iff, negb_true_iff. intros [A _].
  apply exec_digitLetter. rewrite A. apply andb_false_r.
Qed.

Lemma exec_termPower_tail (c : ascii) (t : chars) :
  none isAlpha t = true -> exec termPower (c :: t) = None.
Proof.
  destruct t as [|d t]; [intros _; apply exec_termPower_last|].
  rewrite none_cons, andb_true_iff, negb_true_iff. intros [A _].
  now apply exec_termPower.
Qed.

Lemma no_letter_follows (r : regex) (c : ascii) (t : chars) :
  (forall c t, none isAlpha t = true -> exec r (c :: t) = None) ->
  exec r [] = None ->
  none isAlpha t = true ->
  forall u, u `suffix_of` c :: t -> exec r u = None.
Proof.
  intros E0 E1 A [|c' u] U; [exact E1|]. apply E0.
  apply suffix_cons_cases in U as [[= _ ->] | U]; [exact A|].
  apply (none_suffix _ _ _ A). now apply suffix_cons_l in U.
Qed.

Lemma negExponent_minus m rest caps :
  captured negExponent m rest [] caps -> In "-"%char m.
Proof.
  unfold negExponent, Plus. intros M. take_apart. right. now left.
Qed.

Lemma exec_negExponent_none (s : chars) :
  none (isChar "-") s = true ->
  forall t, t `suffix_of` s -> exec negExponent t = None.
Proof.
  rewrite none_without. intros W.
  now apply (exec_needs negExponent "-" s negExponent_minus).
Qed.

Lemma exec_bareExponent_none (s : chars) :
  none (isChar "^") s = true ->
  forall t, t `suffix_of` s -> exec bareExponent t = None.
Proof.
  rewrite none_without. intros W.
  now apply (exec_needs bareExponent "^" s bareExponent_caret).
Qed.

(** An exponent in braces is no match of the last pattern. *)
Lemma exec_bareExponent_braced (x : ascii) (e : chars) :
  isChar "^" x = false -> none (isChar "^") e = true ->
  forall u, u `suffix_of` x :: "^"%char :: "{"%char :: e ->
            exec bareExponent u = None.
Proof.
  intros X E u U.
  apply suffix_cons_cases in U as [-> | U]; [now apply exec_chr_head|].
  apply suffix_cons_cases in U as [-> | U]; [now apply exec_bareExponent|].
  now apply (exec_bareExponent_none ("{"%char :: e)).
Qed.

(** One match that ends the input, after one character that starts none. *)
Lemma replace_all_last (r : regex) (f : chars -> captures -> chars)
    (x c : ascii) (m : chars) (caps : captures) :
  exec r (x :: c :: m) = None ->
  exec r (c :: m) = Some (c :: m, caps) ->
  exec r [] = None ->
  replace_all r f (x :: c :: m) = x :: f (c :: m) caps.
Proof.
  intros X M E. unfold replace_all. rewrite replace_from_copy by exact X.
  f_equal. pose proof (replace_from_match r f c m [] caps) as R.
  rewrite app_nil_r in R. rewrite (R M). cbn [replace_from]. rewrite E.
  apply app_nil_r.
Qed.

Lemma domainClause_without (s : chars) :
  none (isChar "[") s = true -> domainClause s = s.
Proof.
  rewrite none_without. intros B. apply domainClause_unchanged.
  intros pre e a b _ _ _ E. rewrite E in B. unfold domainForm in B.
  rewrite !without_app in B. cbn [without forallb] in B.
  rewrite Ascii.eqb_refl in B. cbn in B.
  now rewrite !andb_false_r in B.
Qed.

Lemma substring_inside (a b c : ascii) (n : chars) :
  substring 2 (length (a :: b :: n ++ [c]) - 1) (a :: b :: n ++ [c]) = n.
Proof.
  unfold substring. cbn [length drop]. rewrite length_app. cbn [length].
  replace (S (S (length n + 1)) - 1 - 2)%nat with (length n) by lia.
  apply take_app_length.
Qed.

(** The digits of an exponent. *)
Record digits (n : chars) : Prop := {
  digits_some : n <> [];
  digits_all : forallb isDigit n = true
}.

Lemma digits_without (n : chars) (x : ascii) :
  digits n -> isDigit x = false -> none (isChar x) n = true.
Proof.
  intros [_ D] X. unfold none. rewrite forallb_forall in *.
  intros c I. specialize (D c I). apply negb_true_iff. unfold isChar.
  destruct (Ascii.eqb_spec x c) as [->|]; [congruence | reflexivity].
Qed.

Lemma digits_alnum (n : chars) : digits n -> forallb isAlnum n = true.
Proof.
  intros [_ D]. revert D. apply all_weaken. intros c D.
  now destruct (digit_class c D) as (_ & A & _).
Qed.

Lemma digits_dot (n : chars) : digits n -> forallb dot n = true.
Proof.
  intros [_ D]. revert D. apply all_weaken. intros c D.
  now destruct (digit_class c D) as (_ & _ & A & _).
Qed.

Lemma digits_no_letter (n : chars) : digits n -> none isAlpha n = true.
Proof.
  intros [_ D]. revert D. apply none_weaken. intros c D.
  now destruct (digit_class c D) as (A & _).
Qed.

(** The first three steps pass over a power. *)
Lemma first_steps (x : ascii) (t : chars) :
  none (isChar "*") (x :: t) = true -> none isAlpha t = true ->
  replace_all termPower
    (fun _ g => group 1 g ++ of_string " " ++ group 2 g)
    (replace_all digitLetter
       (fun _ g => group 1 g ++ of_string " " ++ group 2 g)
       (replace_all explicitTimes
          (fun _ g => group 1 g ++ group 2 g ++ group 3 g ++ group 4 g)
          (x :: t)))
  = x :: t.
Proof.
  intros T A.
  rewrite (replace_all_unmatched explicitTimes).
  2:{ intros u U. apply exec_explicitTimes. now apply (none_suffix _ _ _ T). }
  rewrite (replace_all_unmatched digitLetter).
  2:{ now apply no_letter_follows; [apply exec_digitLetter_tail | |]. }
  apply (replace_all_unmatched termPower).
  now apply no_letter_follows; [apply exec_termPower_tail | |].
Qed.

Lemma rewriteSteps_bare (x : ascii) (n : chars) :
  isAlnum x = true -> digits n ->
  rewriteSteps (x :: "^"%char :: n) = x :: of_string "^{" ++ n ++ of_string "}".
Proof.
  intros X N. destruct (alnum_class x X) as (X1 & X2 & X3 & X4 & _).
  unfold rewriteSteps. rewrite first_steps.
  2:{ rewrite !none_cons, X1. now rewrite (digits_without n "*" N). }
  2:{ rewrite none_cons. now rewrite (digits_no_letter n N). }
  rewrite (replace_all_unmatched parenExponent).
  2:{ intros u U. apply exec_parenExponent.
      apply (none_suffix _ (x :: "^"%char :: n)); [|exact U].
      rewrite !none_cons, X3. now rewrite (digits_without n "(" N). }
  rewrite (replace_all_unmatched negExponent).
  2:{ apply exec_negExponent_none. rewrite !none_cons, X4.
      now rewrite (digits_without n "-" N). }
  rewrite (replace_all_last bareExponent _ x "^" n [(1%nat, n)]).
  - reflexivity.
  - now apply exec_chr_head.
  - apply exec_bare_power; [apply N | now apply digits_alnum].
  - reflexivity.
Qed.

Lemma rewriteSteps_neg (x : ascii) (n : chars) :
  isAlnum x = true -> digits n ->
  rewriteSteps (x :: of_string "^-" ++ n)
  = x :: of_string "^{-" ++ n ++ of_string "}".
Proof.
  intros X N. destruct (alnum_class x X) as (X1 & X2 & X3 & X4 & _).
  cbn [of_string list_ascii_of_string app].
  unfold rewriteSteps. rewrite first_steps.
  2:{ rewrite !none_cons, X1. now rewrite (digits_without n "*" N). }
  2:{ rewrite !none_cons. now rewrite (digits_no_letter n N). }
  rewrite (replace_all_unmatched parenExponent).
  2:{ intros u U. apply exec_parenExponent.
      apply (none_suffix _ (x :: "^"%char :: "-"%char :: n)); [|exact U].
      rewrite !none_cons, X3. now rewrite (digits_without n "(" N). }
  rewrite (replace_all_last negExponent _ x "^" ("-"%char :: n) [(1%nat, n)]).
  - apply (replace_all_unmatched bareExponent).
    apply (exec_bareExponent_braced x ("-"%char :: n ++ ["}"%char]));
      [exact X2|].
    rewrite none_cons, none_app, (digits_without n "^" N); reflexivity.
  - now apply exec_chr_head.
  - apply exec_neg_power; [apply N | now apply digits_alnum].
  - reflexivity.
Qed.

Lemma rewriteSteps_paren (x : ascii) (n : chars) :
  isAlnum x = true -> digits n ->
  rewriteSteps (x :: of_string "^(" ++ n ++ of_string ")")
  = x :: of_string "^{" ++ n ++ of_string "}".
Proof.
  intros X N. destruct (alnum_class x X) as (X1 & X2 & X3 & X4 & _).
  cbn [of_string list_ascii_of_string app].
  unfold rewriteSteps. rewrite first_steps.
  2:{ rewrite !none_cons, none_app, X1.
      now rewrite (digits_without n "*" N). }
  2:{ rewrite !none_cons, none_app. now rewrite (digits_no_letter n N). }
  rewrite (replace_all_last parenExponent _ x "^"
             ("("%char :: n ++ [")"%char])
             [(1%nat, "("%char :: n ++ [")"%char])]).
  - rewrite substring_inside.
    rewrite (replace_all_unmatched negExponent).
    2:{ apply exec_negExponent_none. cbn [of_string list_ascii_of_string app].
        rewrite !none_cons, none_app, X4.
        now rewrite (digits_without n "-" N). }
    apply (replace_all_unmatched bareExponent).
    apply (exec_bareExponent_braced x (n ++ ["}"%char])); [exact X2|].
    rewrite none_app, (digits_without n "^" N); reflexivity.
  - now apply exec_chr_head.
  - apply exec_paren_power; [now apply digits_dot|].
    now apply (digits_without n ")" N).
  - reflexivity.
Qed.

Lemma power_without_bracket (x : ascii) (a n : chars) :
  isAlnum x = true -> digits n -> none (isChar "[") a = true ->
  none (isChar "[") (x :: a ++ n ++ of_string "}") = true.
Proof.
  intros X N A. destruct (alnum_class x X) as (_ & _ & _ & _ & X5).
  rewrite none_cons, !none_app, X5, A.
  now rewrite (digits_without n "[" N).
Qed.

(** X20. A letter or a digit raised to a number: with the exponent written
    plainly, after a minus sign or between parentheses, the converter puts
    the exponent, and the minus sign with it, between braces, under every
    operation type. *)
Theorem power_braced (operationTypeSelect : option string) (x : ascii)
    (n : string) :
  isAlnum x = true -> n <> "" -> forallb isDigit (of_string n) = true ->
  processInputToLatex operationTypeSelect (String x ("^" +:+ n))
  = String x ("^{" +:+ n +:+ "}") /\
  processInputToLatex operationTypeSelect (String x ("^-" +:+ n))
  = String x ("^{-" +:+ n +:+ "}") /\
  processInputToLatex operationTypeSelect (String x ("^(" +:+ n +:+ ")"))
  = String x ("^{" +:+ n +:+ "}").
Proof.
  intros X E D.
  assert (N : digits (of_string n)).
  { split; [|exact D]. intros Z. apply E, of_string_inj. exact Z. }
  assert (R : forall a latex,
            none (isChar "[") (of_string a) = true ->
            latex = x :: of_string a ++ of_string n ++ of_string "}" ->
            to_string
              (if String.eqb
                    match operationTypeSelect with
                    | Some value => value
                    | None => "solve"
                    end "fourier"
               then domainClause latex else latex)
            = String x (a +:+ n +:+ "}")).
  { intros a latex A ->.
    rewrite domainClause_without by now apply power_without_bracket.
    destruct (String.eqb _ _); cbn [to_string string_of_list_ascii];
      f_equal; rewrite <- !of_string_app; apply to_of_string. }
  unfold processInputToLatex. repeat split.
  - apply (R "^{"); [reflexivity|]. now apply rewriteSteps_bare.
  - apply (R "^{-"); [reflexivity|]. now apply rewriteSteps_neg.
  - apply (R "^{"); [reflexivity|].
    change (of_string (String x ("^(" +:+ n +:+ ")")))
      with (x :: "^"%char :: "("%char :: of_string (n +:+ ")")).
    rewrite of_string_app. now apply rewriteSteps_paren.
Qed.

End Powers.

Section PowerExamples.
Import JS TextMode.

Lemma power_braced_example :
  processInputToLatex (Some "laplace") "t^2" = "t^{2}" /\
  processInputToLatex (Some "laplace") "t^-2" = "t^{-2}" /\
  processInputToLatex (Some "laplace") "t^(2)" = "t^{2}".
Proof.
  apply (power_braced (Some "laplace") "t" "2");
    [reflexivity | discriminate | reflexivity].
Defined.

End PowerExamples.
